(** * Library lending core: book requests, copy counters and the waitlist

    A shallow embedding of the book-request service
    (modules/library/bookRequest.service.js), of the two Mongoose
    schemas it reads and writes (book.model.js, bookRequest.model.js) and
    of the catalogue update of book.service.js.

    Modelling decisions, all taken from the source:
    - an ObjectId is a natural number.  The [books] collection is a finite
      map from ids; the [requests] collection is a list in insertion
      order, a request's [_id] being its index (the service never deletes
      a request);
    - a JavaScript Number holding a count or a position is an integer [Z].
      Numbers are doubles: the service adds one to a copy count and
      takes one off it as doubles do ([js_add1], [js_sub1]: exact up to
      2^53, rounded from there on), and the properties that need the
      exact result state that bound ([max_exact]).  A Date is its epoch
      time in milliseconds, also a [Z]; [new Date (t)] is a date only up
      to 8.64e15 ms from the epoch ([valid_time]), and a document
      holding another one is not saved.  A field that can hold [null] (a
      schema default, or the loan period after a catalogue update) is an
      [option];
    - every service function is a computation in a state-and-exception
      monad over the store.  A [throw] keeps the writes already made:
      the service uses no transaction;
    - [doc.save()] and [Model.create] run the validators the schema
      declares for the modelled fields and, for a book, the [pre("save")]
      hook; [updateMany] bypasses both, as in Mongoose;
    - [notifyUser] appends to an outbox: a call of the notification
      helper, whether or not the recipient is online;
    - calls run one at a time, each to its end: the interleaving of
      concurrent calls is outside this model. *)

From Stdlib Require Import ZArith Lia Ascii String.
From stdpp Require Import base option list gmap strings sorting.

Open Scope Z_scope.

(** ** Documents *)

Inductive BookType := physical | digital | hybrid.
Inductive RequestType := borrow | download.
Inductive Status :=
  pending | approved | rejected | issued | returned | waitlisted | cancelled.

Global Instance BookType_eq_dec : EqDecision BookType.
Proof. solve_decision. Defined.
Global Instance RequestType_eq_dec : EqDecision RequestType.
Proof. solve_decision. Defined.
Global Instance Status_eq_dec : EqDecision Status.
Proof. solve_decision. Defined.

(** book.model.js; the fields the request service and the save hook use
    (titles, covers and reviews only feed messages and ratings). *)
Record Book := mkBook {
  bookType : BookType;
  physical_totalCopies : Z;
  physical_availableCopies : Z;
  digital_fileUrl : string;
  borrowDurationDays : option Z;
  isActive : bool
}.

(** bookRequest.model.js *)
Record BookRequest := mkBookRequest {
  book : nat;
  user : nat;
  requestType : RequestType;
  status : Status;
  approvedBy : option nat;
  approvedAt : option Z;
  rejectedBy : option nat;
  rejectedAt : option Z;
  rejectionReason : string;
  issuedBy : option nat;
  issuedAt : option Z;
  dueDate : option Z;
  returnedAt : option Z;
  returnAcceptedBy : option nat;
  waitlistPosition : option Z;
  waitlistNotifiedAt : option Z;
  userNote : string
}.

(** One call of [notifyUser (userId, event, data)]. *)
Record Notification := mkNotification {
  recipient : nat;
  event : string;
  about : nat
}.

Record Store := mkStore {
  books : gmap nat Book;
  requests : list BookRequest;
  outbox : list Notification
}.

(** ** Errors

    One constructor per [throw] site of the service, named after the
    message, plus the three failures of the platform underneath. *)
Inductive Error :=
  | BookNotFound
  | BookUnavailable
  | DigitalOnly
  | PhysicalOnly
  | FileNotAvailable
  | DuplicateActive (st : Status)
  | RequestNotFound
  | NotAuthorized
  | CannotCancel (st : Status)
  | CannotApprove (st : Status)
  | CannotReject (st : Status)
  | IssueNotApproved
  | IssueOnlyBorrow
  | NoCopiesToIssue
  | ReturnNotIssued
  | ValidationError
  | IncNonNumeric
  | TypeError.

Global Instance Error_eq_dec : EqDecision Error.
Proof. solve_decision. Defined.

(** [err.statusCode]; the platform's errors carry none. *)
Definition statusCode (e : Error) : option Z :=
  match e with
  | BookNotFound | RequestNotFound => Some 404
  | NotAuthorized => Some 403
  | ValidationError | IncNonNumeric | TypeError => None
  | _ => Some 400
  end.



Inductive result (A : Type) :=
  | Ok (a : A)
  | Err (e : Error).
Arguments Ok {A} a.
Arguments Err {A} e.

Definition is_Ok {A} (r : result A) : Prop :=
  match r with Ok _ => True | Err _ => False end.

(** ** The monad of service calls *)

Definition M (A : Type) : Type := Store → Store * result A.

Definition ret {A} (a : A) : M A := λ s, (s, Ok a).
Definition throw {A} (e : Error) : M A := λ s, (s, Err e).
Definition bind {A B} (m : M A) (k : A → M B) : M B :=
  λ s, match m s with
       | (s', Ok a) => k a s'
       | (s', Err e) => (s', Err e)
       end.

Declare Scope svc_scope.
Delimit Scope svc_scope with svc.
Notation "'let!' x ':=' m 'in' k" := (bind m (λ x, k))
  (at level 10, x pattern, m at level 100, k at level 200) : svc_scope.
Notation "m ';;;' k" := (bind m (λ _, k))
  (at level 100, k at level 200, right associativity) : svc_scope.
Open Scope svc_scope.

Definition gets {A} (f : Store → A) : M A := λ s, (s, Ok (f s)).
Definition modify (f : Store → Store) : M unit := λ s, (f s, Ok tt).

(** The store a call leaves behind, and what it returns or throws. *)
Definition after {A} (m : M A) (s : Store) : Store := (m s).1.
Definition outcome {A} (m : M A) (s : Store) : result A := (m s).2.

(** ** Collections

    Queries are boolean filters on a document, as in a Mongo filter
    object. *)

Definition set_books (f : gmap nat Book → gmap nat Book) (s : Store) : Store :=
  {| books := f (books s); requests := requests s; outbox := outbox s |}.
Definition set_requests (f : list BookRequest → list BookRequest) (s : Store) : Store :=
  {| books := books s; requests := f (requests s); outbox := outbox s |}.
Definition set_outbox (f : list Notification → list Notification) (s : Store) : Store :=
  {| books := books s; requests := requests s; outbox := f (outbox s) |}.

(** [String.prototype.trim], which the schema option [trim: true] applies
    when a string field is assigned; on the Latin-1 range. *)
Definition is_space (c : Ascii.ascii) : bool :=
  let n := Ascii.nat_of_ascii c in
  ((9 <=? n) && (n <=? 13) || (n =? 32) || (n =? 160))%nat.

Fixpoint trim_start (s : string) : string :=
  match s with
  | EmptyString => EmptyString
  | String c s' => if is_space c then trim_start s' else s
  end.

Fixpoint trim_end (s : string) : string :=
  match s with
  | EmptyString => EmptyString
  | String c s' =>
      match trim_end s' with
      | EmptyString => if is_space c then EmptyString else String c EmptyString
      | t => String c t
      end
  end.

Definition trim (s : string) : string := trim_end (trim_start s).

(** *** Book *)

(** The validators of book.model.js: [min: 0] on both counters and
    [min: 1] on [borrowDurationDays]; a [min] validator passes [null]. *)
Definition book_validate (b : Book) : bool :=
  (0 <=? physical_totalCopies b) && (0 <=? physical_availableCopies b)
  && match borrowDurationDays b with
     | None => true
     | Some days => 1 <=? days
     end.

Definition set_availableCopies (n : Z) (b : Book) : Book :=
  {| bookType := bookType b;
     physical_totalCopies := physical_totalCopies b;
     physical_availableCopies := n;
     digital_fileUrl := digital_fileUrl b;
     borrowDurationDays := borrowDurationDays b;
     isActive := isActive b |}.

(** [bookSchema.pre("save")]: the available count is cut down to the
    total.  (The hook also recomputes the rating from the reviews, which
    are not part of this model.) *)
Definition book_pre_save (b : Book) : Book :=
  if physical_totalCopies b <? physical_availableCopies b
  then set_availableCopies (physical_totalCopies b) b
  else b.

Definition Book_findById (id : nat) : M (option Book) :=
  gets (λ s, books s !! id).

Definition Book_save (id : nat) (b : Book) : M unit :=
  if book_validate b
  then modify (set_books (insert id (book_pre_save b)))
  else throw ValidationError.

(** *** BookRequest *)

(** [maxlength: 300] on [userNote]; the enums hold by typing. *)
Definition request_validate (r : BookRequest) : bool :=
  (String.length (userNote r) <=? 300)%nat.

Definition parse_requestType (s : string) : option RequestType :=
  if String.eqb s "borrow" then Some borrow
  else if String.eqb s "download" then Some download
  else None.

Definition BookRequest_findById (id : nat) : M (option BookRequest) :=
  gets (λ s, requests s !! id).

Definition BookRequest_findOne (q : BookRequest → bool)
  : M (option (nat * BookRequest)) :=
  gets (λ s, list_find (λ r, q r = true) (requests s)).

Definition BookRequest_countDocuments (q : BookRequest → bool) : M Z :=
  gets (λ s, Z.of_nat (length (filter (λ r, q r = true) (requests s)))).

Definition BookRequest_save (id : nat) (r : BookRequest) : M unit :=
  if request_validate r
  then modify (set_requests (<[id := r]>))
  else throw ValidationError.

(** [BookRequest.create ({book, user, requestType, userNote, status,
    waitlistPosition})]: the other fields take their schema defaults.
    The request type arrives as the raw string of the request body and
    must be one of the enum's values. *)
Definition new_request (bookId userId : nat) (ty : RequestType) (note : string)
    (st : Status) (pos : option Z) : BookRequest :=
  {| book := bookId; user := userId; requestType := ty; status := st;
     approvedBy := None; approvedAt := None;
     rejectedBy := None; rejectedAt := None; rejectionReason := "";
     issuedBy := None; issuedAt := None; dueDate := None;
     returnedAt := None; returnAcceptedBy := None;
     waitlistPosition := pos; waitlistNotifiedAt := None;
     userNote := trim note |}.

Definition BookRequest_create (bookId userId : nat) (requestType userNote : string)
    (st : Status) (pos : option Z) : M (nat * BookRequest) :=
  match parse_requestType requestType with
  | None => throw ValidationError
  | Some ty =>
      let doc := new_request bookId userId ty userNote st pos in
      if request_validate doc
      then λ s, (set_requests (λ l, l ++ [doc]) s, Ok (length (requests s), doc))
      else throw ValidationError
  end.

Definition set_waitlistPosition (p : option Z) (r : BookRequest) : BookRequest :=
  {| book := book r; user := user r; requestType := requestType r;
     status := status r;
     approvedBy := approvedBy r; approvedAt := approvedAt r;
     rejectedBy := rejectedBy r; rejectedAt := rejectedAt r;
     rejectionReason := rejectionReason r;
     issuedBy := issuedBy r; issuedAt := issuedAt r; dueDate := dueDate r;
     returnedAt := returnedAt r; returnAcceptedBy := returnAcceptedBy r;
     waitlistPosition := p; waitlistNotifiedAt := waitlistNotifiedAt r;
     userNote := userNote r |}.

(** [updateMany (q, { $inc: { waitlistPosition: d } })].  Documents are
    updated one by one in collection order; [$inc] on a [null] field is
    an error of the database, which leaves the earlier updates in place. *)
Fixpoint inc_positions (q : BookRequest → bool) (d : Z) (l : list BookRequest)
  : list BookRequest * option Error :=
  match l with
  | [] => ([], None)
  | r :: rs =>
      if q r then
        match waitlistPosition r with
        | Some p =>
            let '(rs', e) := inc_positions q d rs in
            (set_waitlistPosition (Some (p + d)) r :: rs', e)
        | None => (r :: rs, Some IncNonNumeric)
        end
      else
        let '(rs', e) := inc_positions q d rs in (r :: rs', e)
  end.

Definition BookRequest_updateMany_inc (q : BookRequest → bool) (d : Z) : M unit :=
  λ s, let r := inc_positions q d (requests s) in
       (set_requests (λ _, r.1) s,
        match r.2 with None => Ok tt | Some e => Err e end).

(** [notifyUser]: never throws (its body is inside [try]/[catch]). *)
Definition notifyUser (userId : nat) (ev : string) (requestId : nat) : M unit :=
  modify (set_outbox (λ o, o ++ [mkNotification userId ev requestId])).

(** ** The request service (bookRequest.service.js) *)

Definition is_active (st : Status) : bool :=
  bool_decide (st ∈ [pending; approved; issued; waitlisted]).

(** The filter objects the service passes to the collection. *)
Definition q_active (bookId userId : nat) (r : BookRequest) : bool :=
  bool_decide (book r = bookId) && bool_decide (user r = userId)
  && is_active (status r).

Definition q_waitlisted (bookId : nat) (r : BookRequest) : bool :=
  bool_decide (book r = bookId) && bool_decide (status r = waitlisted).

Definition q_head (bookId : nat) (r : BookRequest) : bool :=
  q_waitlisted bookId r && bool_decide (waitlistPosition r = Some 1).

(** [{ $gt: position }]: a [null] bound, or a [null] field, matches
    nothing. *)
Definition q_behind (bookId : nat) (position : option Z) (r : BookRequest) : bool :=
  q_waitlisted bookId r &&
  match position, waitlistPosition r with
  | Some k, Some p => bool_decide (k < p)
  | _, _ => false
  end.

(** The assignments each function makes before [request.save()]. *)
Definition promoted_doc (now : Z) (r : BookRequest) : BookRequest :=
  {| book := book r; user := user r; requestType := requestType r;
     status := pending;
     approvedBy := approvedBy r; approvedAt := approvedAt r;
     rejectedBy := rejectedBy r; rejectedAt := rejectedAt r;
     rejectionReason := rejectionReason r;
     issuedBy := issuedBy r; issuedAt := issuedAt r; dueDate := dueDate r;
     returnedAt := returnedAt r; returnAcceptedBy := returnAcceptedBy r;
     waitlistPosition := None; waitlistNotifiedAt := Some now;
     userNote := userNote r |}.

Definition cancelled_doc (r : BookRequest) : BookRequest :=
  {| book := book r; user := user r; requestType := requestType r;
     status := cancelled;
     approvedBy := approvedBy r; approvedAt := approvedAt r;
     rejectedBy := rejectedBy r; rejectedAt := rejectedAt r;
     rejectionReason := rejectionReason r;
     issuedBy := issuedBy r; issuedAt := issuedAt r; dueDate := dueDate r;
     returnedAt := returnedAt r; returnAcceptedBy := returnAcceptedBy r;
     waitlistPosition := None; waitlistNotifiedAt := waitlistNotifiedAt r;
     userNote := userNote r |}.

Definition approved_doc (librarianId : nat) (now : Z) (r : BookRequest) : BookRequest :=
  {| book := book r; user := user r; requestType := requestType r;
     status := approved;
     approvedBy := Some librarianId; approvedAt := Some now;
     rejectedBy := rejectedBy r; rejectedAt := rejectedAt r;
     rejectionReason := rejectionReason r;
     issuedBy := issuedBy r; issuedAt := issuedAt r; dueDate := dueDate r;
     returnedAt := returnedAt r; returnAcceptedBy := returnAcceptedBy r;
     waitlistPosition := waitlistPosition r;
     waitlistNotifiedAt := waitlistNotifiedAt r;
     userNote := userNote r |}.

Definition rejected_doc (librarianId : nat) (now : Z) (reason : string)
    (r : BookRequest) : BookRequest :=
  {| book := book r; user := user r; requestType := requestType r;
     status := rejected;
     approvedBy := approvedBy r; approvedAt := approvedAt r;
     rejectedBy := Some librarianId; rejectedAt := Some now;
     rejectionReason :=
       trim (if String.eqb reason "" then "No reason provided" else reason);
     issuedBy := issuedBy r; issuedAt := issuedAt r; dueDate := dueDate r;
     returnedAt := returnedAt r; returnAcceptedBy := returnAcceptedBy r;
     waitlistPosition := waitlistPosition r;
     waitlistNotifiedAt := waitlistNotifiedAt r;
     userNote := userNote r |}.

Definition issued_doc (librarianId : nat) (now due : Z) (r : BookRequest) : BookRequest :=
  {| book := book r; user := user r; requestType := requestType r;
     status := issued;
     approvedBy := approvedBy r; approvedAt := approvedAt r;
     rejectedBy := rejectedBy r; rejectedAt := rejectedAt r;
     rejectionReason := rejectionReason r;
     issuedBy := Some librarianId; issuedAt := Some now; dueDate := Some due;
     returnedAt := returnedAt r; returnAcceptedBy := returnAcceptedBy r;
     waitlistPosition := waitlistPosition r;
     waitlistNotifiedAt := waitlistNotifiedAt r;
     userNote := userNote r |}.

Definition returned_doc (librarianId : nat) (now : Z) (r : BookRequest) : BookRequest :=
  {| book := book r; user := user r; requestType := requestType r;
     status := returned;
     approvedBy := approvedBy r; approvedAt := approvedAt r;
     rejectedBy := rejectedBy r; rejectedAt := rejectedAt r;
     rejectionReason := rejectionReason r;
     issuedBy := issuedBy r; issuedAt := issuedAt r; dueDate := dueDate r;
     returnedAt := Some now; returnAcceptedBy := Some librarianId;
     waitlistPosition := waitlistPosition r;
     waitlistNotifiedAt := waitlistNotifiedAt r;
     userNote := userNote r |}.

(** [promoteWaitlist (bookId)].  [now] is the value of [new Date()].  The
    populated book is dereferenced only when the message is built, after
    both writes. *)
Definition promoteWaitlist (bookId : nat) (now : Z) : M unit :=
  let! nextInLine := BookRequest_findOne (q_head bookId) in
  match nextInLine with
  | None => ret tt
  | Some (id, nextInLine) =>
      let! populated := Book_findById (book nextInLine) in
      BookRequest_save id (promoted_doc now nextInLine) ;;;
      BookRequest_updateMany_inc (q_waitlisted bookId) (-1) ;;;
      match populated with
      | None => throw TypeError
      | Some _ => notifyUser (user nextInLine) "library:waitlist_available" id
      end
  end.

(** [createRequest (userId, { bookId, requestType, userNote })]; returns
    the new document with its [_id]. *)
Definition createRequest (userId bookId : nat) (requestType userNote : string)
  : M (nat * BookRequest) :=
  let! found := Book_findById bookId in
  match found with
  | None => throw BookNotFound
  | Some bk =>
      if negb (isActive bk) then throw BookUnavailable
      else if String.eqb requestType "borrow" && bool_decide (bookType bk = digital)
      then throw DigitalOnly
      else if String.eqb requestType "download" && bool_decide (bookType bk = physical)
      then throw PhysicalOnly
      else if String.eqb requestType "download" && String.eqb (digital_fileUrl bk) ""
      then throw FileNotAvailable
      else
        let! existingRequest := BookRequest_findOne (q_active bookId userId) in
        match existingRequest with
        | Some (_, ex) => throw (DuplicateActive (status ex))
        | None =>
            if String.eqb requestType "download"
            then BookRequest_create bookId userId requestType userNote pending None
            else
              let isAvailable := 0 <? physical_availableCopies bk in
              if isAvailable
              then BookRequest_create bookId userId requestType userNote pending None
              else
                let! waitlistCount :=
                  BookRequest_countDocuments (q_waitlisted bookId) in
                BookRequest_create bookId userId requestType userNote
                  waitlisted (Some (waitlistCount + 1))
        end
  end.

(** [cancelRequest (userId, requestId)] *)
Definition cancelRequest (userId requestId : nat) : M unit :=
  let! found := BookRequest_findById requestId in
  match found with
  | None => throw RequestNotFound
  | Some request =>
      if negb (bool_decide (user request = userId)) then throw NotAuthorized
      else if negb (bool_decide (status request ∈ [pending; waitlisted]))
      then throw (CannotCancel (status request))
      else
        let wasWaitlisted := bool_decide (status request = waitlisted) in
        let position := waitlistPosition request in
        let bookId := book request in
        BookRequest_save requestId (cancelled_doc request) ;;;
        if wasWaitlisted
        then BookRequest_updateMany_inc (q_behind bookId position) (-1)
        else ret tt
  end.

(** [approveRequest (librarianId, requestId)] *)
Definition approveRequest (librarianId requestId : nat) (now : Z) : M BookRequest :=
  let! found := BookRequest_findById requestId in
  match found with
  | None => throw RequestNotFound
  | Some request =>
      let! populated := Book_findById (book request) in
      if negb (bool_decide (status request = pending))
      then throw (CannotApprove (status request))
      else
        let request' := approved_doc librarianId now request in
        BookRequest_save requestId request' ;;;
        match populated with
        | None => throw TypeError
        | Some _ =>
            notifyUser (user request) "library:request_approved" requestId ;;;
            ret request'
        end
  end.

(** [rejectRequest (librarianId, requestId, rejectionReason)] *)
Definition rejectRequest (librarianId requestId : nat) (rejectionReason : string)
    (now : Z) : M BookRequest :=
  let! found := BookRequest_findById requestId in
  match found with
  | None => throw RequestNotFound
  | Some request =>
      let! populated := Book_findById (book request) in
      if negb (bool_decide (status request ∈ [pending; approved]))
      then throw (CannotReject (status request))
      else
        let request' := rejected_doc librarianId now rejectionReason request in
        BookRequest_save requestId request' ;;;
        match populated with
        | None => throw TypeError
        | Some _ =>
            notifyUser (user request) "library:request_rejected" requestId ;;;
            ret request'
        end
  end.

Definition ms_per_day : Z := 24 * 60 * 60 * 1000.

(** The time values of a Date: at most 8.64e15 ms from the epoch.
    [new Date (t)] with [t] outside is an invalid date, which the
    [Date] fields of a schema do not accept. *)
Definition max_time : Z := 8640000000000000.

Definition valid_time (t : Z) : bool := Z.abs t <=? max_time.

(** Up to this magnitude the integers are Numbers, and a sum or a
    difference of two of them that stays within it is exact. *)
Definition max_exact : Z := 2 ^ 53.

(** [n + 1] and [n - 1] on a Number that holds an integer.  Up to 2^53
    the result is exact.  From 2^53 to 2^54 the Numbers are the even
    integers: [n + 1] and [n - 1] lie halfway between two of them and
    are rounded to the one with the even significand, [n / 2] or its
    neighbour.  From 2^54 on the Numbers are 4 or more apart and the
    result is [n]. *)
Definition add1_nonneg (n : Z) : Z :=
  if n <? max_exact then n + 1
  else if n <? 2 * max_exact then (if Z.even (n / 2) then n else n + 2)
  else n.

Definition sub1_pos (n : Z) : Z :=
  if n <=? max_exact then n - 1
  else if n <? 2 * max_exact then (if Z.even (n / 2) then n else n - 2)
  else n.

Definition js_add1 (n : Z) : Z :=
  if 0 <=? n then add1_nonneg n else - sub1_pos (- n).

Definition js_sub1 (n : Z) : Z :=
  if 1 <=? n then sub1_pos n else - add1_nonneg (- n).

(** [issueBook (librarianId, requestId)]; [now] is [issuedAt], a
    reading of the clock.  The loan period is [null * 86400000 = 0]
    for a book without one.  A due date that is no date makes
    [request.save ()] fail, after [book.save ()]. *)
Definition issueBook (librarianId requestId : nat) (now : Z) : M BookRequest :=
  let! found := BookRequest_findById requestId in
  match found with
  | None => throw RequestNotFound
  | Some request =>
      let! populated := Book_findById (book request) in
      if negb (bool_decide (status request = approved)) then throw IssueNotApproved
      else if negb (bool_decide (requestType request = borrow))
      then throw IssueOnlyBorrow
      else
        match populated with
        | None => throw TypeError
        | Some _ =>
            let! reloaded := Book_findById (book request) in
            match reloaded with
            | None => throw TypeError
            | Some bk =>
                if physical_availableCopies bk <? 1 then throw NoCopiesToIssue
                else
                  Book_save (book request)
                    (set_availableCopies
                       (js_sub1 (physical_availableCopies bk)) bk) ;;;
                  let issuedAt := now in
                  let dueDate :=
                    issuedAt + default 0 (borrowDurationDays bk) * ms_per_day in
                  let request' := issued_doc librarianId issuedAt dueDate request in
                  (if valid_time dueDate
                   then BookRequest_save requestId request'
                   else throw ValidationError) ;;;
                  notifyUser (user request) "library:book_issued" requestId ;;;
                  ret request'
            end
        end
  end.

(** [returnBook (librarianId, requestId)]; [now] is [returnedAt] and
    [now'] the later reading of the clock inside [promoteWaitlist]. *)
Definition returnBook (librarianId requestId : nat) (now now' : Z) : M BookRequest :=
  let! found := BookRequest_findById requestId in
  match found with
  | None => throw RequestNotFound
  | Some request =>
      let! populated := Book_findById (book request) in
      if negb (bool_decide (status request = issued)) then throw ReturnNotIssued
      else
        match populated with
        | None => throw TypeError
        | Some _ =>
            let! reloaded := Book_findById (book request) in
            match reloaded with
            | None => throw TypeError
            | Some bk =>
                Book_save (book request)
                  (set_availableCopies
                     (js_add1 (physical_availableCopies bk)) bk) ;;;
                let request' := returned_doc librarianId now request in
                BookRequest_save requestId request' ;;;
                promoteWaitlist (book request) now' ;;;
                ret request'
            end
        end
  end.

(** ** The catalogue update (book.service.js)

    [updateBook (bookId, updateData)]: a key of [updateData] that is
    [undefined] is [None]; [physical] and [digital] are merged into the
    book with [Object.assign].  [borrowDurationDays: null] is stored as
    it is: [null !== undefined]. *)
Record PhysicalUpdate := mkPhysicalUpdate {
  u_totalCopies : option Z;
  u_availableCopies : option Z
}.

Record BookUpdate := mkBookUpdate {
  u_bookType : option BookType;
  u_borrowDurationDays : option (option Z);
  u_isActive : option bool;
  u_physical : option PhysicalUpdate;
  u_fileUrl : option string
}.

Definition apply_update (upd : BookUpdate) (b : Book) : Book :=
  {| bookType := default (bookType b) (u_bookType upd);
     physical_totalCopies :=
       default (physical_totalCopies b) (u_physical upd ≫= u_totalCopies);
     physical_availableCopies :=
       default (physical_availableCopies b) (u_physical upd ≫= u_availableCopies);
     digital_fileUrl := default (digital_fileUrl b) (u_fileUrl upd);
     borrowDurationDays := default (borrowDurationDays b) (u_borrowDurationDays upd);
     isActive := default (isActive b) (u_isActive upd) |}.

Definition updateBook (bookId : nat) (updateData : BookUpdate) : M Book :=
  let! found := Book_findById bookId in
  match found with
  | None => throw BookNotFound
  | Some bk =>
      let bk' := apply_update updateData bk in
      Book_save bookId bk' ;;;
      ret (book_pre_save bk')
  end.

(** ** Calls and reachable stores *)

Inductive Action :=
  | CreateRequest (userId bookId : nat) (requestType userNote : string)
  | CancelRequest (userId requestId : nat)
  | ApproveRequest (librarianId requestId : nat) (now : Z)
  | RejectRequest (librarianId requestId : nat) (rejectionReason : string) (now : Z)
  | IssueBook (librarianId requestId : nat) (now : Z)
  | ReturnBook (librarianId requestId : nat) (now now' : Z)
  | UpdateBook (bookId : nat) (updateData : BookUpdate).

(** The store after a call, whether it returned or threw. *)
Definition exec (a : Action) (s : Store) : Store :=
  match a with
  | CreateRequest u b ty note => after (createRequest u b ty note) s
  | CancelRequest u i => after (cancelRequest u i) s
  | ApproveRequest l i now => after (approveRequest l i now) s
  | RejectRequest l i why now => after (rejectRequest l i why now) s
  | IssueBook l i now => after (issueBook l i now) s
  | ReturnBook l i now now' => after (returnBook l i now now') s
  | UpdateBook b upd => after (updateBook b upd) s
  end.

Definition run (trace : list Action) (s : Store) : Store :=
  foldl (λ s a, exec a s) s trace.

Inductive Reachable (s0 : Store) : Store → Prop :=
  | reach_init : Reachable s0 s0
  | reach_step s a : Reachable s0 s → Reachable s0 (exec a s).

(** ** Invariants *)

(** [0 ≤ availableCopies ≤ totalCopies] for every book. *)
Definition copies_in_bounds (s : Store) : Prop :=
  ∀ id b, books s !! id = Some b →
    0 ≤ physical_availableCopies b ≤ physical_totalCopies b.

(** The waitlist of a book, in collection order, and its positions. *)
Definition waitlist (l : list BookRequest) (bookId : nat) : list BookRequest :=
  filter (λ r, q_waitlisted bookId r = true) l.

Definition positions (l : list BookRequest) (bookId : nat) : list (option Z) :=
  waitlistPosition <$> waitlist l bookId.

(** The positions on a book's waitlist are exactly 1, ..., N, where N
    is the number of waitlisted requests for the book. *)
Definition contiguous (l : list BookRequest) (bookId : nat) : Prop :=
  ∀ p : option Z,
    p ∈ positions l bookId ↔
    ∃ n : nat, p = Some (Z.of_nat n) ∧ (1 ≤ n ≤ length (waitlist l bookId))%nat.

Definition waitlist_contiguous (s : Store) : Prop :=
  ∀ bookId, contiguous (requests s) bookId.

(** At most one request per (book, user) is pending, approved, issued or
    waitlisted. *)
Definition one_active_per_pair (l : list BookRequest) : Prop :=
  ∀ i j r1 r2,
    l !! i = Some r1 → l !! j = Some r2 →
    book r1 = book r2 → user r1 = user r2 →
    is_active (status r1) = true → is_active (status r2) = true →
    i = j.

(** A position is present only while the request is waitlisted. *)
Definition positions_only_waitlisted (l : list BookRequest) : Prop :=
  ∀ i r, l !! i = Some r → status r ≠ waitlisted → waitlistPosition r = None.

(** Every issued request is a borrow. *)
Definition issued_are_borrows (l : list BookRequest) : Prop :=
  ∀ i r, l !! i = Some r → status r = issued → requestType r = borrow.

(** The same invariant as a list property: the positions are pairwise
    distinct numbers between 1 and their count. *)
Definition contig (ps : list (option Z)) : Prop :=
  NoDup ps ∧ ∀ p, p ∈ ps → ∃ z, p = Some z ∧ 1 ≤ z ≤ Z.of_nat (length ps).

(** What leaving position [k] does to another position. *)
Definition move_up (k : Z) (p : option Z) : option Z :=
  match p with
  | Some z => Some (if bool_decide (k < z) then z - 1 else z)
  | None => None
  end.

(** ** What the calls do to the request collection

    Every write of the service is one of five kinds; [promote_list] and
    [dequeue_list] are the two that renumber the waitlist. *)

Definition shift (q : BookRequest → bool) (d : Z) (r : BookRequest) : BookRequest :=
  if q r then
    match waitlistPosition r with
    | Some p => set_waitlistPosition (Some (p + d)) r
    | None => r
    end
  else r.

Definition promote_list (bookId : nat) (now : Z) (l : list BookRequest)
  : list BookRequest :=
  match list_find (λ r, q_head bookId r = true) l with
  | None => l
  | Some (i, r) =>
      if request_validate (promoted_doc now r)
      then (inc_positions (q_waitlisted bookId) (-1) (<[i := promoted_doc now r]> l)).1
      else l
  end.

Definition dequeue_list (i : nat) (r : BookRequest) (l : list BookRequest)
  : list BookRequest :=
  (inc_positions (q_behind (book r) (waitlistPosition r)) (-1)
     (<[i := cancelled_doc r]> l)).1.

Definition same_ref (r r' : BookRequest) : Prop :=
  book r' = book r ∧ user r' = user r ∧ requestType r' = requestType r
  ∧ userNote r' = userNote r.

Definition no_active (l : list BookRequest) (bookId userId : nat) : Prop :=
  ∀ i r, l !! i = Some r → q_active bookId userId r = false.

(** [issuing] tells whether the write may make a request issued,
    [creating] whether it may add a request. *)
Inductive req_prim (issuing creating : bool)
  : list BookRequest → list BookRequest → Prop :=
  | prim_update l i r r' :
      l !! i = Some r → same_ref r r' →
      is_active (status r) = true →
      status r ≠ waitlisted → status r' ≠ waitlisted →
      (waitlistPosition r = None → waitlistPosition r' = None) →
      (status r' = issued → issuing = true ∧ requestType r = borrow) →
      req_prim issuing creating l (<[i := r']> l)
  | prim_dequeue l i r :
      l !! i = Some r → status r = waitlisted →
      req_prim issuing creating l (dequeue_list i r l)
  | prim_promote l bookId now :
      req_prim issuing creating l (promote_list bookId now l)
  | prim_create l r :
      creating = true → request_validate r = true →
      status r = pending → waitlistPosition r = None →
      no_active l (book r) (user r) →
      req_prim issuing creating l (l ++ [r])
  | prim_enqueue l r :
      creating = true → request_validate r = true →
      status r = waitlisted →
      waitlistPosition r = Some (Z.of_nat (length (waitlist l (book r))) + 1) →
      no_active l (book r) (user r) →
      req_prim issuing creating l (l ++ [r]).

(** Only [issueBook] makes a request issued, and only [createRequest]
    adds one. *)
Definition is_issue (a : Action) : bool :=
  match a with IssueBook _ _ _ => true | _ => false end.

Definition is_create (a : Action) : bool :=
  match a with CreateRequest _ _ _ _ => true | _ => false end.

(** A collection [l'] holds the same requests as [l], each possibly
    further along its life cycle: no request became active again, and
    none became issued that was not a borrow. *)
Definition evolves (l l' : list BookRequest) : Prop :=
  length l' = length l ∧
  ∀ j r', l' !! j = Some r' →
    ∃ r, l !! j = Some r ∧ same_ref r r'
         ∧ (is_active (status r') = true → is_active (status r) = true)
         ∧ (status r' = issued → status r = issued ∨ requestType r = borrow).

(** Writes to the book collection go through [Book_save]. *)
Inductive book_prim : gmap nat Book → gmap nat Book → Prop :=
  | prim_same m : book_prim m m
  | prim_save m id b :
      book_validate b = true → book_prim m (<[id := book_pre_save b]> m).

(** ** Standing assumptions on stored documents *)

(** Every stored request passes the validators of its schema. *)
Definition requests_valid (l : list BookRequest) : Prop :=
  ∀ i x, l !! i = Some x → request_validate x = true.

(** The error of the type and file guards of [createRequest], if one
    fires. *)
Definition type_guard (bk : Book) (requestType : string) : option Error :=
  if String.eqb requestType "borrow" && bool_decide (bookType bk = digital)
  then Some DigitalOnly
  else if String.eqb requestType "download" && bool_decide (bookType bk = physical)
  then Some PhysicalOnly
  else if String.eqb requestType "download" && String.eqb (digital_fileUrl bk) ""
  then Some FileNotAvailable
  else None.

(** The assumptions the functional properties below make on a store:
    stored documents pass their validators, positions sit on waitlisted
    requests only, and every request names a book of the catalogue. *)
Definition store_wf (s : Store) : Prop :=
  requests_valid (requests s)
  ∧ positions_only_waitlisted (requests s)
  ∧ (∀ id b, books s !! id = Some b → book_validate b = true)
  ∧ (∀ i r, requests s !! i = Some r → is_Some (books s !! book r)).

(** ** Example stores

    One physical book with a single copy, and the calls of a small
    scenario: user 1 borrows and is issued the copy, users 2 and 3 queue
    up, user 2 cancels, the copy comes back. *)

Definition one_copy : Book :=
  {| bookType := physical;
     physical_totalCopies := 1; physical_availableCopies := 1;
     digital_fileUrl := ""; borrowDurationDays := Some 14; isActive := true |}.

Definition library : Store :=
  {| books := {[ 0%nat := one_copy ]}; requests := []; outbox := [] |}.

Definition lend_out : list Action :=
  [ CreateRequest 1 0 "borrow" ""; ApproveRequest 9 0 100; IssueBook 9 0 200 ].

Definition queue_up : list Action :=
  lend_out ++ [ CreateRequest 2 0 "borrow" ""; CreateRequest 3 0 "borrow" "" ].

Definition scenario : list Action :=
  queue_up ++ [ CancelRequest 2 1; ReturnBook 9 0 300 301 ].

(** The librarian puts the available count back to 1 in the catalogue
    while the only copy is still out. *)
Definition recount : list Action :=
  lend_out ++
  [ UpdateBook 0
      {| u_bookType := None; u_borrowDurationDays := None; u_isActive := None;
         u_physical := Some {| u_totalCopies := None;
                               u_availableCopies := Some 1 |};
         u_fileUrl := None |} ].

(** The book is deactivated while user 1 has a pending request on it. *)
Definition deactivate : list Action :=
  [ CreateRequest 1 0 "borrow" "";
    UpdateBook 0
      {| u_bookType := None; u_borrowDurationDays := None;
         u_isActive := Some false; u_physical := None; u_fileUrl := None |} ].


(** The catalogue shows 2^53 available copies of 2^53 + 2. *)
Definition many_copies : BookUpdate :=
  {| u_bookType := None; u_borrowDurationDays := None; u_isActive := None;
     u_physical := Some {| u_totalCopies := Some (2 ^ 53 + 2);
                           u_availableCopies := Some (2 ^ 53) |};
     u_fileUrl := None |}.

(** The book is turned into a digital-only title; its copy count stays. *)
Definition digitise : list Action :=
  [ UpdateBook 0
      {| u_bookType := Some digital; u_borrowDurationDays := None;
         u_isActive := None; u_physical := None; u_fileUrl := Some "file.pdf" |} ].

(** ** How a stored request may change

    The changes a single call can make to one request document. *)
Inductive doc_change : BookRequest → BookRequest → Prop :=
  | dc_same r : doc_change r r
  | dc_move_up r p :
      status r = waitlisted → waitlistPosition r = Some p →
      doc_change r (set_waitlistPosition (Some (p - 1)) r)
  | dc_promote r now :
      status r = waitlisted → waitlistPosition r = Some 1 →
      doc_change r (promoted_doc now r)
  | dc_cancel r :
      status r = pending ∨ status r = waitlisted →
      doc_change r (cancelled_doc r)
  | dc_approve r librarianId now :
      status r = pending → doc_change r (approved_doc librarianId now r)
  | dc_reject r librarianId now why :
      status r = pending ∨ status r = approved →
      doc_change r (rejected_doc librarianId now why r)
  | dc_issue r librarianId now due :
      status r = approved → requestType r = borrow →
      now ≤ due → valid_time due = true →
      doc_change r (issued_doc librarianId now due r)
  | dc_return r librarianId now :
      status r = issued → doc_change r (returned_doc librarianId now r).

(** The book a call is about: the one it names, or the one of the
    request it names. *)
Definition touched_book (a : Action) (s : Store) : option nat :=
  match a with
  | CreateRequest _ b _ _ | UpdateBook b _ => Some b
  | CancelRequest _ i | ApproveRequest _ i _ | RejectRequest _ i _ _
  | IssueBook _ i _ | ReturnBook _ i _ _ => book <$> requests s !! i
  end.

(** The edges of the life cycle. *)
Definition transition (st st' : Status) : bool :=
  match st, st' with
  | pending, approved | pending, rejected | pending, cancelled
  | approved, rejected | approved, issued
  | issued, returned
  | waitlisted, pending | waitlisted, cancelled => true
  | _, _ => false
  end.

(** What is at index [k] after a call was there before, and differs by
    at most one [doc_change], which only a request of the touched book
    undergoes. *)
Definition kept (b : option nat) (l : list BookRequest) (k : nat)
    (r' : BookRequest) : Prop :=
  ∃ r, l !! k = Some r ∧ doc_change r r' ∧ (r' ≠ r → b = Some (book r)).

(** The audit trail of a request: who approved, rejected, issued and
    took back, when, and a due date only on requests that were issued. *)
Definition audit_ok (r : BookRequest) : Prop :=
  (status r = approved ∨ status r = issued ∨ status r = returned →
   is_Some (approvedBy r) ∧ is_Some (approvedAt r))
  ∧ (status r = rejected → is_Some (rejectedBy r) ∧ is_Some (rejectedAt r))
  ∧ (status r = issued ∨ status r = returned →
     is_Some (issuedBy r)
     ∧ ∃ t d, issuedAt r = Some t ∧ dueDate r = Some d
              ∧ t ≤ d ∧ valid_time d = true)
  ∧ (status r = returned →
     is_Some (returnedAt r) ∧ is_Some (returnAcceptedBy r))
  ∧ (is_Some (dueDate r) → status r = issued ∨ status r = returned).

Global Instance BookRequest_eq_dec : EqDecision BookRequest.
Proof. solve_decision. Defined.

(** The error a call throws, if it throws. *)
Definition thrown {A} (r : result A) : option Error :=
  match r with Ok _ => None | Err e => Some e end.

Definition exec_error (a : Action) (s : Store) : option Error :=
  match a with
  | CreateRequest u b ty note => thrown (outcome (createRequest u b ty note) s)
  | CancelRequest u i => thrown (outcome (cancelRequest u i) s)
  | ApproveRequest l i now => thrown (outcome (approveRequest l i now) s)
  | RejectRequest l i why now => thrown (outcome (rejectRequest l i why now) s)
  | IssueBook l i now => thrown (outcome (issueBook l i now) s)
  | ReturnBook l i now now' => thrown (outcome (returnBook l i now now') s)
  | UpdateBook b upd => thrown (outcome (updateBook b upd) s)
  end.

(** Two books, for properties about calls on different books. *)
Definition two_books : Store :=
  {| books := {[ 0%nat := one_copy; 1%nat := one_copy ]};
     requests := []; outbox := [] |}.

Definition two_queues : list Action :=
  [ CreateRequest 1 0 "borrow" ""; CreateRequest 1 1 "borrow" "";
    ApproveRequest 9 0 100; IssueBook 9 0 200;
    CreateRequest 2 0 "borrow" ""; CreateRequest 2 1 "borrow" "" ].

(** The waitlist of a book, read in the order the requests were
    created, is numbered 1, 2, ..., N. *)
Definition in_order (l : list BookRequest) (bookId : nat) : Prop :=
  positions l bookId
  = Some <$> seqZ 1 (Z.of_nat (length (positions l bookId))).

Definition waitlist_in_order (s : Store) : Prop :=
  ∀ bookId, in_order (requests s) bookId.

(** ** [getWaitlist] *)

(** The order of [sort({ waitlistPosition: 1 })]: ascending, [null]
    before every number. *)
Definition position_le (p q : option Z) : Prop :=
  match p, q with
  | None, _ => True
  | Some _, None => False
  | Some a, Some b => a ≤ b
  end.

Global Instance position_le_dec : RelDecision position_le.
Proof. intros [a|] [b|]; simpl; apply _. Defined.

Definition by_position (x y : BookRequest) : Prop :=
  position_le (waitlistPosition x) (waitlistPosition y).

Global Instance by_position_dec : RelDecision by_position.
Proof. intros x y. unfold by_position. apply _. Defined.

(** [.select("title author physical")]: of the fields of [Book], the
    two counts. *)
Definition select_physical (b : Book) : Z * Z :=
  (physical_totalCopies b, physical_availableCopies b).

(** [getWaitlist]: the selected fields of the book, and its waitlisted
    requests sorted by position.  Requests at the same position, which
    the database may return in either order, stay in collection order
    here. *)
Definition getWaitlist (bookId : nat) : M ((Z * Z) * list BookRequest) :=
  let! book := Book_findById bookId in
  match book with
  | None => throw BookNotFound
  | Some book =>
      let! l := gets requests in
      ret (select_physical book, merge_sort by_position (waitlist l bookId))
  end.


(** ** Notifications *)

(** The event a call emits when it notifies, with the status the
    request named in the notification then has. *)
Definition announced (a : Action) : option (string * Status) :=
  match a with
  | ApproveRequest _ _ _ => Some ("library:request_approved", approved)
  | RejectRequest _ _ _ _ => Some ("library:request_rejected", rejected)
  | IssueBook _ _ _ => Some ("library:book_issued", issued)
  | ReturnBook _ _ _ _ => Some ("library:waitlist_available", pending)
  | CreateRequest _ _ _ _ | CancelRequest _ _ | UpdateBook _ _ => None
  end.

(** The statuses a request can have once an event was emitted about
    it. *)
Definition event_fits (ev : string) (st : Status) : bool :=
  if String.eqb ev "library:request_approved"
  then bool_decide (st ∈ [approved; rejected; issued; returned])
  else if String.eqb ev "library:request_rejected"
  then bool_decide (st = rejected)
  else if String.eqb ev "library:book_issued"
  then bool_decide (st ∈ [issued; returned])
  else if String.eqb ev "library:waitlist_available"
  then negb (bool_decide (st = waitlisted))
  else false.

(** A notification names a stored request, goes to the user of that
    request, and its event fits the status of the request. *)
Definition addressed (s : Store) (n : Notification) : Prop :=
  ∃ r, requests s !! about n = Some r
       ∧ recipient n = user r
       ∧ event_fits (event n) (status r) = true.

Definition outbox_ok (s : Store) : Prop :=
  ∀ n, n ∈ outbox s → addressed s n.


(** ** [deleteBook] (book.service.js)

    The errors of [deleteBook]: "Book not found" (404), "Cannot delete
    book with active borrow requests. Deactivate it instead." (400),
    and whatever the image host throws while the cover and the file
    are removed there. *)
Inductive DeleteError :=
  | DeleteBookNotFound
  | ActiveRequestsExist
  | CleanupFailed.

(** [{ book: bookId, status: { $in: [pending, approved, issued,
    waitlisted] } }] *)
Definition q_active_of (bookId : nat) (r : BookRequest) : bool :=
  bool_decide (book r = bookId) && is_active (status r).

(** [deleteBook (bookId)].  [cleanup] tells whether the calls to the
    image host, if the book has a cover or a file there, return; they
    come before [book.deleteOne ()]. *)
Definition deleteBook (bookId : nat) (cleanup : bool) (s : Store)
  : Store * option DeleteError :=
  match books s !! bookId with
  | None => (s, Some DeleteBookNotFound)
  | Some _ =>
      let activeRequests :=
        Z.of_nat (length (filter (λ r, q_active_of bookId r = true) (requests s))) in
      if 0 <? activeRequests then (s, Some ActiveRequestsExist)
      else if cleanup then (set_books (delete bookId) s, None)
      else (s, Some CleanupFailed)
  end.

(** The calls of the request service and of the catalogue, with
    deletion. *)
Inductive Call :=
  | Service (a : Action)
  | DeleteBook (bookId : nat) (cleanup : bool).

Definition exec_call (c : Call) (s : Store) : Store :=
  match c with
  | Service a => exec a s
  | DeleteBook bookId cleanup => (deleteBook bookId cleanup s).1
  end.

Inductive Reachable_calls (s0 : Store) : Store → Prop :=
  | reach_calls_init : Reachable_calls s0 s0
  | reach_calls_step s c :
      Reachable_calls s0 s → Reachable_calls s0 (exec_call c s).

(** Every request that is pending, approved, issued or waitlisted
    names a book of the catalogue. *)
Definition active_have_books (s : Store) : Prop :=
  ∀ i r, requests s !! i = Some r → is_active (status r) = true →
         is_Some (books s !! book r).


(** The virtual [isOverdue] of a request (bookRequest.model.js), read
    when the clock shows [now]. *)
Definition isOverdue (now : Z) (r : BookRequest) : bool :=
  if negb (bool_decide (status r = issued)) then false
  else match dueDate r with
       | None => false
       | Some due => now >? due
       end.


(** The virtual [isAvailable] of a book (book.model.js). *)
Definition isAvailable (b : Book) : bool :=
  if bool_decide (bookType b = digital) then true
  else 0 <? physical_availableCopies b.


(** * Properties *)

(** ** [updateMany] with [$inc] *)

Lemma inc_positions_length q d l :
  length (inc_positions q d l).1 = length l.
Proof.
  induction l as [|r rs IH]; [done|]; simpl.
  destruct (q r); [destruct (waitlistPosition r)|];
    try destruct (inc_positions q d rs); simpl in *; congruence.
Qed.

Lemma inc_positions_lookup q d l i r' :
  (inc_positions q d l).1 !! i = Some r' →
  ∃ r, l !! i = Some r ∧
       (r' = r ∨ ∃ p, q r = true ∧ waitlistPosition r = Some p
                      ∧ r' = set_waitlistPosition (Some (p + d)) r).
Proof.
  revert i; induction l as [|r rs IH]; intros i; [done|]; simpl.
  destruct (q r) eqn:Hq; [destruct (waitlistPosition r) as [p|] eqn:Hp|].
  - destruct (inc_positions q d rs) as [rs' e]; simpl in *.
    destruct i as [|i]; simpl.
    + intros [= <-]. exists r. split; [done|]. right. by exists p.
    + apply IH.
  - simpl. intros H. exists r'. by split; [|left].
  - destruct (inc_positions q d rs) as [rs' e]; simpl in *.
    destruct i as [|i]; simpl.
    + intros [= <-]. exists r. by split; [|left].
    + apply IH.
Qed.

Lemma inc_positions_total q d l :
  (∀ r, r ∈ l → q r = true → is_Some (waitlistPosition r)) →
  inc_positions q d l = (shift q d <$> l, None).
Proof.
  induction l as [|r rs IH]; intros Hall; [done|].
  rewrite fmap_cons. cbn [inc_positions].
  rewrite IH by (intros r0 ?; apply Hall; by right).
  unfold shift at 3.
  destruct (q r) eqn:Hq; [|done].
  destruct (Hall r) as [p Hp]; [by left|done|]. by rewrite Hp.
Qed.

(** ** Contiguous position lists *)

Lemma contig_perm ps :
  contig ps ↔ ps ≡ₚ Some <$> seqZ 1 (Z.of_nat (length ps)).
Proof.
  assert (Hnd : NoDup (Some <$> seqZ 1 (Z.of_nat (length ps)) : list (option Z))).
  { apply (NoDup_fmap_2 _), NoDup_seqZ. }
  split.
  - intros [Hps Hrange].
    apply submseteq_length_Permutation.
    + apply NoDup_submseteq; [done|].
      intros p [z [-> Hz]]%Hrange.
      apply list_elem_of_fmap_2, elem_of_seqZ. lia.
    + rewrite length_fmap, length_seqZ. lia.
  - intros Hperm. split.
    + by rewrite Hperm.
    + intros p Hp. rewrite Hperm in Hp.
      apply list_elem_of_fmap in Hp as (z & -> & Hz%elem_of_seqZ).
      exists z. split; [done|lia].
Qed.

Lemma contiguous_contig l bookId :
  contiguous l bookId ↔ contig (positions l bookId).
Proof.
  unfold contiguous.
  assert (Hlen : length (waitlist l bookId) = length (positions l bookId)).
  { unfold positions. by rewrite length_fmap. }
  rewrite Hlen. set (ps := positions l bookId). clearbody ps. clear Hlen.
  split.
  - intros Hset. apply contig_perm. symmetry.
    apply submseteq_length_Permutation.
    + apply NoDup_submseteq; [apply (NoDup_fmap_2 _), NoDup_seqZ|].
      intros p (z & -> & Hz%elem_of_seqZ)%list_elem_of_fmap.
      apply Hset. exists (Z.to_nat z). split; [f_equal|]; lia.
    + rewrite length_fmap, length_seqZ. lia.
  - intros Hc p. pose proof Hc as Hperm%contig_perm. split.
    + intros (z & -> & Hz)%Hc. exists (Z.to_nat z). split; [f_equal|]; lia.
    + intros (n & -> & Hn). rewrite Hperm.
      apply list_elem_of_fmap_2, elem_of_seqZ. lia.
Qed.

Lemma contig_nil : contig [].
Proof. split; [constructor|]. by intros p ?%elem_of_nil. Qed.

(** Enqueue: the next position is the count plus one. *)
Lemma contig_snoc ps :
  contig ps → contig (ps ++ [Some (Z.of_nat (length ps) + 1)]).
Proof.
  intros [Hnd Hrange]. split.
  - apply NoDup_app. split_and!; [done| |apply NoDup_singleton].
    intros p [z [-> Hz]]%Hrange [= ->]%list_elem_of_singleton. lia.
  - intros p. rewrite length_app, elem_of_app, list_elem_of_singleton. simpl.
    intros [[z [-> Hz]]%Hrange | ->]; eexists; (split; [done|lia]).
Qed.

(** Dequeue and promotion: the entry at position [k] leaves and every
    position behind it moves up by one. *)
Lemma contig_others A B k p :
  contig (A ++ Some k :: B) → p ∈ A ++ B →
  ∃ z, p = Some z ∧ z ≠ k ∧ 1 ≤ z ≤ Z.of_nat (length (A ++ Some k :: B)).
Proof.
  intros [Hnd Hrange] Hp. destruct (Hrange p) as (z & -> & Hz).
  - apply elem_of_app. apply elem_of_app in Hp as [?|?]; [by left|].
    right. by right.
  - exists z. split_and!; [done| |lia..]. intros ->.
    apply NoDup_app in Hnd as (_ & Hdisj & [Hk' _]%NoDup_cons).
    apply elem_of_app in Hp as [?|?]; [|done].
    eapply Hdisj; [done|]. by left.
Qed.

Lemma contig_remove A B k :
  contig (A ++ Some k :: B) → contig (move_up k <$> (A ++ B)).
Proof.
  intros Hc. pose proof (contig_others A B k) as Hin.
  destruct Hc as [Hnd Hrange].
  assert (Hk : 1 ≤ k ≤ Z.of_nat (length (A ++ Some k :: B))).
  { destruct (Hrange (Some k)) as (z & [= <-] & ?); [|done].
    apply elem_of_app. right. by left. }
  assert (Hlen : length (A ++ Some k :: B) = S (length (A ++ B))).
  { rewrite !length_app. simpl. lia. }
  split.
  - apply NoDup_fmap_2_strong.
    + intros p1 p2 Hp1 Hp2.
      destruct (Hin p1) as (z1 & -> & ? & ?); [done..|].
      destruct (Hin p2) as (z2 & -> & ? & ?); [done..|].
      simpl. repeat case_bool_decide; intros [=]; f_equal; lia.
    + apply NoDup_app in Hnd as (? & Hdisj & [_ ?]%NoDup_cons).
      apply NoDup_app. split_and!; [done| |done].
      intros x ? ?. eapply Hdisj; [done|]. by right.
  - intros p (p0 & -> & Hp0)%list_elem_of_fmap.
    destruct (Hin p0) as (z & -> & ? & ?); [done..|].
    rewrite length_fmap. simpl.
    eexists. split; [done|]. case_bool_decide; lia.
Qed.

(** ** Waitlists under the writes of the service *)

Lemma q_waitlisted_true bookId r :
  q_waitlisted bookId r = true ↔ book r = bookId ∧ status r = waitlisted.
Proof.
  unfold q_waitlisted. rewrite andb_true_iff, !bool_decide_eq_true. done.
Qed.

Lemma q_waitlisted_status bookId r :
  status r ≠ waitlisted → q_waitlisted bookId r = false.
Proof.
  intros Hst. destruct (q_waitlisted bookId r) eqn:Hq; [|done].
  by apply q_waitlisted_true in Hq as [_ ?].
Qed.

Lemma waitlist_app l1 l2 bookId :
  waitlist (l1 ++ l2) bookId = waitlist l1 bookId ++ waitlist l2 bookId.
Proof. apply filter_app. Qed.

Lemma waitlist_cons r l bookId :
  waitlist (r :: l) bookId =
  (if q_waitlisted bookId r then [r] else []) ++ waitlist l bookId.
Proof.
  unfold waitlist. rewrite filter_cons.
  destruct (q_waitlisted bookId r); by case_decide.
Qed.

Lemma waitlist_split l i r bookId :
  l !! i = Some r →
  waitlist l bookId =
  waitlist (take i l) bookId
  ++ (if q_waitlisted bookId r then [r] else [])
  ++ waitlist (drop (S i) l) bookId.
Proof.
  intros Hi. rewrite <-(take_drop_middle l i r) at 1 by done.
  by rewrite waitlist_app, waitlist_cons.
Qed.

Lemma waitlist_insert l i r c bookId :
  l !! i = Some r →
  waitlist (<[i := c]> l) bookId =
  waitlist (take i l) bookId
  ++ (if q_waitlisted bookId c then [c] else [])
  ++ waitlist (drop (S i) l) bookId.
Proof.
  intros Hi. rewrite insert_take_drop by (by eapply lookup_lt_Some).
  by rewrite waitlist_app, waitlist_cons.
Qed.

Lemma waitlist_insert_neutral l i r c bookId :
  l !! i = Some r → status r ≠ waitlisted → status c ≠ waitlisted →
  waitlist (<[i := c]> l) bookId = waitlist l bookId.
Proof.
  intros Hi Hr Hc.
  rewrite (waitlist_insert l i r c) by done.
  rewrite (waitlist_split l i r) by done.
  by rewrite !q_waitlisted_status.
Qed.

Lemma q_waitlisted_shift q d bookId r :
  q_waitlisted bookId (shift q d r) = q_waitlisted bookId r.
Proof.
  unfold shift. destruct (q r); [|done]. by destruct (waitlistPosition r).
Qed.

Lemma waitlist_shift q d l bookId :
  waitlist (shift q d <$> l) bookId = shift q d <$> waitlist l bookId.
Proof.
  induction l as [|r l IH]; [done|].
  rewrite fmap_cons, !waitlist_cons, fmap_app, IH, q_waitlisted_shift.
  by destruct (q_waitlisted bookId r).
Qed.

Lemma waitlist_elem l bookId r :
  r ∈ waitlist l bookId ↔ q_waitlisted bookId r = true ∧ r ∈ l.
Proof. unfold waitlist. by rewrite list_elem_of_filter. Qed.

Lemma contig_positions_Some l bookId r :
  contig (positions l bookId) → r ∈ waitlist l bookId →
  ∃ z, waitlistPosition r = Some z.
Proof.
  intros [_ Hrange] Hr.
  destruct (Hrange (waitlistPosition r)) as (z & ? & _); [|by exists z].
  by apply list_elem_of_fmap_2.
Qed.

(** Replacing the waitlisted request [r] by a document [c] that is not
    waitlisted and then moving up, with [$inc], the requests a filter [q]
    selects keeps every waitlist contiguous when [q] selects, among the
    book's waitlist, the positions behind [r]. *)
Lemma requeue_contig l i r c q k :
  l !! i = Some r →
  q_waitlisted (book r) r = true → waitlistPosition r = Some k →
  status c ≠ waitlisted →
  (∀ b, contig (positions l b)) →
  (∀ x, q x = true → q_waitlisted (book r) x = true) →
  (∀ x z, q_waitlisted (book r) x = true → waitlistPosition x = Some z →
          z ≠ k → 1 ≤ z → q x = bool_decide (k < z)) →
  ∀ b, contig (positions (shift q (-1) <$> <[i := c]> l) b).
Proof.
  intros Hi Hr Hk Hc Hall Hq1 Hq2 b.
  specialize (Hall b). unfold positions in *.
  rewrite waitlist_shift, (waitlist_insert l i r c) by done.
  rewrite (waitlist_split l i r) in Hall by done.
  rewrite (q_waitlisted_status _ c) by done. simpl.
  set (WA := waitlist (take i l) b) in *.
  set (WB := waitlist (drop (S i) l) b) in *.
  assert (HW : ∀ x, x ∈ WA ++ WB → q_waitlisted b x = true).
  { intros x [H|H]%elem_of_app; by apply waitlist_elem in H as [? _]. }
  destruct (decide (book r = b)) as [<-|Hne].
  - rewrite Hr in Hall. simpl in Hall.
    rewrite fmap_app, fmap_cons, Hk in Hall.
    replace (waitlistPosition <$> (shift q (-1) <$> WA ++ WB))
      with (move_up k <$> ((waitlistPosition <$> WA) ++ (waitlistPosition <$> WB))).
    { by apply contig_remove. }
    rewrite <-fmap_app, <-!list_fmap_compose.
    apply Forall_fmap_ext, Forall_forall. intros x Hx. simpl.
    destruct (contig_others _ _ _ (waitlistPosition x) Hall)
      as (z & Hz & ? & ? & _).
    { rewrite <-fmap_app. by apply list_elem_of_fmap_2. }
    unfold shift. rewrite Hz. simpl.
    rewrite (Hq2 x z) by auto. by case_bool_decide.
  - assert (q_waitlisted b r = false) as Hrb.
    { destruct (q_waitlisted b r) eqn:E; [|done].
      apply q_waitlisted_true in E as [? _]. done. }
    rewrite Hrb in Hall. simpl in Hall.
    replace (shift q (-1) <$> WA ++ WB) with (WA ++ WB); [done|].
    rewrite <-(list_fmap_id (WA ++ WB)) at 1.
    apply Forall_fmap_ext, Forall_forall. intros x Hx. simpl.
    unfold shift. destruct (q x) eqn:Hqx; [|done].
    apply Hq1, q_waitlisted_true in Hqx as [Hb _].
    apply HW, q_waitlisted_true in Hx as [Hb' _]. congruence.
Qed.

(** ** The five kinds of write *)

Lemma inc_positions_shift_behind bookId k l :
  inc_positions (q_behind bookId k) (-1) l = (shift (q_behind bookId k) (-1) <$> l, None).
Proof.
  apply inc_positions_total. intros r _. unfold q_behind.
  destruct k, (waitlistPosition r); rewrite ?andb_false_r; by eauto.
Qed.

Lemma dequeue_list_shift i r l :
  dequeue_list i r l =
  shift (q_behind (book r) (waitlistPosition r)) (-1) <$> <[i := cancelled_doc r]> l.
Proof. unfold dequeue_list. by rewrite inc_positions_shift_behind. Qed.

Lemma promote_list_shift bookId now l i r :
  contig (positions l bookId) →
  list_find (λ r, q_head bookId r = true) l = Some (i, r) →
  request_validate (promoted_doc now r) = true →
  promote_list bookId now l =
  shift (q_waitlisted bookId) (-1) <$> <[i := promoted_doc now r]> l.
Proof.
  intros Hc Hfind Hval. unfold promote_list. rewrite Hfind, Hval.
  rewrite inc_positions_total; [done|].
  intros x [j Hj]%list_elem_of_lookup Hx.
  apply list_lookup_insert_Some in Hj as [(_ & <- & _) | [_ Hj]].
  { by rewrite q_waitlisted_status in Hx. }
  destruct (contig_positions_Some l bookId x Hc) as [z ->]; [|done].
  apply waitlist_elem. split; [done|]. apply list_elem_of_lookup. eauto.
Qed.

Lemma req_prim_contig f c l l' :
  req_prim f c l l' →
  (∀ b, contig (positions l b)) → ∀ b, contig (positions l' b).
Proof.
  destruct 1 as [l i r r' Hi _ _ Hr Hr' _ _ | l i r Hi Hst | l bookId now
                 | l r _ _ Hst _ _ | l r _ _ Hst Hpos _]; intros Hall b.
  - unfold positions. rewrite (waitlist_insert_neutral l i r) by done. apply Hall.
  - assert (Hq : q_waitlisted (book r) r = true) by by apply q_waitlisted_true.
    destruct (contig_positions_Some l (book r) r (Hall _)) as [k Hk].
    { apply waitlist_elem. split; [done|]. apply list_elem_of_lookup. eauto. }
    rewrite dequeue_list_shift.
    apply (requeue_contig l i r _ _ k); try done.
    + unfold q_behind. by intros x [? _]%andb_true_iff.
    + intros x z Hx Hz _ _. unfold q_behind. by rewrite Hx, Hk, Hz.
  - destruct (list_find (λ r, q_head bookId r = true) l) as [[i r]|] eqn:Hfind;
      [|unfold promote_list; by rewrite Hfind].
    destruct (request_validate (promoted_doc now r)) eqn:Hval;
      [|unfold promote_list; by rewrite Hfind, Hval].
    rewrite (promote_list_shift _ _ _ i r) by done.
    apply list_find_Some in Hfind as (Hi & Hhead & _).
    unfold q_head in Hhead.
    apply andb_true_iff in Hhead as [Hq Hone%bool_decide_eq_true].
    pose proof Hq as [<- _]%q_waitlisted_true.
    apply (requeue_contig l i r _ _ 1); try done.
    intros x z Hx _ ? ?. rewrite Hx. symmetry. apply bool_decide_eq_true. lia.
  - unfold positions. rewrite waitlist_app, waitlist_cons.
    rewrite q_waitlisted_status by (by rewrite Hst). simpl.
    rewrite !app_nil_r. apply Hall.
  - unfold positions. rewrite waitlist_app, waitlist_cons.
    destruct (q_waitlisted b r) eqn:Hq; simpl.
    + apply q_waitlisted_true in Hq as [<- _].
      rewrite fmap_app. simpl. rewrite Hpos.
      replace (length (waitlist l (book r)))
        with (length (waitlistPosition <$> waitlist l (book r)))
        by apply length_fmap.
      apply contig_snoc, Hall.
    + rewrite !app_nil_r. apply Hall.
Qed.

Lemma evolves_refl l : evolves l l.
Proof. split; [done|]. intros j r Hj. exists r. by repeat split; auto. Qed.

Lemma evolves_trans l1 l2 l3 : evolves l1 l2 → evolves l2 l3 → evolves l1 l3.
Proof.
  intros [Hlen1 H1] [Hlen2 H2]. split; [congruence|].
  intros j r3 (r2 & Hj2 & (?&?&?&?) & Ha2 & Hi2)%H2.
  destruct (H1 _ _ Hj2) as (r1 & Hj1 & (?&?&?&?) & Ha1 & Hi1).
  exists r1. repeat split; try congruence; [auto|].
  intros [Hst|Hty]%Hi2; [auto|]. right. congruence.
Qed.

Lemma evolves_insert l i r r' :
  l !! i = Some r → same_ref r r' →
  (is_active (status r') = true → is_active (status r) = true) →
  (status r' = issued → status r = issued ∨ requestType r = borrow) →
  evolves l (<[i := r']> l).
Proof.
  intros Hi Href Hact Hiss. split; [apply length_insert|].
  intros j x [(<- & <- & _) | [_ Hj]]%list_lookup_insert_Some.
  - by exists r.
  - exists x. by repeat split; auto.
Qed.

Lemma evolves_inc q d l : evolves l (inc_positions q d l).1.
Proof.
  split; [apply inc_positions_length|].
  intros j r' (r & Hj & [-> | (p & _ & _ & ->)])%inc_positions_lookup;
    exists r; by repeat split; auto.
Qed.

Lemma evolves_dequeue l i r :
  l !! i = Some r → evolves l (dequeue_list i r l).
Proof.
  intros Hi. eapply evolves_trans; [|apply evolves_inc].
  by apply (evolves_insert l i r).
Qed.

Lemma evolves_promote bookId now l : evolves l (promote_list bookId now l).
Proof.
  unfold promote_list.
  destruct (list_find _ l) as [[i r]|] eqn:Hfind; [|apply evolves_refl].
  destruct (request_validate _); [|apply evolves_refl].
  apply list_find_Some in Hfind as (Hi & Hhead & _).
  apply andb_true_iff in Hhead as [[_ Hst]%q_waitlisted_true _].
  eapply evolves_trans; [|apply evolves_inc].
  apply (evolves_insert l i r); [done..| |done].
  intros _. by rewrite Hst.
Qed.

Lemma evolves_one_active l l' :
  evolves l l' → one_active_per_pair l → one_active_per_pair l'.
Proof.
  intros [_ Hev] Hone i j r1' r2' Hi Hj Hb Hu Ha1 Ha2.
  destruct (Hev _ _ Hi) as (r1 & Hi0 & (?&?&?&?) & Hact1 & _).
  destruct (Hev _ _ Hj) as (r2 & Hj0 & (?&?&?&?) & Hact2 & _).
  apply (Hone i j r1 r2); auto; congruence.
Qed.

Lemma evolves_issued_borrow l l' :
  evolves l l' → issued_are_borrows l → issued_are_borrows l'.
Proof.
  intros [_ Hev] Hinv j r' Hj Hst.
  destruct (Hev _ _ Hj) as (r & Hj0 & (?&?&Hty&?) & _ & Hiss).
  rewrite Hty. destruct (Hiss Hst); [by eapply Hinv|done].
Qed.

Lemma one_active_snoc l r :
  no_active l (book r) (user r) →
  one_active_per_pair l → one_active_per_pair (l ++ [r]).
Proof.
  intros Hno Hone i j r1 r2 Hi Hj Hb Hu Ha1 Ha2.
  assert (Hclash : ∀ k x, l !! k = Some x → book x = book r → user x = user r →
                          is_active (status x) = true → False).
  { intros k x Hk Hbx Hux Hax. specialize (Hno k x Hk). unfold q_active in Hno.
    by rewrite Hax, !bool_decide_eq_true_2 in Hno. }
  apply lookup_snoc_Some in Hi as [[_ Hi] | [-> ->]];
    apply lookup_snoc_Some in Hj as [[_ Hj] | [-> ->]]; try done.
  - by eapply Hone.
  - exfalso. by eapply (Hclash i r1).
  - exfalso. eapply (Hclash j r2); done.
Qed.

Lemma issued_borrow_snoc l r :
  status r ≠ issued → issued_are_borrows l → issued_are_borrows (l ++ [r]).
Proof.
  intros Hst Hinv i x [[_ Hi] | [-> ->]]%lookup_snoc_Some; [by eapply Hinv|done].
Qed.

Lemma req_prim_one_active f c l l' :
  req_prim f c l l' → one_active_per_pair l → one_active_per_pair l'.
Proof.
  destruct 1 as [l i r r' Hi Href Hact _ _ _ Hiss | l i r Hi _ | l bookId now
                 | l r _ _ _ _ Hno | l r _ _ _ _ Hno].
  - apply evolves_one_active, (evolves_insert l i r); auto.
    intros []%Hiss. by right.
  - by apply evolves_one_active, evolves_dequeue.
  - apply evolves_one_active, evolves_promote.
  - by apply one_active_snoc.
  - by apply one_active_snoc.
Qed.

Lemma req_prim_issued_borrow f c l l' :
  req_prim f c l l' → issued_are_borrows l → issued_are_borrows l'.
Proof.
  destruct 1 as [l i r r' Hi Href Hact _ _ _ Hiss | l i r Hi _ | l bookId now
                 | l r _ _ Hst _ _ | l r _ _ Hst _ _].
  - apply evolves_issued_borrow, (evolves_insert l i r); auto.
    intros []%Hiss. by right.
  - by apply evolves_issued_borrow, evolves_dequeue.
  - apply evolves_issued_borrow, evolves_promote.
  - apply issued_borrow_snoc. by rewrite Hst.
  - apply issued_borrow_snoc. by rewrite Hst.
Qed.

(** ** Every call is a sequence of such writes *)

Lemma BookRequest_create_requests bookId userId ty note st pos s :
  no_active (requests s) bookId userId →
  (st = pending ∧ pos = None ∨
   st = waitlisted
   ∧ pos = Some (Z.of_nat (length (waitlist (requests s) bookId)) + 1)) →
  rtc (req_prim false true) (requests s)
    (requests (after (BookRequest_create bookId userId ty note st pos) s)).
Proof.
  intros Hno Hst. unfold after, BookRequest_create.
  destruct (parse_requestType ty) as [t|]; [|done].
  destruct (request_validate _) eqn:Hv; [|done]. simpl.
  apply rtc_once. destruct Hst as [[-> ->] | [-> ->]].
  - by apply prim_create.
  - by apply prim_enqueue.
Qed.

Lemma createRequest_requests userId bookId ty note s :
  rtc (req_prim false true) (requests s)
    (requests (after (createRequest userId bookId ty note) s)).
Proof.
  unfold after, createRequest, bind, Book_findById, BookRequest_findOne,
    BookRequest_countDocuments, gets, throw. simpl.
  destruct (books s !! bookId) as [bk|]; [|done].
  destruct (negb (isActive bk)); [done|].
  destruct (_ && _); [done|]. destruct (_ && _); [done|].
  destruct (_ && _); [done|].
  destruct (list_find _ (requests s)) as [[j ex]|] eqn:Hfind; [done|].
  assert (Hno : no_active (requests s) bookId userId).
  { intros i r Hi. apply list_find_None in Hfind.
    eapply Forall_lookup_1 in Hfind; [|done]. by destruct (q_active _ _ r). }
  destruct (String.eqb ty "download");
    [apply BookRequest_create_requests; auto|].
  destruct (0 <? physical_availableCopies bk);
    [apply BookRequest_create_requests; auto|].
  apply BookRequest_create_requests; auto.
Qed.

Ltac svc_unfold :=
  unfold after, outcome, bind, ret, throw, gets, modify,
    Book_findById, Book_save, BookRequest_findById, BookRequest_findOne,
    BookRequest_countDocuments, BookRequest_save, BookRequest_updateMany_inc,
    notifyUser in *.

Ltac svc_simpl := repeat (progress (svc_unfold; simpl)).

Lemma promoteWaitlist_requests bookId now s :
  requests (after (promoteWaitlist bookId now) s)
  = promote_list bookId now (requests s).
Proof.
  unfold promoteWaitlist, promote_list. svc_unfold. simpl.
  destruct (list_find _ (requests s)) as [[i r]|]; [|done]. simpl.
  destruct (request_validate _); [|done]. simpl.
  destruct (inc_positions _ _ _) as [l' [e|]]; [done|]. simpl.
  by destruct (books s !! book r).
Qed.

Lemma promoteWaitlist_books bookId now s :
  books (after (promoteWaitlist bookId now) s) = books s.
Proof.
  unfold promoteWaitlist. svc_unfold. simpl.
  destruct (list_find _ (requests s)) as [[i r]|]; [|done]. simpl.
  destruct (request_validate _); [|done]. simpl.
  destruct (inc_positions _ _ _) as [l' [e|]]; [done|]. simpl.
  by destruct (books s !! book r).
Qed.

Lemma cancelRequest_requests userId requestId s :
  rtc (req_prim false false) (requests s) (requests (after (cancelRequest userId requestId) s)).
Proof.
  unfold cancelRequest. svc_unfold. simpl.
  destruct (requests s !! requestId) as [r|] eqn:Hr; [|done].
  destruct (negb (bool_decide (user r = userId))); [done|].
  destruct (bool_decide (status r ∈ [pending; waitlisted])) eqn:Hst; [|done].
  simpl. destruct (request_validate _); [|done]. simpl.
  apply bool_decide_eq_true in Hst.
  rewrite !elem_of_cons, elem_of_nil in Hst.
  case_bool_decide as Hw; simpl.
  - apply rtc_once. by apply (prim_dequeue _ _ _ requestId r).
  - apply rtc_once. destruct Hst as [Hst|[Hst|[]]]; [|done].
    apply (prim_update _ _ _ requestId r); try done; by rewrite Hst.
Qed.

Lemma approveRequest_requests librarianId requestId now s :
  rtc (req_prim false false) (requests s)
    (requests (after (approveRequest librarianId requestId now) s)).
Proof.
  unfold approveRequest. svc_unfold. simpl.
  destruct (requests s !! requestId) as [r|] eqn:Hr; [|done].
  case_bool_decide as Hst; [|done]. simpl.
  destruct (request_validate _); [|done]. simpl.
  assert (req_prim false false (requests s)
            (<[requestId := approved_doc librarianId now r]> (requests s))).
  { apply (prim_update _ _ _ requestId r); try done; by rewrite Hst. }
  destruct (books s !! book r); simpl; by apply rtc_once.
Qed.

Lemma rejectRequest_requests librarianId requestId why now s :
  rtc (req_prim false false) (requests s)
    (requests (after (rejectRequest librarianId requestId why now) s)).
Proof.
  unfold rejectRequest. svc_unfold. simpl.
  destruct (requests s !! requestId) as [r|] eqn:Hr; [|done].
  case_bool_decide as Hst; [|done]. simpl.
  destruct (request_validate _); [|done]. simpl.
  assert (req_prim false false (requests s)
            (<[requestId := rejected_doc librarianId now why r]> (requests s))).
  { rewrite !elem_of_cons, elem_of_nil in Hst.
    apply (prim_update _ _ _ requestId r); try done;
      by destruct Hst as [->|[->|[]]]. }
  destruct (books s !! book r); simpl; by apply rtc_once.
Qed.

Lemma issueBook_requests librarianId requestId now s :
  rtc (req_prim true false) (requests s)
    (requests (after (issueBook librarianId requestId now) s)).
Proof.
  unfold issueBook. svc_unfold. simpl.
  destruct (requests s !! requestId) as [r|] eqn:Hr; [|done].
  case_bool_decide as Hst; [|done]. simpl.
  case_bool_decide as Hty; [|done]. simpl.
  destruct (books s !! book r) as [bk|] eqn:Hbk; [|done].
  svc_simpl. rewrite Hbk.
  destruct (physical_availableCopies bk <? 1); [done|].
  destruct (book_validate _); [|done]. svc_simpl.
  destruct (valid_time _); [|done]. svc_simpl.
  destruct (request_validate _); [|done]. svc_simpl.
  apply rtc_once, (prim_update _ _ _ requestId r); try done; by rewrite Hst.
Qed.

Lemma returnBook_requests librarianId requestId now now' s :
  rtc (req_prim false false) (requests s)
    (requests (after (returnBook librarianId requestId now now') s)).
Proof.
  unfold returnBook, after, bind, BookRequest_findById, Book_findById, gets,
    throw. simpl.
  destruct (requests s !! requestId) as [r|] eqn:Hr; [|done].
  case_bool_decide as Hst; [|done]. simpl.
  destruct (books s !! book r) as [bk|] eqn:Hbk; [|done].
  simpl. rewrite Hbk. unfold Book_save, BookRequest_save, modify, throw.
  destruct (book_validate _); [|done]. simpl.
  destruct (request_validate _); [|done]. simpl.
  match goal with |- context [promoteWaitlist ?b ?t ?s0] =>
    pose proof (promoteWaitlist_requests b t s0) as Hp; unfold after in Hp;
    destruct (promoteWaitlist b t s0) as [s1 [[]|e]]; simpl in *; rewrite Hp
  end.
  all: eapply rtc_l; [|apply rtc_once, prim_promote].
  all: apply (prim_update _ _ _ requestId r); try done; by rewrite Hst.
Qed.

Lemma updateBook_requests bookId upd s :
  requests (after (updateBook bookId upd) s) = requests s.
Proof.
  unfold updateBook. svc_unfold. simpl.
  destruct (books s !! bookId); [|done]. by destruct (book_validate _).
Qed.

Lemma exec_requests a s :
  rtc (req_prim (is_issue a) (is_create a)) (requests s) (requests (exec a s)).
Proof.
  destruct a; simpl.
  - apply createRequest_requests.
  - apply cancelRequest_requests.
  - apply approveRequest_requests.
  - apply rejectRequest_requests.
  - apply issueBook_requests.
  - apply returnBook_requests.
  - by rewrite updateBook_requests.
Qed.

Lemma BookRequest_create_books bookId userId ty note st pos s :
  books (after (BookRequest_create bookId userId ty note st pos) s) = books s.
Proof.
  unfold after, BookRequest_create.
  destruct (parse_requestType ty); [|done]. by destruct (request_validate _).
Qed.

Lemma createRequest_books userId bookId ty note s :
  books (after (createRequest userId bookId ty note) s) = books s.
Proof.
  unfold createRequest, after, bind, Book_findById, BookRequest_findOne,
    BookRequest_countDocuments, gets, throw. simpl.
  destruct (books s !! bookId) as [bk|]; [|done].
  destruct (negb (isActive bk)); [done|].
  destruct (_ && _); [done|]. destruct (_ && _); [done|].
  destruct (_ && _); [done|].
  destruct (list_find _ (requests s)) as [[j ex]|]; [done|].
  destruct (String.eqb ty "download"); [apply BookRequest_create_books|].
  destruct (0 <? physical_availableCopies bk); apply BookRequest_create_books.
Qed.

Lemma cancelRequest_books userId requestId s :
  books (after (cancelRequest userId requestId) s) = books s.
Proof.
  unfold cancelRequest. svc_simpl.
  destruct (requests s !! requestId) as [r|]; [|done].
  destruct (negb _); [done|]. destruct (negb _); [done|]. svc_simpl.
  destruct (request_validate _); [|done]. svc_simpl.
  by case_bool_decide.
Qed.

Lemma approveRequest_books librarianId requestId now s :
  books (after (approveRequest librarianId requestId now) s) = books s.
Proof.
  unfold approveRequest. svc_simpl.
  destruct (requests s !! requestId) as [r|]; [|done].
  destruct (negb _); [done|]. svc_simpl.
  destruct (request_validate _); [|done]. svc_simpl.
  by destruct (books s !! book r).
Qed.

Lemma rejectRequest_books librarianId requestId why now s :
  books (after (rejectRequest librarianId requestId why now) s) = books s.
Proof.
  unfold rejectRequest. svc_simpl.
  destruct (requests s !! requestId) as [r|]; [|done].
  destruct (negb _); [done|]. svc_simpl.
  destruct (request_validate _); [|done]. svc_simpl.
  by destruct (books s !! book r).
Qed.

Lemma issueBook_books librarianId requestId now s :
  book_prim (books s) (books (after (issueBook librarianId requestId now) s)).
Proof.
  unfold issueBook. svc_simpl.
  destruct (requests s !! requestId) as [r|]; [|constructor].
  destruct (negb _); [constructor|]. destruct (negb _); [constructor|].
  destruct (books s !! book r) as [bk|] eqn:Hbk; [|constructor].
  svc_simpl. rewrite Hbk.
  destruct (physical_availableCopies bk <? 1); [constructor|].
  destruct (book_validate _) eqn:Hval; [|constructor]. svc_simpl.
  destruct (valid_time _); [|by constructor]. svc_simpl.
  destruct (request_validate _); by constructor.
Qed.

Lemma returnBook_books librarianId requestId now now' s :
  book_prim (books s)
    (books (after (returnBook librarianId requestId now now') s)).
Proof.
  unfold returnBook, after, bind, BookRequest_findById, Book_findById, gets,
    throw. simpl.
  destruct (requests s !! requestId) as [r|]; [|constructor].
  destruct (negb _); [constructor|]. simpl.
  destruct (books s !! book r) as [bk|] eqn:Hbk; [|constructor].
  simpl. rewrite Hbk. unfold Book_save, BookRequest_save, modify, throw.
  destruct (book_validate _) eqn:Hval; [|constructor]. simpl.
  destruct (request_validate _); [|by constructor]. simpl.
  match goal with |- context [promoteWaitlist ?b ?t ?s0] =>
    pose proof (promoteWaitlist_books b t s0) as Hp; unfold after in Hp;
    destruct (promoteWaitlist b t s0) as [s1 [[]|e]]; simpl in *; rewrite Hp
  end; by constructor.
Qed.

Lemma updateBook_books bookId upd s :
  book_prim (books s) (books (after (updateBook bookId upd) s)).
Proof.
  unfold updateBook. svc_simpl.
  destruct (books s !! bookId); [|constructor].
  destruct (book_validate _) eqn:Hval; by constructor.
Qed.

Lemma exec_books a s : book_prim (books s) (books (exec a s)).
Proof.
  destruct a; simpl.
  - rewrite createRequest_books. constructor.
  - rewrite cancelRequest_books. constructor.
  - rewrite approveRequest_books. constructor.
  - rewrite rejectRequest_books. constructor.
  - apply issueBook_books.
  - apply returnBook_books.
  - apply updateBook_books.
Qed.

Lemma book_pre_save_bounds b :
  book_validate b = true →
  0 ≤ physical_availableCopies (book_pre_save b)
    ≤ physical_totalCopies (book_pre_save b).
Proof.
  unfold book_validate, book_pre_save.
  rewrite !andb_true_iff, !Z.leb_le. intros [[? ?] _].
  destruct (Z.ltb_spec (physical_totalCopies b) (physical_availableCopies b));
    simpl; lia.
Qed.

Lemma book_prim_bounds m m' :
  book_prim m m' →
  (∀ id b, m !! id = Some b →
     0 ≤ physical_availableCopies b ≤ physical_totalCopies b) →
  ∀ id b, m' !! id = Some b →
     0 ≤ physical_availableCopies b ≤ physical_totalCopies b.
Proof.
  destruct 1 as [m | m id0 b0 Hval]; [done|].
  intros Hm id b. rewrite lookup_insert. case_decide.
  - intros [= <-]. by apply book_pre_save_bounds.
  - apply Hm.
Qed.

Lemma exec_copies_in_bounds a s :
  copies_in_bounds s → copies_in_bounds (exec a s).
Proof. intros Hs. exact (book_prim_bounds _ _ (exec_books a s) Hs). Qed.

Lemma exec_waitlist_contiguous a s :
  waitlist_contiguous s → waitlist_contiguous (exec a s).
Proof.
  unfold waitlist_contiguous. setoid_rewrite contiguous_contig.
  pose proof (exec_requests a s) as Hrtc.
  induction Hrtc as [|l1 l2 l3 Hstep _ IH]; [done|].
  intros H1. apply IH. by eapply req_prim_contig.
Qed.

Lemma exec_one_active a s :
  one_active_per_pair (requests s) → one_active_per_pair (requests (exec a s)).
Proof.
  pose proof (exec_requests a s) as Hrtc.
  induction Hrtc as [|l1 l2 l3 Hstep _ IH]; [done|].
  intros H1. apply IH. by eapply req_prim_one_active.
Qed.

Lemma exec_issued_borrows a s :
  issued_are_borrows (requests s) → issued_are_borrows (requests (exec a s)).
Proof.
  pose proof (exec_requests a s) as Hrtc.
  induction Hrtc as [|l1 l2 l3 Hstep _ IH]; [done|].
  intros H1. apply IH. by eapply req_prim_issued_borrow.
Qed.

Lemma Reachable_run s0 trace : Reachable s0 (run trace s0).
Proof.
  unfold run. induction trace as [|a tr IH] using rev_ind; [constructor|].
  rewrite foldl_app. simpl. by constructor.
Qed.

(** ** Only [issueBook] issues *)

Lemma inc_positions_status q d l j r' :
  (inc_positions q d l).1 !! j = Some r' →
  ∃ r, l !! j = Some r ∧ status r' = status r.
Proof.
  intros (r & Hj & [-> | (p & _ & _ & ->)])%inc_positions_lookup; by exists r.
Qed.

Lemma req_prim_no_issue c l l' j r' :
  req_prim false c l l' → l' !! j = Some r' → status r' = issued →
  ∃ r, l !! j = Some r ∧ status r = issued.
Proof.
  destruct 1 as [l i r x Hi _ _ _ _ _ Hiss | l i r Hi _ | l bookId now
                 | l r _ _ Hst _ _ | l r _ _ Hst _ _]; intros Hj Hissued.
  - apply list_lookup_insert_Some in Hj as [(_ & <- & _) | [_ Hj]].
    + by destruct (Hiss Hissued).
    + by exists r'.
  - apply inc_positions_status in Hj as (x & Hj & Hx).
    apply list_lookup_insert_Some in Hj as [(_ & <- & _) | [_ Hj]].
    + rewrite Hx in Hissued. done.
    + exists x. split; [done|congruence].
  - unfold promote_list in Hj.
    destruct (list_find _ l) as [[i r]|]; [|by exists r'].
    destruct (request_validate _); [|by exists r'].
    apply inc_positions_status in Hj as (x & Hj & Hx).
    apply list_lookup_insert_Some in Hj as [(_ & <- & _) | [_ Hj]].
    + rewrite Hx in Hissued. done.
    + exists x. split; [done|congruence].
  - apply lookup_snoc_Some in Hj as [[_ Hj] | [_ <-]]; [by exists r'|congruence].
  - apply lookup_snoc_Some in Hj as [[_ Hj] | [_ <-]]; [by exists r'|congruence].
Qed.

Lemma rtc_req_prim_no_issue c l l' :
  rtc (req_prim false c) l l' →
  ∀ j r', l' !! j = Some r' → status r' = issued →
          ∃ r, l !! j = Some r ∧ status r = issued.
Proof.
  induction 1 as [l | l1 l2 l3 Hstep _ IH]; intros j r' Hj Hst; [by exists r'|].
  destruct (IH _ _ Hj Hst) as (r2 & Hj2 & Hst2).
  by eapply req_prim_no_issue.
Qed.

(** ** [createRequest] *)

Lemma list_find_no_active l bookId userId :
  no_active l bookId userId ↔
  list_find (λ r, q_active bookId userId r = true) l = None.
Proof.
  rewrite list_find_None, Forall_lookup. unfold no_active.
  split; intros H i r Hi; specialize (H i r Hi);
    by destruct (q_active bookId userId r).
Qed.

Lemma createRequest_guarded userId bookId ty note s bk :
  books s !! bookId = Some bk → isActive bk = true → type_guard bk ty = None →
  createRequest userId bookId ty note s =
  match list_find (λ r, q_active bookId userId r = true) (requests s) with
  | Some (_, ex) => (s, Err (DuplicateActive (status ex)))
  | None =>
      if String.eqb ty "download"
      then BookRequest_create bookId userId ty note pending None s
      else if 0 <? physical_availableCopies bk
      then BookRequest_create bookId userId ty note pending None s
      else BookRequest_create bookId userId ty note waitlisted
             (Some (Z.of_nat (length (waitlist (requests s) bookId)) + 1)) s
  end.
Proof.
  intros Hbk Hact Hguard. unfold createRequest, type_guard in *. svc_simpl.
  rewrite Hbk, Hact. simpl.
  destruct (_ && _); [done|]. destruct (_ && _); [done|].
  destruct (_ && _); [done|].
  destruct (list_find _ _) as [[j ex]|]; [done|].
  destruct (String.eqb ty "download"); [done|].
  by destruct (0 <? physical_availableCopies bk).
Qed.

Lemma BookRequest_create_borrow bookId userId note st pos s :
  (String.length (trim note) ≤ 300)%nat →
  BookRequest_create bookId userId "borrow" note st pos s =
  (set_requests (λ l, l ++ [new_request bookId userId borrow note st pos]) s,
   Ok (length (requests s), new_request bookId userId borrow note st pos)).
Proof.
  intros Hnote. unfold BookRequest_create, request_validate. simpl.
  by rewrite (proj2 (Nat.leb_le _ _) Hnote).
Qed.

(** ** [cancelRequest] *)

Lemma cancelRequest_run s userId requestId r :
  requests s !! requestId = Some r → user r = userId →
  status r = waitlisted → request_validate r = true →
  cancelRequest userId requestId s =
  (set_requests
     (λ _, shift (q_behind (book r) (waitlistPosition r)) (-1)
             <$> <[requestId := cancelled_doc r]> (requests s)) s,
   Ok tt).
Proof.
  intros Hr Hu Hst Hval. unfold cancelRequest. svc_simpl.
  rewrite Hr, Hst, bool_decide_eq_true_2 by done. simpl.
  unfold request_validate in *. simpl. rewrite Hval. svc_simpl.
  by rewrite inc_positions_shift_behind.
Qed.

Lemma shift_status q d x : status (shift q d x) = status x.
Proof. unfold shift. destruct (q x); [|done]. by destruct (waitlistPosition x). Qed.

Lemma shift_not_waitlisted bookId k d x :
  status x ≠ waitlisted → shift (q_behind bookId k) d x = x.
Proof.
  intros Hx. unfold shift, q_behind. by rewrite q_waitlisted_status.
Qed.

(** C5: cancelling, as its requester, a waitlisted request at position
    [k] succeeds; the request becomes cancelled and loses its position;
    every other waitlisted request of the same book behind position [k]
    moves up by exactly one (with positions held by waitlisted requests
    only, as the data model has it: every other request of the same book
    with a position greater than [k]); every other request, in
    particular any at a position up to [k], stays as it was; no book
    changes, so no count of available copies does; and no request
    becomes pending. *)
Theorem cancelRequest_waitlisted s userId requestId r k :
  requests s !! requestId = Some r → user r = userId →
  status r = waitlisted → waitlistPosition r = Some k →
  request_validate r = true →
  let s' := after (cancelRequest userId requestId) s in
  outcome (cancelRequest userId requestId) s = Ok tt
  ∧ (∃ r', requests s' !! requestId = Some r'
           ∧ status r' = cancelled ∧ waitlistPosition r' = None)
  ∧ (∀ j x p, j ≠ requestId → requests s !! j = Some x →
       book x = book r → status x = waitlisted →
       waitlistPosition x = Some p → k < p →
       requests s' !! j = Some (set_waitlistPosition (Some (p - 1)) x))
  ∧ (positions_only_waitlisted (requests s) →
     ∀ j x p, j ≠ requestId → requests s !! j = Some x →
       book x = book r → waitlistPosition x = Some p → k < p →
       requests s' !! j = Some (set_waitlistPosition (Some (p - 1)) x))
  ∧ (∀ j x, j ≠ requestId → requests s !! j = Some x →
       ¬ (book x = book r ∧ status x = waitlisted
          ∧ ∃ p, waitlistPosition x = Some p ∧ k < p) →
       requests s' !! j = Some x)
  ∧ length (requests s') = length (requests s)
  ∧ books s' = books s
  ∧ (∀ j x', requests s' !! j = Some x' → status x' = pending →
       ∃ x, requests s !! j = Some x ∧ status x = pending).
Proof.
  intros Hr Hu Hst Hk Hval s'. subst s'. unfold after, outcome.
  rewrite (cancelRequest_run s userId requestId r) by done. simpl.
  rewrite Hk.
  assert (Hlt : (requestId < length (requests s))%nat)
    by by eapply lookup_lt_Some.
  assert (Hbehind : ∀ j x p, j ≠ requestId → requests s !! j = Some x →
       book x = book r → status x = waitlisted →
       waitlistPosition x = Some p → k < p →
       (shift (q_behind (book r) (Some k)) (-1)
          <$> <[requestId := cancelled_doc r]> (requests s)) !! j
       = Some (set_waitlistPosition (Some (p - 1)) x)).
  { intros j x p Hj Hx Hb Hsx Hp Hkp.
    rewrite list_lookup_fmap, list_lookup_insert_ne, Hx by done. simpl.
    unfold shift, q_behind.
    rewrite (proj2 (q_waitlisted_true _ _)), Hp by done. simpl.
    by rewrite bool_decide_eq_true_2. }
  split_and!; [done|..].
  - exists (cancelled_doc r). split; [|done].
    rewrite list_lookup_fmap, list_lookup_insert_eq by done. simpl.
    by rewrite shift_not_waitlisted.
  - done.
  - intros Hpw j x p Hj Hx Hb Hp Hkp. apply Hbehind; try done.
    destruct (decide (status x = waitlisted)) as [|Hnw]; [done|].
    rewrite (Hpw _ _ Hx Hnw) in Hp. done.
  - intros j x Hj Hx Hnot.
    rewrite list_lookup_fmap, list_lookup_insert_ne, Hx by done. simpl.
    f_equal. unfold shift, q_behind.
    destruct (q_waitlisted (book r) x) eqn:Hq; [|done].
    apply q_waitlisted_true in Hq as [? ?].
    destruct (waitlistPosition x) as [p|] eqn:Hp; [|done]. simpl.
    case_bool_decide; [|done]. destruct Hnot. eauto.
  - by rewrite length_fmap, length_insert.
  - done.
  - intros j x'. rewrite list_lookup_fmap.
    destruct (decide (j = requestId)) as [->|Hj].
    + rewrite list_lookup_insert_eq by done. simpl.
      intros [= <-]. by rewrite shift_status.
    + rewrite list_lookup_insert_ne by done.
      destruct (requests s !! j) as [x|]; [|done]. simpl.
      intros [= <-]. rewrite shift_status. by exists x.
Qed.

(** ** Adding and subtracting one *)

Ltac js_arith :=
  unfold js_add1, js_sub1, add1_nonneg, sub1_pos, max_exact in *;
  repeat match goal with
         | |- context [?a <? ?b] => destruct (Z.ltb_spec a b)
         | |- context [?a <=? ?b] => destruct (Z.leb_spec a b)
         | |- context [Z.even ?a] => destruct (Z.even a)
         end;
  lia.

Lemma js_add1_exact n : - max_exact ≤ n < max_exact → js_add1 n = n + 1.
Proof. intros H. js_arith. Qed.

Lemma js_sub1_exact n : - max_exact < n ≤ max_exact → js_sub1 n = n - 1.
Proof. intros H. js_arith. Qed.

Lemma js_add1_ge n : n ≤ js_add1 n.
Proof. js_arith. Qed.

Lemma js_sub1_le n : js_sub1 n ≤ n.
Proof. js_arith. Qed.

Lemma js_sub1_nonneg n : 1 ≤ n → 0 ≤ js_sub1 n.
Proof. intros H. js_arith. Qed.

(** At 2^53 a count stops growing, and two above it drops by two. *)
Example js_add1_rounds :
  js_add1 (2 ^ 53 - 1) = 2 ^ 53 ∧ js_add1 (2 ^ 53) = 2 ^ 53
  ∧ js_add1 (2 ^ 53 + 2) = 2 ^ 53 + 4 ∧ js_add1 (2 ^ 54) = 2 ^ 54
  ∧ js_sub1 (2 ^ 53) = 2 ^ 53 - 1 ∧ js_sub1 (2 ^ 53 + 2) = 2 ^ 53
  ∧ js_sub1 (2 ^ 53 + 4) = 2 ^ 53 + 4 ∧ js_sub1 (2 ^ 54) = 2 ^ 54.
Proof. vm_compute. split_and!; reflexivity. Qed.

(** Below 2^53 the one undoes the other. *)
Lemma js_add1_sub1 n : 1 ≤ n ≤ max_exact → js_add1 (js_sub1 n) = n.
Proof.
  intros H. rewrite js_sub1_exact, js_add1_exact; unfold max_exact in *; lia.
Qed.

(** ** [issueBook] *)

Lemma book_pre_save_id b :
  physical_availableCopies b ≤ physical_totalCopies b → book_pre_save b = b.
Proof.
  intros H. unfold book_pre_save.
  by rewrite (proj2 (Z.ltb_ge _ _)) by done.
Qed.

Lemma issueBook_decrement_valid bk :
  book_validate bk = true → 1 ≤ physical_availableCopies bk →
  book_validate
    (set_availableCopies (js_sub1 (physical_availableCopies bk)) bk) = true.
Proof.
  intros Hbv Havail. unfold book_validate in *. simpl.
  apply andb_true_iff in Hbv as [[? _]%andb_true_iff ?].
  rewrite !andb_true_iff. split_and!; [done| |done]. apply Z.leb_le.
  by apply js_sub1_nonneg.
Qed.

Lemma issueBook_run s librarianId requestId now r bk :
  requests s !! requestId = Some r → request_validate r = true →
  books s !! book r = Some bk → book_validate bk = true →
  physical_availableCopies bk ≤ physical_totalCopies bk →
  status r = approved → requestType r = borrow →
  1 ≤ physical_availableCopies bk →
  valid_time (now + default 0 (borrowDurationDays bk) * ms_per_day) = true →
  let r' := issued_doc librarianId now
              (now + default 0 (borrowDurationDays bk) * ms_per_day) r in
  issueBook librarianId requestId now s =
  (set_outbox (λ o, o ++ [mkNotification (user r) "library:book_issued" requestId])
     (set_requests (<[requestId := r']>)
        (set_books
           (<[book r := set_availableCopies
                          (js_sub1 (physical_availableCopies bk)) bk]>)
           s)),
   Ok r').
Proof.
  intros Hr Hrv Hbk Hbv Hle Hst Hty Havail Hdue r'. subst r'.
  unfold issueBook. svc_simpl. rewrite Hr, Hst, Hty. simpl.
  rewrite Hbk. svc_simpl. rewrite Hbk.
  rewrite (proj2 (Z.ltb_ge _ _)) by lia.
  rewrite (issueBook_decrement_valid bk) by done. svc_simpl.
  rewrite book_pre_save_id
    by (simpl; pose proof (js_sub1_le (physical_availableCopies bk)); lia).
  rewrite Hdue. svc_simpl.
  unfold request_validate in *. simpl. by rewrite Hrv.
Qed.



(** ** [returnBook] and [promoteWaitlist] *)

Lemma book_pre_save_available b :
  physical_availableCopies (book_pre_save b)
  = Z.min (physical_availableCopies b) (physical_totalCopies b).
Proof.
  unfold book_pre_save.
  destruct (Z.ltb_spec (physical_totalCopies b) (physical_availableCopies b));
    simpl; lia.
Qed.

Lemma book_pre_save_total b :
  physical_totalCopies (book_pre_save b) = physical_totalCopies b.
Proof. unfold book_pre_save. by destruct (_ <? _). Qed.

Lemma promoteWaitlist_ok bookId now s :
  contig (positions (requests s) bookId) → requests_valid (requests s) →
  is_Some (books s !! bookId) →
  outcome (promoteWaitlist bookId now) s = Ok tt.
Proof.
  intros Hc Hval [bk Hbk]. unfold promoteWaitlist. svc_simpl.
  destruct (list_find _ (requests s)) as [[i h]|] eqn:Hfind; [|done]. simpl.
  pose proof Hfind as (Hi & Hhead & _)%list_find_Some.
  apply andb_true_iff in Hhead as [[Hb Hst]%q_waitlisted_true _].
  assert (Hv : request_validate (promoted_doc now h) = true)
    by apply (Hval _ _ Hi).
  rewrite Hv. svc_simpl.
  pose proof (promote_list_shift bookId now _ i h Hc Hfind Hv) as Hp.
  unfold promote_list in Hp. rewrite Hfind, Hv in Hp.
  destruct (inc_positions _ _ _) as [l' [e|]] eqn:Hinc; simpl in *.
  - rewrite inc_positions_total in Hinc; [done|].
    intros x [j Hj]%list_elem_of_lookup Hx.
    apply list_lookup_insert_Some in Hj as [(_ & <- & _) | [_ Hj]].
    { by rewrite q_waitlisted_status in Hx. }
    destruct (contig_positions_Some (requests s) bookId x Hc) as [z ->]; [|done].
    apply waitlist_elem. split; [done|]. apply list_elem_of_lookup. eauto.
  - by rewrite Hb, Hbk.
Qed.

Lemma returnBook_run s librarianId requestId now now' r bk :
  requests s !! requestId = Some r → status r = issued →
  request_validate r = true →
  books s !! book r = Some bk → book_validate bk = true →
  let bk' := book_pre_save
               (set_availableCopies
                  (js_add1 (physical_availableCopies bk)) bk) in
  let r' := returned_doc librarianId now r in
  let s1 := set_requests (<[requestId := r']>)
              (set_books (<[book r := bk']>) s) in
  returnBook librarianId requestId now now' s =
  (after (promoteWaitlist (book r) now') s1,
   match outcome (promoteWaitlist (book r) now') s1 with
   | Ok _ => Ok r'
   | Err e => Err e
   end).
Proof.
  intros Hr Hst Hrv Hbk Hbv bk' r' s1. subst bk' r' s1.
  unfold returnBook, after, outcome, bind, BookRequest_findById, Book_findById,
    gets, throw. simpl.
  rewrite Hr, Hst. simpl. rewrite Hbk. simpl. rewrite Hbk.
  unfold Book_save, BookRequest_save, modify, throw.
  assert (Hv' : book_validate
            (set_availableCopies
               (js_add1 (physical_availableCopies bk)) bk) = true).
  { unfold book_validate in *. simpl.
    apply andb_true_iff in Hbv as [[? Hav%Z.leb_le]%andb_true_iff ?].
    rewrite !andb_true_iff. split_and!; [done| |done]. apply Z.leb_le.
    pose proof (js_add1_ge (physical_availableCopies bk)). lia. }
  rewrite Hv'. simpl.
  unfold request_validate in *. simpl. rewrite Hrv. simpl.
  by destruct (promoteWaitlist _ _ _) as [s2 [[]|e]].
Qed.

Lemma requests_valid_insert l i r' :
  requests_valid l → request_validate r' = true →
  requests_valid (<[i := r']> l).
Proof.
  intros Hl Hr' j x [(_ & <- & _) | [_ Hj]]%list_lookup_insert_Some; [done|].
  by eapply Hl.
Qed.

(** What a return does, under the standing assumptions on the store. *)
Lemma returnBook_effect s librarianId requestId now now' r bk :
  requests s !! requestId = Some r → status r = issued →
  books s !! book r = Some bk → book_validate bk = true →
  requests_valid (requests s) → contiguous (requests s) (book r) →
  let call := returnBook librarianId requestId now now' in
  let bk' := book_pre_save
               (set_availableCopies
                  (js_add1 (physical_availableCopies bk)) bk) in
  let r' := returned_doc librarianId now r in
  outcome call s = Ok r'
  ∧ books (after call s) = <[book r := bk']> (books s)
  ∧ requests (after call s)
    = promote_list (book r) now' (<[requestId := r']> (requests s)).
Proof.
  intros Hr Hst Hbk Hbv Hval Hc call bk' r'. subst call.
  unfold outcome, after.
  rewrite (returnBook_run s _ _ _ _ r bk) by eauto. simpl.
  fold bk' r'.
  set (s1 := set_requests _ _).
  assert (Hok : outcome (promoteWaitlist (book r) now') s1 = Ok tt).
  { apply promoteWaitlist_ok.
    - apply contiguous_contig in Hc. unfold positions in *. subst s1. simpl.
      rewrite (waitlist_insert_neutral _ _ r); [done..|by rewrite Hst|done].
    - subst s1. simpl. apply requests_valid_insert; [done|].
      apply (Hval _ _ Hr).
    - subst s1. simpl. rewrite lookup_insert_eq. eauto. }
  rewrite Hok. split_and!; [done|..].
  - by rewrite promoteWaitlist_books.
  - by rewrite promoteWaitlist_requests.
Qed.




(** ** The scenario, run *)

Example queue_up_run :
  let s := run queue_up library in
  (λ r, (user r, status r, waitlistPosition r)) <$> requests s
  = [(1%nat, issued, None); (2%nat, waitlisted, Some 1);
     (3%nat, waitlisted, Some 2)]
  ∧ physical_availableCopies <$> books s !! 0%nat = Some 0
  ∧ dueDate <$> requests s !! 0%nat = Some (Some (200 + 14 * 86400000)).
Proof. vm_compute. split_and!; reflexivity. Qed.

Example scenario_run :
  let s := run scenario library in
  (λ r, (user r, status r, waitlistPosition r)) <$> requests s
  = [(1%nat, returned, None); (2%nat, cancelled, None);
     (3%nat, pending, None)]
  ∧ physical_availableCopies <$> books s !! 0%nat = Some 1
  ∧ last (outbox s)
    = Some (mkNotification 3 "library:waitlist_available" 2).
Proof. vm_compute. split_and!; reflexivity. Qed.

(** ** Checking the standing assumptions on a concrete store *)

Lemma requests_valid_check l :
  forallb request_validate l = true → requests_valid l.
Proof.
  intros H i x Hi. rewrite forallb_forall in H.
  apply H, list_elem_of_In, list_elem_of_lookup. eauto.
Qed.

Lemma contiguous_check l bookId :
  positions l bookId
  = Some <$> seqZ 1 (Z.of_nat (length (positions l bookId))) →
  contiguous l bookId.
Proof. intros H. apply contiguous_contig, contig_perm. by rewrite <-H. Qed.

Lemma waitlist_contiguous_nil s : requests s = [] → waitlist_contiguous s.
Proof.
  intros H bookId. apply contiguous_contig. unfold positions, waitlist.
  rewrite H. apply contig_nil.
Qed.

Lemma copies_in_bounds_check s :
  map_Forall (λ _ b, 0 ≤ physical_availableCopies b ≤ physical_totalCopies b)
    (books s) →
  copies_in_bounds s.
Proof. intros H id b Hb. by apply (H id b). Qed.

(** ** The cap on the available count *)

(** With 2^53 copies available of 2^53 + 2, a return leaves the count
    at 2^53: the sum is rounded back, below the total. *)
Example returnBook_rounds :
  let s := run (lend_out ++ [ UpdateBook 0 many_copies ]) library in
  let call := returnBook 9 0 300 301 in
  physical_availableCopies <$> books s !! 0%nat = Some (2 ^ 53)
  ∧ physical_totalCopies <$> books s !! 0%nat = Some (2 ^ 53 + 2)
  ∧ is_Ok (outcome call s)
  ∧ physical_availableCopies <$> books (after call s) !! 0%nat
    = Some (2 ^ 53).
Proof. vm_compute. split_and!; done. Qed.



(** C3, counterexample: in the same store the increment of [returnBook]
    would take the available count to 2, above the total of 1; the call
    returns normally, the request is returned, and the stored count is
    the total. *)
Lemma returnBook_over_total_counterexample :
  let s := run recount library in
  let call := returnBook 9 0 300 301 in
  status <$> requests s !! 0%nat = Some issued
  ∧ physical_availableCopies <$> books s !! 0%nat = Some 1
  ∧ physical_totalCopies <$> books s !! 0%nat = Some 1
  ∧ is_Ok (outcome call s)
  ∧ (∀ e, outcome call s ≠ Err e)
  ∧ status <$> requests (after call s) !! 0%nat = Some returned
  ∧ physical_availableCopies <$> books (after call s) !! 0%nat = Some 1.
Proof. vm_compute. split_and!; done. Qed.

(** C3, as amended: when the increment of [returnBook] would take the
    available count above the total, nothing is reported: the save hook
    cuts the count down to the total, the call returns the returned
    request, and the waitlist is promoted as usual. *)
Theorem returnBook_caps_silently s librarianId requestId now now' r bk :
  requests s !! requestId = Some r → status r = issued →
  books s !! book r = Some bk → book_validate bk = true →
  requests_valid (requests s) → contiguous (requests s) (book r) →
  physical_totalCopies bk < physical_availableCopies bk + 1 →
  let call := returnBook librarianId requestId now now' in
  outcome call s = Ok (returned_doc librarianId now r)
  ∧ books (after call s)
    = <[book r := set_availableCopies (physical_totalCopies bk) bk]> (books s)
  ∧ requests (after call s)
    = promote_list (book r) now'
        (<[requestId := returned_doc librarianId now r]> (requests s)).
Proof.
  intros Hr Hst Hbk Hbv Hval Hc Hover call.
  destruct (returnBook_effect s librarianId requestId now now' r bk)
    as (Hout & Hbooks & Hreqs); [done..|].
  split_and!; [done| |done].
  fold call in Hbooks. rewrite Hbooks. f_equal.
  unfold book_pre_save. simpl.
  pose proof (js_add1_ge (physical_availableCopies bk)) as Hge.
  destruct (Z.ltb_spec (physical_totalCopies bk)
              (js_add1 (physical_availableCopies bk))); [done|].
  f_equal. lia.
Qed.

Lemma returnBook_caps_silently_witness :
  let s := run recount library in
  physical_availableCopies
    <$> books (after (returnBook 9 0 300 301) s) !! 0%nat = Some 1.
Proof.
  intros s.
  destruct (returnBook_caps_silently s 9 0 300 301
              (issued_doc 9 200 (200 + 14 * ms_per_day)
                 (approved_doc 9 100 (new_request 0 1 borrow "" pending None)))
              one_copy) as (_ & H & _).
  - reflexivity.
  - reflexivity.
  - reflexivity.
  - reflexivity.
  - apply requests_valid_check. reflexivity.
  - apply contiguous_check. reflexivity.
  - simpl. lia.
  - rewrite H. reflexivity.
Defined.

(** ** Only [createRequest] adds a request *)

Lemma req_prim_evolves f l l' : req_prim f false l l' → evolves l l'.
Proof.
  destruct 1 as [l i r r' Hi Href Hact _ _ _ Hiss | l i r Hi _ | l bookId now
                 | l r ? _ _ _ _ | l r ? _ _ _ _]; [| | |done..].
  - apply (evolves_insert l i r); auto. intros []%Hiss. by right.
  - by apply evolves_dequeue.
  - apply evolves_promote.
Qed.

Lemma rtc_req_prim_evolves f l l' : rtc (req_prim f false) l l' → evolves l l'.
Proof.
  induction 1 as [l | l1 l2 l3 Hstep _ IH]; [apply evolves_refl|].
  eapply evolves_trans; [|done]. by eapply req_prim_evolves.
Qed.

Lemma exec_length a s :
  is_create a = false → length (requests (exec a s)) = length (requests s).
Proof.
  intros Ha. pose proof (exec_requests a s) as H. rewrite Ha in H.
  by apply rtc_req_prim_evolves in H as [? _].
Qed.

(** With an active request of the same user on the same book in the
    store, [createRequest] throws, whatever else holds, and writes
    nothing. *)
Lemma createRequest_duplicate_fails userId bookId ty note s :
  ¬ no_active (requests s) bookId userId →
  (∃ e, outcome (createRequest userId bookId ty note) s = Err e)
  ∧ after (createRequest userId bookId ty note) s = s.
Proof.
  intros Hdup. rewrite list_find_no_active in Hdup.
  unfold createRequest. svc_simpl.
  destruct (books s !! bookId) as [bk|]; [|by eauto].
  destruct (negb (isActive bk)); [by eauto|].
  destruct (_ && _); [by eauto|]. destruct (_ && _); [by eauto|].
  destruct (_ && _); [by eauto|]. svc_simpl.
  destruct (list_find _ (requests s)) as [[j ex]|]; [by eauto|done].
Qed.

Lemma createRequest_duplicate_error userId bookId ty note s bk :
  ¬ no_active (requests s) bookId userId →
  books s !! bookId = Some bk → isActive bk = true → type_guard bk ty = None →
  ∃ j ex, requests s !! j = Some ex ∧ book ex = bookId ∧ user ex = userId
          ∧ is_active (status ex) = true
          ∧ outcome (createRequest userId bookId ty note) s
            = Err (DuplicateActive (status ex)).
Proof.
  intros Hdup Hbk Hact Hguard. rewrite list_find_no_active in Hdup.
  unfold outcome. rewrite (createRequest_guarded _ _ _ _ _ bk) by done.
  destruct (list_find _ (requests s)) as [[j ex]|] eqn:Hfind; [|done].
  apply list_find_Some in Hfind as (Hj & Hq & _).
  unfold q_active in Hq. rewrite !andb_true_iff, !bool_decide_eq_true in Hq.
  destruct Hq as [[? ?] ?]. by exists j, ex.
Qed.

(** Before the duplicate check: the first guard that fails decides the
    error. *)
Lemma createRequest_first_guard userId bookId ty note s :
  (books s !! bookId = None →
   createRequest userId bookId ty note s = (s, Err BookNotFound))
  ∧ (∀ bk, books s !! bookId = Some bk → isActive bk = false →
     createRequest userId bookId ty note s = (s, Err BookUnavailable))
  ∧ (∀ bk e, books s !! bookId = Some bk → isActive bk = true →
     type_guard bk ty = Some e →
     createRequest userId bookId ty note s = (s, Err e)).
Proof.
  unfold createRequest, type_guard. svc_simpl. split_and!.
  - by intros ->.
  - by intros bk -> ->.
  - intros bk e -> ->. simpl.
    destruct (_ && _); [by intros [= <-]|].
    destruct (_ && _); [by intros [= <-]|].
    destruct (_ && _); [by intros [= <-]|done].
Qed.

(** ** Invariants of the reachable stores *)

Lemma Reachable_invariant (I : Store → Prop) s0 s :
  (∀ a s, I s → I (exec a s)) → I s0 → Reachable s0 s → I s.
Proof. intros Hstep H0. induction 1; auto. Qed.

Lemma one_active_nil : one_active_per_pair [].
Proof. by intros i j r1 r2 ?. Qed.

Lemma issued_are_borrows_nil : issued_are_borrows [].
Proof. by intros i r ?. Qed.

(** C1: in every store reachable from one whose waitlists are
    contiguous, each book's waitlist positions are exactly 1, ..., N
    for its N waitlisted requests; in particular the enqueue of
    [createRequest], the renumbering of [cancelRequest] and the promotion
    of [returnBook] lead to such a store again, as does every other
    call. *)
Theorem waitlist_stays_contiguous s0 s :
  waitlist_contiguous s0 → Reachable s0 s →
  waitlist_contiguous s
  ∧ (∀ userId bookId ty note,
       waitlist_contiguous (after (createRequest userId bookId ty note) s))
  ∧ (∀ userId requestId,
       waitlist_contiguous (after (cancelRequest userId requestId) s))
  ∧ (∀ librarianId requestId now now',
       waitlist_contiguous (after (returnBook librarianId requestId now now') s))
  ∧ (∀ a, waitlist_contiguous (exec a s)).
Proof.
  intros H0 Hreach.
  assert (Hs : waitlist_contiguous s).
  { by apply (Reachable_invariant _ s0 s exec_waitlist_contiguous). }
  split_and!; [done|..].
  - intros u b ty note. by apply (exec_waitlist_contiguous (CreateRequest u b ty note)).
  - intros u i. by apply (exec_waitlist_contiguous (CancelRequest u i)).
  - intros l i now now'.
    by apply (exec_waitlist_contiguous (ReturnBook l i now now')).
  - intros a. by apply exec_waitlist_contiguous.
Qed.

Lemma waitlist_stays_contiguous_witness :
  waitlist_contiguous (run scenario library)
  ∧ positions (requests (run queue_up library)) 0 = [Some 1; Some 2].
Proof.
  split; [|vm_compute; reflexivity].
  refine (proj1 (waitlist_stays_contiguous library (run scenario library) _ _)).
  - apply waitlist_contiguous_nil. reflexivity.
  - apply Reachable_run.
Defined.

(** C8: in every store reachable from one in which every book has
    [0 ≤ availableCopies ≤ totalCopies], every book has; in particular
    [createRequest], [issueBook] and [returnBook] keep both bounds,
    whether they return or throw. *)
Theorem copies_stay_in_bounds s0 s :
  copies_in_bounds s0 → Reachable s0 s →
  copies_in_bounds s
  ∧ (∀ userId bookId ty note,
       copies_in_bounds (after (createRequest userId bookId ty note) s))
  ∧ (∀ librarianId requestId now,
       copies_in_bounds (after (issueBook librarianId requestId now) s))
  ∧ (∀ librarianId requestId now now',
       copies_in_bounds (after (returnBook librarianId requestId now now') s))
  ∧ (∀ a, copies_in_bounds (exec a s)).
Proof.
  intros H0 Hreach.
  assert (Hs : copies_in_bounds s).
  { by apply (Reachable_invariant _ s0 s exec_copies_in_bounds). }
  split_and!; [done|..].
  - intros u b ty note. by apply (exec_copies_in_bounds (CreateRequest u b ty note)).
  - intros l i now. by apply (exec_copies_in_bounds (IssueBook l i now)).
  - intros l i now now'. by apply (exec_copies_in_bounds (ReturnBook l i now now')).
  - intros a. by apply exec_copies_in_bounds.
Qed.

Lemma copies_stay_in_bounds_witness :
  copies_in_bounds (run scenario library)
  ∧ copies_in_bounds (run recount library).
Proof.
  assert (H0 : copies_in_bounds library).
  { apply copies_in_bounds_check, map_Forall_singleton. simpl. lia. }
  split.
  - refine (proj1 (copies_stay_in_bounds library (run scenario library) H0 _)).
    apply Reachable_run.
  - refine (proj1 (copies_stay_in_bounds library (run recount library) H0 _)).
    apply Reachable_run.
Defined.

(** ** Issued requests *)

Lemma BookRequest_create_status bookId userId ty note st pos s i r :
  outcome (BookRequest_create bookId userId ty note st pos) s = Ok (i, r) →
  status r = st.
Proof.
  unfold outcome, BookRequest_create.
  destruct (parse_requestType ty); [|done].
  destruct (request_validate _); [|done]. simpl. by intros [= _ <-].
Qed.

Lemma createRequest_status userId bookId ty note s i r :
  outcome (createRequest userId bookId ty note) s = Ok (i, r) →
  status r = pending ∨ status r = waitlisted.
Proof.
  unfold createRequest, outcome, bind, Book_findById, BookRequest_findOne,
    BookRequest_countDocuments, gets, throw. simpl.
  destruct (books s !! bookId) as [bk|]; [|done].
  destruct (negb (isActive bk)); [done|].
  destruct (_ && _); [done|]. destruct (_ && _); [done|].
  destruct (_ && _); [done|].
  destruct (list_find _ (requests s)) as [[j ex]|]; [done|].
  destruct (String.eqb ty "download");
    [intros ?%BookRequest_create_status; by left|].
  destruct (0 <? physical_availableCopies bk);
    intros ?%BookRequest_create_status; [by left|by right].
Qed.

Lemma issueBook_rejects_non_borrow s librarianId requestId now r :
  requests s !! requestId = Some r → requestType r ≠ borrow →
  (∃ e, outcome (issueBook librarianId requestId now) s = Err e)
  ∧ after (issueBook librarianId requestId now) s = s.
Proof.
  intros Hr Hty. unfold issueBook. svc_simpl. rewrite Hr. simpl.
  case_bool_decide; simpl; [|by eauto].
  rewrite bool_decide_eq_false_2 by done. simpl. by eauto.
Qed.

(** C10: in every store reachable from one in which every issued
    request is a borrow, every issued request is a borrow: a request
    that [createRequest] returns is pending or waitlisted, [issueBook]
    throws on a request that is not a borrow and writes nothing, and no
    call other than [issueBook] makes a request issued. *)
Theorem issued_requests_are_borrows s0 s :
  issued_are_borrows (requests s0) → Reachable s0 s →
  issued_are_borrows (requests s)
  ∧ (∀ userId bookId ty note i r,
       outcome (createRequest userId bookId ty note) s = Ok (i, r) →
       status r = pending ∨ status r = waitlisted)
  ∧ (∀ librarianId requestId now r,
       requests s !! requestId = Some r → requestType r ≠ borrow →
       (∃ e, outcome (issueBook librarianId requestId now) s = Err e)
       ∧ after (issueBook librarianId requestId now) s = s)
  ∧ (∀ a j r',
       is_issue a = false →
       requests (exec a s) !! j = Some r' → status r' = issued →
       ∃ r, requests s !! j = Some r ∧ status r = issued).
Proof.
  intros H0 Hreach. split_and!.
  - by apply (Reachable_invariant (λ s, issued_are_borrows (requests s)) s0 s
                exec_issued_borrows).
  - intros *. apply createRequest_status.
  - intros *. apply issueBook_rejects_non_borrow.
  - intros a j r' Ha. pose proof (exec_requests a s) as H. rewrite Ha in H.
    by apply (rtc_req_prim_no_issue _ _ _ H).
Qed.

Lemma issued_requests_are_borrows_witness :
  issued_are_borrows (requests (run scenario library)).
Proof.
  refine (proj1 (issued_requests_are_borrows library (run scenario library) _ _)).
  - apply issued_are_borrows_nil.
  - apply Reachable_run.
Defined.

(** ** One active request per book and user *)

(** C6, counterexample: after [deactivate], user 1 has a pending
    request on book 0; a second [createRequest] by user 1 on book 0
    throws "This book is currently unavailable", not the duplicate
    error. *)
Lemma createRequest_duplicate_error_counterexample :
  let s := run deactivate library in
  let call := createRequest 1 0 "borrow" "" in
  (book <$> requests s !! 0%nat = Some 0%nat
   ∧ user <$> requests s !! 0%nat = Some 1%nat
   ∧ status <$> requests s !! 0%nat = Some pending)
  ∧ outcome call s = Err BookUnavailable
  ∧ ∀ st, outcome call s ≠ Err (DuplicateActive st).
Proof. vm_compute. split_and!; done. Qed.

(** C6, as amended: in every store reachable from one with at most one
    active request per book and user, there is at most one; with an
    active request of the same user on the same book, [createRequest]
    throws and writes nothing, and the error is the duplicate error,
    naming the status of that request, whenever the guards before the
    duplicate check pass (the book exists, is active, and the type and
    file guards pass), and otherwise the error of the first of these
    guards that fails; no call other than [createRequest] changes the
    number of requests. *)
Theorem one_active_request_per_pair s0 s :
  one_active_per_pair (requests s0) → Reachable s0 s →
  one_active_per_pair (requests s)
  ∧ (∀ userId bookId ty note j ex,
       requests s !! j = Some ex → book ex = bookId → user ex = userId →
       is_active (status ex) = true →
       (∃ e, outcome (createRequest userId bookId ty note) s = Err e)
       ∧ after (createRequest userId bookId ty note) s = s)
  ∧ (∀ userId bookId ty note j ex bk,
       requests s !! j = Some ex → book ex = bookId → user ex = userId →
       is_active (status ex) = true →
       books s !! bookId = Some bk → isActive bk = true →
       type_guard bk ty = None →
       ∃ st, is_active st = true
             ∧ outcome (createRequest userId bookId ty note) s
               = Err (DuplicateActive st))
  ∧ (∀ userId bookId ty note j ex,
       requests s !! j = Some ex → book ex = bookId → user ex = userId →
       is_active (status ex) = true →
       outcome (createRequest userId bookId ty note) s
       = Err match books s !! bookId with
             | None => BookNotFound
             | Some bk =>
                 if negb (isActive bk) then BookUnavailable
                 else match type_guard bk ty with
                      | Some e => e
                      | None => DuplicateActive (status ex)
                      end
             end)
  ∧ (∀ a, is_create a = false →
          length (requests (exec a s)) = length (requests s)).
Proof.
  intros H0 Hreach.
  assert (Hone : one_active_per_pair (requests s)).
  { by apply (Reachable_invariant (λ s, one_active_per_pair (requests s)) s0 s
                exec_one_active). }
  assert (Hdup : ∀ userId bookId j ex,
            requests s !! j = Some ex → book ex = bookId → user ex = userId →
            is_active (status ex) = true →
            ¬ no_active (requests s) bookId userId).
  { intros u b j ex Hj Hb Hu Ha Hno. specialize (Hno j ex Hj).
    unfold q_active in Hno. by rewrite Ha, !bool_decide_eq_true_2 in Hno. }
  split_and!.
  - done.
  - intros u b ty note j ex Hj Hb Hu Ha.
    apply createRequest_duplicate_fails. by eapply Hdup.
  - intros u b ty note j ex bk Hj Hb Hu Ha Hbk Hact Hguard.
    destruct (createRequest_duplicate_error u b ty note s bk)
      as (j' & ex' & _ & _ & _ & Ha' & Hout); [by eapply Hdup|done..|].
    by exists (status ex').
  - intros u b ty note j ex Hj Hb Hu Ha.
    destruct (createRequest_first_guard u b ty note s) as (Hg1 & Hg2 & Hg3).
    unfold outcome.
    destruct (books s !! b) as [bk|] eqn:Hbk; [|by rewrite Hg1].
    destruct (isActive bk) eqn:Hact; simpl; [|by rewrite (Hg2 bk)].
    destruct (type_guard bk ty) as [e|] eqn:Hguard; [by rewrite (Hg3 bk e)|].
    destruct (createRequest_duplicate_error u b ty note s bk)
      as (j' & ex' & Hj' & Hb' & Hu' & Ha' & Hout); [by eapply Hdup|done..|].
    unfold outcome in Hout. rewrite Hout.
    assert (j = j') as <- by (eapply Hone; eauto; congruence).
    congruence.
  - intros a. apply exec_length.
Qed.

Lemma one_active_request_per_pair_witness :
  one_active_per_pair (requests (run scenario library)).
Proof.
  refine (proj1 (one_active_request_per_pair library (run scenario library) _ _)).
  - apply one_active_nil.
  - apply Reachable_run.
Defined.

(** ** Creation of borrow requests *)

Lemma type_guard_borrow bk :
  bookType bk ≠ digital → type_guard bk "borrow" = None.
Proof.
  intros H. unfold type_guard. simpl. by rewrite bool_decide_eq_false_2.
Qed.

(** C7: a borrow request on an active book with no available copy, all
    other guards passing (the book is not digital-only, the user has no
    active request on it, the note is within its length limit), does not
    fail: the new request is waitlisted at the number of requests
    currently waitlisted for the book plus one, and no book changes. *)
Theorem createRequest_joins_waitlist s userId bookId note bk :
  books s !! bookId = Some bk → isActive bk = true →
  physical_availableCopies bk = 0 →
  bookType bk ≠ digital → no_active (requests s) bookId userId →
  (String.length (trim note) ≤ 300)%nat →
  let call := createRequest userId bookId "borrow" note in
  ∃ r, outcome call s = Ok (length (requests s), r)
       ∧ status r = waitlisted
       ∧ waitlistPosition r
         = Some (Z.of_nat (length (waitlist (requests s) bookId)) + 1)
       ∧ book r = bookId ∧ user r = userId ∧ requestType r = borrow
       ∧ requests (after call s) = requests s ++ [r]
       ∧ books (after call s) = books s.
Proof.
  intros Hbk Hact Hzero Hty Hno Hnote call. subst call.
  unfold outcome, after.
  rewrite (createRequest_guarded _ _ _ _ _ bk)
    by auto using type_guard_borrow.
  rewrite (proj1 (list_find_no_active _ _ _) Hno). simpl.
  rewrite Hzero. simpl.
  rewrite BookRequest_create_borrow by done. simpl.
  eexists. split_and!; done.
Qed.

Lemma createRequest_joins_waitlist_witness :
  let s := run lend_out library in
  ∃ r, outcome (createRequest 2 0 "borrow" "") s = Ok (1%nat, r)
       ∧ status r = waitlisted ∧ waitlistPosition r = Some 1.
Proof.
  intros s.
  destruct (createRequest_joins_waitlist s 2 0 "" (set_availableCopies 0 one_copy))
    as (r & Hout & Hst & Hpos & _).
  - reflexivity.
  - reflexivity.
  - reflexivity.
  - simpl. discriminate.
  - apply list_find_no_active. reflexivity.
  - simpl. lia.
  - exists r. split_and!; [exact Hout|exact Hst|exact Hpos].
Defined.

(** C9, counterexample: after [digitise] book 0 is active and shows 1
    available copy, and nobody has a request on it; a borrow request
    throws "This is a digital-only book. Use download request.". *)
Lemma createRequest_pending_counterexample :
  let s := run digitise library in
  let call := createRequest 1 0 "borrow" "" in
  isActive <$> books s !! 0%nat = Some true
  ∧ physical_availableCopies <$> books s !! 0%nat = Some 1
  ∧ requests s = []
  ∧ outcome call s = Err DigitalOnly
  ∧ ¬ is_Ok (outcome call s).
Proof. vm_compute. split_and!; auto. Qed.

(** C9, as amended: a borrow request on an active book that is not
    digital-only and has an available copy, by a user with no active
    request on the book and with a note within its length limit, returns
    a pending request without a position; the books, hence both copy
    counts, are unchanged: nothing is reserved at creation.  Whatever its
    arguments, [createRequest] changes no book. *)
Theorem createRequest_pending_reserves_nothing s userId bookId note bk :
  books s !! bookId = Some bk → isActive bk = true →
  0 < physical_availableCopies bk →
  bookType bk ≠ digital → no_active (requests s) bookId userId →
  (String.length (trim note) ≤ 300)%nat →
  let call := createRequest userId bookId "borrow" note in
  (∃ r, outcome call s = Ok (length (requests s), r)
        ∧ status r = pending ∧ waitlistPosition r = None
        ∧ book r = bookId ∧ user r = userId ∧ requestType r = borrow
        ∧ requests (after call s) = requests s ++ [r])
  ∧ books (after call s) = books s
  ∧ books (after call s) !! bookId = Some bk
  ∧ ∀ userId' bookId' ty note',
      books (after (createRequest userId' bookId' ty note') s) = books s.
Proof.
  intros Hbk Hact Hpos Hty Hno Hnote call. subst call.
  split_and!.
  - unfold outcome, after.
    rewrite (createRequest_guarded _ _ _ _ _ bk)
      by auto using type_guard_borrow.
    rewrite (proj1 (list_find_no_active _ _ _) Hno). simpl.
    rewrite (proj2 (Z.ltb_lt _ _)) by done.
    rewrite BookRequest_create_borrow by done. simpl.
    eexists. split_and!; done.
  - apply createRequest_books.
  - by rewrite createRequest_books.
  - intros *. apply createRequest_books.
Qed.

Lemma createRequest_pending_reserves_nothing_witness :
  let call := createRequest 1 0 "borrow" "" in
  (∃ r, outcome call library = Ok (0%nat, r) ∧ status r = pending)
  ∧ books (after call library) !! 0%nat = Some one_copy.
Proof.
  intros call.
  destruct (createRequest_pending_reserves_nothing library 1 0 "" one_copy)
    as ((r & Hout & Hst & _) & _ & Hbook & _).
  - reflexivity.
  - reflexivity.
  - simpl. lia.
  - simpl. discriminate.
  - intros i r Hi. simpl in Hi. discriminate.
  - simpl. lia.
  - split; [exists r; split; [exact Hout|exact Hst] | exact Hbook].
Defined.

(** ** Witnesses for [issueBook] and [cancelRequest] *)



Lemma cancelRequest_waitlisted_witness :
  let s := run queue_up library in
  outcome (cancelRequest 2 1) s = Ok tt
  ∧ waitlistPosition <$> requests (after (cancelRequest 2 1) s) !! 2%nat
    = Some (Some 1).
Proof.
  intros s.
  destruct (cancelRequest_waitlisted s 2 1
              (new_request 0 2 borrow "" waitlisted (Some 1)) 1)
    as (Hout & _ & Hbehind & _).
  - reflexivity.
  - reflexivity.
  - reflexivity.
  - reflexivity.
  - reflexivity.
  - split; [exact Hout|].
    rewrite (Hbehind 2%nat (new_request 0 3 borrow "" waitlisted (Some 2)) 2);
      [reflexivity|lia|reflexivity|reflexivity|reflexivity|reflexivity|lia].
Defined.

(** ** The standing assumptions are invariants too *)

Lemma inc_insert_valid q d l i c :
  request_validate c = true → requests_valid l →
  requests_valid (inc_positions q d (<[i := c]> l)).1.
Proof.
  intros Hc Hl j r' (x & Hx & Hr')%inc_positions_lookup.
  assert (request_validate x = true) as Hvx.
  { apply list_lookup_insert_Some in Hx as [(_ & <- & _) | [_ Hx]]; [done|].
    by eapply Hl. }
  by destruct Hr' as [-> | (p & _ & _ & ->)].
Qed.

Lemma inc_insert_positions q d l i c :
  waitlistPosition c = None →
  (∀ x, q x = true → status x = waitlisted) →
  positions_only_waitlisted l →
  positions_only_waitlisted (inc_positions q d (<[i := c]> l)).1.
Proof.
  intros Hc Hq Hl j r' (x & Hx & Hr')%inc_positions_lookup Hst.
  destruct Hr' as [-> | (p & Hqx%Hq & _ & ->)]; [|done].
  apply list_lookup_insert_Some in Hx as [(_ & <- & _) | [_ Hx]]; [done|].
  by eapply Hl.
Qed.

Lemma q_behind_waitlisted bookId k x :
  q_behind bookId k x = true → status x = waitlisted.
Proof.
  unfold q_behind. by intros [[_ ?]%q_waitlisted_true _]%andb_true_iff.
Qed.

Lemma req_prim_valid f c l l' :
  req_prim f c l l' → requests_valid l → requests_valid l'.
Proof.
  destruct 1 as [l i r r' Hi (_ & _ & _ & Hnote) _ _ _ _ _ | l i r Hi _
                 | l bookId now | l r _ Hv _ _ _ | l r _ Hv _ _ _]; intros Hl.
  - apply requests_valid_insert; [done|].
    unfold request_validate. rewrite Hnote. apply (Hl _ _ Hi).
  - apply inc_insert_valid; [|done]. apply (Hl _ _ Hi).
  - unfold promote_list.
    destruct (list_find _ l) as [[i r]|]; [|done].
    destruct (request_validate _) eqn:Hv; [|done].
    by apply inc_insert_valid.
  - intros j x [[_ Hj] | [_ <-]]%lookup_snoc_Some; [by eapply Hl|done].
  - intros j x [[_ Hj] | [_ <-]]%lookup_snoc_Some; [by eapply Hl|done].
Qed.

Lemma req_prim_positions f c l l' :
  req_prim f c l l' →
  positions_only_waitlisted l → positions_only_waitlisted l'.
Proof.
  destruct 1 as [l i r r' Hi _ _ Hr _ Hpos _ | l i r Hi _
                 | l bookId now | l r _ _ _ Hpos _ | l r _ _ Hst _ _]; intros Hl.
  - intros j x [(_ & <- & _) | [_ Hj]]%list_lookup_insert_Some Hx.
    + apply Hpos. by eapply Hl.
    + by eapply Hl.
  - apply inc_insert_positions; [done| |done]. apply q_behind_waitlisted.
  - unfold promote_list.
    destruct (list_find _ l) as [[i r]|]; [|done].
    destruct (request_validate _); [|done].
    apply inc_insert_positions; [done| |done].
    by intros x [_ ?]%q_waitlisted_true.
  - intros j x [[_ Hj] | [_ <-]]%lookup_snoc_Some Hx; [by eapply Hl|done].
  - intros j x [[_ Hj] | [_ <-]]%lookup_snoc_Some Hx; [by eapply Hl|done].
Qed.

Lemma book_pre_save_valid b :
  book_validate b = true → book_validate (book_pre_save b) = true.
Proof.
  intros Hv. unfold book_pre_save. destruct (_ <? _); [|done].
  unfold book_validate in *. simpl.
  apply andb_true_iff in Hv as [[Ht _]%andb_true_iff Hd].
  by rewrite Ht, Hd.
Qed.

Lemma book_prim_valid m m' :
  book_prim m m' →
  (∀ id b, m !! id = Some b → book_validate b = true) →
  ∀ id b, m' !! id = Some b → book_validate b = true.
Proof.
  destruct 1 as [m | m id0 b0 Hval]; [done|].
  intros Hm id b. rewrite lookup_insert. case_decide.
  - intros [= <-]. by apply book_pre_save_valid.
  - apply Hm.
Qed.

Lemma book_prim_is_Some m m' id :
  book_prim m m' → is_Some (m !! id) → is_Some (m' !! id).
Proof.
  destruct 1 as [m | m id0 b0 Hval]; [done|].
  rewrite lookup_insert. by case_decide.
Qed.

(** A request that [createRequest] stores names the book it looked up. *)
Lemma createRequest_appends userId bookId ty note s :
  requests (after (createRequest userId bookId ty note) s) = requests s
  ∨ ∃ r, requests (after (createRequest userId bookId ty note) s)
         = requests s ++ [r]
         ∧ book r = bookId ∧ is_Some (books s !! bookId).
Proof.
  unfold createRequest, after, bind, Book_findById, BookRequest_findOne,
    BookRequest_countDocuments, gets, throw. simpl.
  destruct (books s !! bookId) as [bk|]; [|by left].
  destruct (negb (isActive bk)); [by left|].
  destruct (_ && _); [by left|]. destruct (_ && _); [by left|].
  destruct (_ && _); [by left|].
  destruct (list_find _ (requests s)) as [[j ex]|]; [by left|].
  assert (Hcreate : ∀ st pos,
    requests (BookRequest_create bookId userId ty note st pos s).1 = requests s
    ∨ ∃ r, requests (BookRequest_create bookId userId ty note st pos s).1
           = requests s ++ [r] ∧ book r = bookId ∧ is_Some (Some bk)).
  { intros st pos. unfold BookRequest_create.
    destruct (parse_requestType ty); [|by left].
    destruct (request_validate _); [|by left]. right. by eexists. }
  destruct (String.eqb ty "download"); [apply Hcreate|].
  destruct (0 <? physical_availableCopies bk); apply Hcreate.
Qed.

Lemma rtc_req_prim_valid f c l l' :
  rtc (req_prim f c) l l' → requests_valid l → requests_valid l'.
Proof. induction 1; eauto using req_prim_valid. Qed.

Lemma rtc_req_prim_positions f c l l' :
  rtc (req_prim f c) l l' →
  positions_only_waitlisted l → positions_only_waitlisted l'.
Proof. induction 1; eauto using req_prim_positions. Qed.

Lemma exec_store_wf a s : store_wf s → store_wf (exec a s).
Proof.
  intros (Hv & Hp & Hb & Href).
  pose proof (exec_requests a s) as Hreq.
  pose proof (exec_books a s) as Hbooks.
  split_and!.
  - by eapply rtc_req_prim_valid.
  - by eapply rtc_req_prim_positions.
  - by eapply book_prim_valid.
  - destruct (is_create a) eqn:Ha.
    + destruct a; try done. simpl in *.
      rewrite createRequest_books.
      destruct (createRequest_appends userId bookId requestType0 userNote0 s)
        as [-> | (r & -> & Hbr & Hsome)]; [done|].
      intros i x [[_ Hi] | [_ <-]]%lookup_snoc_Some; [by eapply Href|].
      by rewrite Hbr.
    + apply rtc_req_prim_evolves in Hreq as [_ Hev].
      intros i x (x0 & Hx0 & (Hbx & _) & _)%Hev.
      rewrite Hbx. eapply book_prim_is_Some; [done|]. by eapply Href.
Qed.

Lemma library_wf : store_wf library.
Proof.
  split_and!; try done.
  intros id b. simpl. by intros [<- <-]%lookup_singleton_Some.
Qed.

Lemma Reachable_store_wf s0 s : store_wf s0 → Reachable s0 s → store_wf s.
Proof. apply Reachable_invariant, exec_store_wf. Qed.

(** * Further properties of the library module *)

(** ** One call, one request at a time *)

Lemma inc_insert_lookup q d l i r c k r' :
  l !! i = Some r → status c ≠ waitlisted →
  (∀ x, q x = true → status x = waitlisted) →
  (inc_positions q d (<[i := c]> l)).1 !! k = Some r' →
  (k = i ∧ r' = c)
  ∨ (k ≠ i ∧ ∃ x, l !! k = Some x
       ∧ (r' = x ∨ ∃ p, q x = true ∧ waitlistPosition x = Some p
                        ∧ r' = set_waitlistPosition (Some (p + d)) x)).
Proof.
  intros Hi Hc Hq (x & Hx & Hr')%inc_positions_lookup.
  apply list_lookup_insert_Some in Hx as [(<- & <- & _) | [Hne Hx]].
  - left. split; [done|]. destruct Hr' as [-> | (p & Hqc%Hq & _)]; done.
  - right. split; [done|]. by exists x.
Qed.

Lemma kept_same b l k r : l !! k = Some r → kept b l k r.
Proof. intros H. exists r. split_and!; [done|constructor|done]. Qed.

Lemma doc_change_terminal r r' :
  is_active (status r) = false → doc_change r r' → r' = r.
Proof.
  intros Hin Hc.
  destruct Hc as [| r p Hst | r now Hst | r [Hst|Hst] | r ? ? Hst
                  | r ? ? ? [Hst|Hst] | r ? ? ? Hst | r ? ? Hst];
    try done; by rewrite Hst in Hin.
Qed.

Lemma promote_list_pointwise bookId now l k r' :
  promote_list bookId now l !! k = Some r' → kept (Some bookId) l k r'.
Proof.
  unfold promote_list.
  destruct (list_find _ l) as [[j h]|] eqn:Hfind; [|apply kept_same].
  destruct (request_validate _); [|apply kept_same].
  apply list_find_Some in Hfind as (Hj & Hhead & _).
  apply andb_true_iff in Hhead as [[Hb Hst]%q_waitlisted_true Hone%bool_decide_eq_true].
  intros [[-> ->] | (Hk & x & Hx & Hr')]%(inc_insert_lookup _ _ _ _ h); try done.
  - exists h. split_and!; [done|by constructor|]. intros _. by rewrite Hb.
  - destruct Hr' as [-> | (p & [Hbx Hstx]%q_waitlisted_true & Hp & ->)];
      [by apply kept_same|].
    exists x. split_and!; [done|by apply dc_move_up|]. intros _. by rewrite Hbx.
  - by intros x [_ ?]%q_waitlisted_true.
Qed.

Lemma cancelRequest_pointwise userId requestId s k r' :
  requests (after (cancelRequest userId requestId) s) !! k = Some r' →
  kept (book <$> requests s !! requestId) (requests s) k r'.
Proof.
  unfold cancelRequest. svc_simpl.
  destruct (requests s !! requestId) as [r|] eqn:Hr; [|apply kept_same].
  destruct (negb (bool_decide (user r = userId))); [apply kept_same|].
  destruct (bool_decide (status r ∈ [pending; waitlisted])) eqn:Hst;
    [|apply kept_same].
  simpl. destruct (request_validate _); [|apply kept_same]. simpl.
  apply bool_decide_eq_true in Hst.
  rewrite !elem_of_cons, elem_of_nil in Hst.
  assert (Hst' : status r = pending ∨ status r = waitlisted) by tauto.
  case_bool_decide as Hw; simpl.
  - intros [[-> ->] | (Hk & x & Hx & Hr')]%(inc_insert_lookup _ _ _ _ r);
      [| |done|done|apply q_behind_waitlisted].
    + exists r. split_and!; [done|by constructor|done].
    + destruct Hr' as [-> | (p & Hq & Hp & ->)]; [by apply kept_same|].
      pose proof (q_behind_waitlisted _ _ _ Hq) as Hstx.
      apply andb_true_iff in Hq as [[Hbx _]%q_waitlisted_true _].
      exists x. split_and!; [done|by apply dc_move_up|].
      intros _. by rewrite Hbx.
  - intros [(<- & <- & _) | [_ Hx]]%list_lookup_insert_Some;
      [|by apply kept_same].
    exists r. split_and!; [done|by constructor|done].
Qed.

Lemma approveRequest_pointwise librarianId requestId now s k r' :
  requests (after (approveRequest librarianId requestId now) s) !! k = Some r' →
  kept (book <$> requests s !! requestId) (requests s) k r'.
Proof.
  unfold approveRequest. svc_simpl.
  destruct (requests s !! requestId) as [r|] eqn:Hr; [|apply kept_same].
  case_bool_decide as Hst; [|apply kept_same]. simpl.
  destruct (request_validate _); [|apply kept_same]. simpl.
  assert (Hgoal : <[requestId := approved_doc librarianId now r]> (requests s) !! k
                  = Some r' →
                  kept (Some (book r)) (requests s) k r').
  { intros [(<- & <- & _) | [_ Hx]]%list_lookup_insert_Some;
      [|by apply kept_same].
    exists r. split_and!; [done|by constructor|done]. }
  by destruct (books s !! book r).
Qed.

Lemma rejectRequest_pointwise librarianId requestId why now s k r' :
  requests (after (rejectRequest librarianId requestId why now) s) !! k
  = Some r' →
  kept (book <$> requests s !! requestId) (requests s) k r'.
Proof.
  unfold rejectRequest. svc_simpl.
  destruct (requests s !! requestId) as [r|] eqn:Hr; [|apply kept_same].
  case_bool_decide as Hst; [|apply kept_same]. simpl.
  destruct (request_validate _); [|apply kept_same]. simpl.
  rewrite !elem_of_cons, elem_of_nil in Hst.
  assert (Hgoal : <[requestId := rejected_doc librarianId now why r]> (requests s) !! k
                  = Some r' →
                  kept (Some (book r)) (requests s) k r').
  { intros [(<- & <- & _) | [_ Hx]]%list_lookup_insert_Some;
      [|by apply kept_same].
    exists r. split_and!; [done|constructor; tauto|done]. }
  by destruct (books s !! book r).
Qed.

Lemma book_validate_duration b :
  book_validate b = true → 0 ≤ default 0 (borrowDurationDays b).
Proof.
  unfold book_validate. intros [_ H]%andb_true_iff.
  destruct (borrowDurationDays b); simpl; [|done].
  apply Z.leb_le in H. lia.
Qed.

Lemma issueBook_pointwise librarianId requestId now s k r' :
  requests (after (issueBook librarianId requestId now) s) !! k = Some r' →
  kept (book <$> requests s !! requestId) (requests s) k r'.
Proof.
  unfold issueBook. svc_simpl.
  destruct (requests s !! requestId) as [r|] eqn:Hr; [|apply kept_same].
  case_bool_decide as Hst; [|apply kept_same]. simpl.
  case_bool_decide as Hty; [|apply kept_same]. simpl.
  destruct (books s !! book r) as [bk|] eqn:Hbk; [|apply kept_same].
  svc_simpl. rewrite Hbk.
  destruct (physical_availableCopies bk <? 1); [apply kept_same|].
  destruct (book_validate _) eqn:Hv; [|apply kept_same]. svc_simpl.
  destruct (valid_time _) eqn:Hdue; [|apply kept_same]. svc_simpl.
  destruct (request_validate _); [|apply kept_same]. svc_simpl.
  intros [(<- & <- & _) | [_ Hx]]%list_lookup_insert_Some;
    [|by apply kept_same].
  exists r. split_and!; [done| |done]. constructor; [done..| |done].
  apply book_validate_duration in Hv. simpl in Hv. unfold ms_per_day. nia.
Qed.

Lemma returnBook_pointwise librarianId requestId now now' s k r' :
  requests (after (returnBook librarianId requestId now now') s) !! k = Some r' →
  kept (book <$> requests s !! requestId) (requests s) k r'.
Proof.
  unfold returnBook, after, bind, BookRequest_findById, Book_findById, gets,
    throw. simpl.
  destruct (requests s !! requestId) as [r|] eqn:Hr; [|apply kept_same].
  case_bool_decide as Hst; [|apply kept_same]. simpl.
  destruct (books s !! book r) as [bk|] eqn:Hbk; [|apply kept_same].
  simpl. rewrite Hbk. unfold Book_save, BookRequest_save, modify, throw.
  destruct (book_validate _); [|apply kept_same]. simpl.
  destruct (request_validate _); [|apply kept_same]. simpl.
  match goal with |- context [promoteWaitlist ?b ?t ?s0] =>
    pose proof (promoteWaitlist_requests b t s0) as Hp; unfold after in Hp;
    destruct (promoteWaitlist b t s0) as [s1 [[]|e]]; simpl in *; rewrite Hp
  end.
  all: intros (x & Hx & Hc & Hb)%promote_list_pointwise.
  all: apply list_lookup_insert_Some in Hx as [(<- & <- & _) | [_ Hx]];
    [|by exists x].
  all: apply doc_change_terminal in Hc as ->; [|done].
  all: exists r; split_and!; [done|by constructor|done].
Qed.

Lemma createRequest_shape userId bookId ty note s :
  requests (after (createRequest userId bookId ty note) s) = requests s
  ∨ ∃ t st pos,
      requests (after (createRequest userId bookId ty note) s)
      = requests s ++ [new_request bookId userId t note st pos]
      ∧ (st = pending ∨ st = waitlisted).
Proof.
  unfold createRequest, after, bind, Book_findById, BookRequest_findOne,
    BookRequest_countDocuments, gets, throw. simpl.
  destruct (books s !! bookId) as [bk|]; [|by left].
  destruct (negb (isActive bk)); [by left|].
  destruct (_ && _); [by left|]. destruct (_ && _); [by left|].
  destruct (_ && _); [by left|].
  destruct (list_find _ (requests s)) as [[j ex]|]; [by left|].
  assert (Hcreate : ∀ st pos, st = pending ∨ st = waitlisted →
    requests (BookRequest_create bookId userId ty note st pos s).1 = requests s
    ∨ ∃ t st' pos',
        requests (BookRequest_create bookId userId ty note st pos s).1
        = requests s ++ [new_request bookId userId t note st' pos']
        ∧ (st' = pending ∨ st' = waitlisted)).
  { intros st pos Hst. unfold BookRequest_create.
    destruct (parse_requestType ty); [|by left].
    destruct (request_validate _); [|by left]. right. by eexists _, _, _. }
  destruct (String.eqb ty "download"); [apply Hcreate; by left|].
  destruct (0 <? physical_availableCopies bk); apply Hcreate; [by left|by right].
Qed.

(** The master lemma: after any call, the request at an index is the
    one that was there, changed at most once and only if it belongs to
    the touched book, or it is the request [createRequest] just added. *)
Lemma exec_pointwise a s k r' :
  requests (exec a s) !! k = Some r' →
  kept (touched_book a s) (requests s) k r'
  ∨ (k = length (requests s) ∧ is_create a = true
     ∧ ∃ b u t note st pos,
         r' = new_request b u t note st pos
         ∧ touched_book a s = Some b
         ∧ (st = pending ∨ st = waitlisted)).
Proof.
  destruct a; simpl.
  - destruct (createRequest_shape userId bookId requestType0 userNote0 s)
      as [-> | (t & st & pos & -> & Hst)]; [left; by apply kept_same|].
    intros [[_ Hk] | [-> <-]]%lookup_snoc_Some; [left; by apply kept_same|].
    right. split_and!; [done..|]. by eexists _, _, _, _, _, _.
  - left. by eapply cancelRequest_pointwise.
  - left. by eapply approveRequest_pointwise.
  - left. by eapply rejectRequest_pointwise.
  - left. by eapply issueBook_pointwise.
  - left. by eapply returnBook_pointwise.
  - rewrite updateBook_requests. left. by apply kept_same.
Qed.

Lemma exec_lookup_is_Some a s k :
  is_Some (requests s !! k) → is_Some (requests (exec a s) !! k).
Proof.
  rewrite !lookup_lt_is_Some. intros Hk.
  destruct (is_create a) eqn:Ha; [|by rewrite exec_length].
  destruct a; try done. simpl.
  destruct (createRequest_shape userId bookId requestType0 userNote0 s)
    as [-> | (t & st & pos & -> & _)]; [done|].
  rewrite length_app. lia.
Qed.

Lemma exec_kept a s k r :
  requests s !! k = Some r →
  ∃ r', requests (exec a s) !! k = Some r'
        ∧ doc_change r r' ∧ (r' ≠ r → touched_book a s = Some (book r)).
Proof.
  intros Hk. destruct (exec_lookup_is_Some a s k) as [r' Hr']; [by eauto|].
  exists r'. split; [done|].
  destruct (exec_pointwise a s k r' Hr') as [(r0 & Hr0 & Hc & Hb) | (-> & _)].
  - rewrite Hk in Hr0. by injection Hr0 as <-.
  - apply lookup_lt_Some in Hk. lia.
Qed.

Lemma doc_change_same_ref r r' : doc_change r r' → same_ref r r'.
Proof. by destruct 1. Qed.

Lemma doc_change_transition r r' :
  doc_change r r' →
  status r' = status r ∨ transition (status r) (status r') = true.
Proof.
  destruct 1 as [| r p Hst | r now Hst | r [Hst|Hst] | r ? ? Hst
                 | r ? ? ? [Hst|Hst] | r ? ? ? Hst | r ? ? Hst];
    simpl; rewrite ?Hst; auto.
Qed.

(** X1: a request that is rejected, returned or cancelled is final: no
    sequence of calls changes any of its fields. *)
Theorem terminal_requests_are_final s0 s k r :
  Reachable s0 s → requests s0 !! k = Some r →
  is_active (status r) = false →
  requests s !! k = Some r.
Proof.
  intros Hreach Hk Hterm. induction Hreach as [|s a _ IH]; [done|].
  destruct (exec_kept a s k r IH) as (r' & Hr' & Hc & _).
  by apply doc_change_terminal in Hc as ->.
Qed.

Lemma terminal_requests_are_final_witness :
  let s0 := run scenario library in
  requests
    (run [ CancelRequest 2 1; ApproveRequest 9 1 400; IssueBook 9 1 500;
           CreateRequest 2 0 "borrow" "again"; ReturnBook 9 1 600 601 ] s0)
    !! 1%nat
  = requests s0 !! 1%nat.
Proof.
  intros s0.
  rewrite (terminal_requests_are_final s0 _ 1
             (cancelled_doc (new_request 0 2 borrow "" waitlisted (Some 1)))).
  - reflexivity.
  - apply Reachable_run.
  - reflexivity.
  - reflexivity.
Defined.

(** X2: requests are never removed, and the book, the user, the request
    type and the note of a request never change. *)
Theorem requests_keep_their_identity s0 s k r :
  Reachable s0 s → requests s0 !! k = Some r →
  ∃ r', requests s !! k = Some r'
        ∧ book r' = book r ∧ user r' = user r
        ∧ requestType r' = requestType r ∧ userNote r' = userNote r.
Proof.
  intros Hreach Hk. induction Hreach as [|s a _ IH]; [by exists r|].
  destruct IH as (r1 & Hr1 & Hb & Hu & Ht & Hn).
  destruct (exec_kept a s k r1 Hr1)
    as (r' & Hr' & (Hb' & Hu' & Ht' & Hn')%doc_change_same_ref & _).
  exists r'. split_and!; [done|congruence..].
Qed.

Lemma requests_keep_their_identity_witness :
  ∃ r', requests (run scenario library) !! 2%nat = Some r'
        ∧ book r' = 0%nat ∧ user r' = 3%nat
        ∧ requestType r' = borrow ∧ userNote r' = "".
Proof.
  apply (requests_keep_their_identity (run queue_up library)
           (run scenario library) 2
           (new_request 0 3 borrow "" waitlisted (Some 2))).
  - change (run scenario library)
      with (run [CancelRequest 2 1; ReturnBook 9 0 300 301]
              (run queue_up library)).
    apply Reachable_run.
  - reflexivity.
Defined.

(** X3: whatever the call, the status of a request either stays or
    moves along one edge of the life cycle: pending to approved,
    rejected or cancelled; approved to rejected or issued; issued to
    returned; waitlisted to pending or cancelled. *)
Theorem status_moves_along_the_life_cycle a s k r r' :
  requests s !! k = Some r → requests (exec a s) !! k = Some r' →
  status r' = status r ∨ transition (status r) (status r') = true.
Proof.
  intros Hk Hk'. destruct (exec_kept a s k r Hk) as (r1 & Hr1 & Hc & _).
  rewrite Hk' in Hr1. injection Hr1 as <-. by apply doc_change_transition.
Qed.

Lemma status_moves_along_the_life_cycle_witness :
  transition waitlisted pending = true.
Proof.
  destruct (status_moves_along_the_life_cycle (ReturnBook 9 0 300 301)
              (run (queue_up ++ [CancelRequest 2 1]) library) 2
              (new_request 0 3 borrow "" waitlisted (Some 1))
              (promoted_doc 301 (new_request 0 3 borrow "" waitlisted (Some 1))))
    as [H|H].
  - reflexivity.
  - reflexivity.
  - discriminate H.
  - exact H.
Defined.

Lemma doc_change_audit r r' : doc_change r r' → audit_ok r → audit_ok r'.
Proof.
  unfold audit_ok.
  destruct 1 as [| r p Hst | r now Hst | r [Hst|Hst] | r ? ? Hst
                 | r ? ? ? [Hst|Hst] | r ? ? ? Hst ? ? | r ? ? Hst];
    try done; simpl; rewrite ?Hst;
    intros (Happ & Hrej & Hiss & Hret & Hdue);
    split_and!; try done; try (intros [?|[?|?]]; done);
    try (intros [?|?]; done); try (intros ?%Hdue; intuition congruence);
    eauto 10.
Qed.

Lemma exec_audit a s :
  (∀ k r, requests s !! k = Some r → audit_ok r) →
  ∀ k r, requests (exec a s) !! k = Some r → audit_ok r.
Proof.
  intros IH k r' [(r & Hr & Hc & _) | (_ & _ & Hnew)]%exec_pointwise.
  - eapply doc_change_audit; [done|]. by eapply IH.
  - destruct Hnew as (b & u & t & note & st & pos & -> & _ & Hst).
    unfold audit_ok. simpl.
    split_and!; try (intros [?|[?|?]]; destruct Hst; congruence);
      try (intros [?|?]; destruct Hst; congruence);
      try (intros ?; destruct Hst; congruence).
    by intros [? ?].
Qed.

(** X4: the audit trail is an invariant: in every reachable store an
    approved, issued or returned request names its approver and the time,
    a rejected one its rejecter, an issued or returned one its issuer,
    the issue time and a due date, which is a date and not before the
    issue time (it is the issue time for a book without a loan period),
    a returned one the time of return; and only issued or returned
    requests have a due date. *)
Theorem audit_trail_is_kept s0 s :
  (∀ k r, requests s0 !! k = Some r → audit_ok r) → Reachable s0 s →
  ∀ k r, requests s !! k = Some r → audit_ok r.
Proof.
  intros H0 Hreach. induction Hreach as [|s a _ IH]; [done|].
  by apply exec_audit.
Qed.

Lemma audit_trail_is_kept_witness :
  audit_ok
    (returned_doc 9 300
       (issued_doc 9 200 (200 + 14 * ms_per_day)
          (approved_doc 9 100 (new_request 0 1 borrow "" pending None)))).
Proof.
  apply (audit_trail_is_kept library (run scenario library)) with (k := 0%nat).
  - intros k r Hk. simpl in Hk. discriminate Hk.
  - apply Reachable_run.
  - reflexivity.
Defined.

(** ** Calls on one book leave the others alone *)

Lemma issueBook_books_frame librarianId requestId now s b :
  book <$> requests s !! requestId ≠ Some b →
  books (after (issueBook librarianId requestId now) s) !! b = books s !! b.
Proof.
  unfold issueBook. svc_simpl.
  destruct (requests s !! requestId) as [r|]; [|done]. simpl. intros Hb.
  destruct (negb _); [done|]. destruct (negb _); [done|].
  destruct (books s !! book r) as [bk|] eqn:Hbk; [|done].
  svc_simpl. rewrite Hbk.
  destruct (physical_availableCopies bk <? 1); [done|].
  destruct (book_validate _); [|done]. svc_simpl.
  destruct (valid_time _); simpl; [|apply lookup_insert_ne; congruence].
  destruct (request_validate _); simpl; apply lookup_insert_ne; congruence.
Qed.

Lemma returnBook_books_frame librarianId requestId now now' s b :
  book <$> requests s !! requestId ≠ Some b →
  books (after (returnBook librarianId requestId now now') s) !! b
  = books s !! b.
Proof.
  unfold returnBook, after, bind, BookRequest_findById, Book_findById, gets,
    throw. simpl.
  destruct (requests s !! requestId) as [r|]; [|done]. simpl. intros Hb.
  destruct (negb _); [done|]. simpl.
  destruct (books s !! book r) as [bk|] eqn:Hbk; [|done].
  simpl. rewrite Hbk. unfold Book_save, BookRequest_save, modify, throw.
  destruct (book_validate _); [|done]. simpl.
  destruct (request_validate _); simpl;
    [|apply lookup_insert_ne; congruence].
  match goal with |- context [promoteWaitlist ?b ?t ?s0] =>
    pose proof (promoteWaitlist_books b t s0) as Hp; unfold after in Hp;
    destruct (promoteWaitlist b t s0) as [s1 [[]|e]]; simpl in *; rewrite Hp
  end; apply lookup_insert_ne; congruence.
Qed.

Lemma updateBook_books_frame bookId upd s b :
  bookId ≠ b → books (after (updateBook bookId upd) s) !! b = books s !! b.
Proof.
  intros Hb. unfold updateBook. svc_simpl.
  destruct (books s !! bookId); [|done].
  destruct (book_validate _); simpl; [|done]. by apply lookup_insert_ne.
Qed.

(** X5: a call changes nothing outside the book it is about: every
    request of another book and every other book is exactly as before. *)
Theorem other_books_are_untouched a s b :
  touched_book a s ≠ Some b →
  (∀ k r, requests s !! k = Some r → book r = b →
          requests (exec a s) !! k = Some r)
  ∧ books (exec a s) !! b = books s !! b.
Proof.
  intros Hb. split.
  - intros k r Hk Hbr.
    destruct (exec_kept a s k r Hk) as (r' & Hr' & _ & Htouched).
    destruct (decide (r' = r)) as [->|Hne]; [done|].
    destruct Hb. rewrite (Htouched Hne). by rewrite Hbr.
  - destruct a; simpl in *.
    + by rewrite createRequest_books.
    + by rewrite cancelRequest_books.
    + by rewrite approveRequest_books.
    + by rewrite rejectRequest_books.
    + by apply issueBook_books_frame.
    + by apply returnBook_books_frame.
    + apply updateBook_books_frame. congruence.
Qed.

Lemma other_books_are_untouched_witness :
  let s := run two_queues two_books in
  books (exec (ReturnBook 9 0 300 301) s) !! 1%nat = books s !! 1%nat
  ∧ requests (exec (ReturnBook 9 0 300 301) s) !! 1%nat = requests s !! 1%nat.
Proof.
  intros s.
  destruct (other_books_are_untouched (ReturnBook 9 0 300 301) s 1)
    as [Hreq Hbooks].
  - vm_compute. discriminate.
  - split; [exact Hbooks|].
    rewrite (Hreq 1%nat (new_request 1 1 borrow "" pending None));
      reflexivity.
Defined.

(** ** Errors with a status code are thrown before any write *)

Ltac no_write :=
  simpl; try done;
  try (intros [= <-] [? [=]]).

Lemma BookRequest_create_error bookId userId ty note st pos s e :
  thrown (BookRequest_create bookId userId ty note st pos s).2 = Some e →
  is_Some (statusCode e) →
  (BookRequest_create bookId userId ty note st pos s).1 = s.
Proof.
  unfold BookRequest_create.
  destruct (parse_requestType ty); [|no_write].
  destruct (request_validate _); no_write.
Qed.

Lemma inc_positions_error q d l e :
  (inc_positions q d l).2 = Some e → e = IncNonNumeric.
Proof.
  induction l as [|r rs IH]; [done|]; simpl.
  destruct (q r); [destruct (waitlistPosition r)|];
    try destruct (inc_positions q d rs); simpl in *; auto; congruence.
Qed.

Lemma promoteWaitlist_error bookId now s e :
  thrown (outcome (promoteWaitlist bookId now) s) = Some e →
  statusCode e = None.
Proof.
  unfold promoteWaitlist. svc_simpl.
  destruct (list_find _ (requests s)) as [[i r]|]; [|done]. simpl.
  destruct (request_validate _); [|by intros [= <-]]. simpl.
  destruct (inc_positions _ _ _) as [l' [e'|]] eqn:Hinc; simpl.
  - intros [= <-]. apply (f_equal snd) in Hinc. simpl in Hinc.
    by apply inc_positions_error in Hinc as ->.
  - destruct (books s !! book r); simpl; [done|by intros [= <-]].
Qed.

(** X6: a call that throws an error carrying a status code (404, 403 or
    400) has written nothing: the store is the one before the call. *)
Theorem coded_errors_write_nothing a s e :
  exec_error a s = Some e → is_Some (statusCode e) → exec a s = s.
Proof.
  destruct a; simpl.
  - unfold createRequest, after, outcome, bind, Book_findById,
      BookRequest_findOne, BookRequest_countDocuments, gets, throw. simpl.
    destruct (books s !! bookId) as [bk|]; [|no_write].
    destruct (negb (isActive bk)); [no_write|].
    destruct (_ && _); [no_write|]. destruct (_ && _); [no_write|].
    destruct (_ && _); [no_write|].
    destruct (list_find _ (requests s)) as [[j ex]|]; [no_write|].
    destruct (String.eqb requestType0 "download");
      [apply BookRequest_create_error|].
    destruct (0 <? physical_availableCopies bk);
      apply BookRequest_create_error.
  - unfold cancelRequest. svc_simpl.
    destruct (requests s !! requestId) as [r|]; [|no_write].
    destruct (negb _); [no_write|]. destruct (negb _); [no_write|]. svc_simpl.
    destruct (request_validate _); [|no_write]. svc_simpl.
    case_bool_decide; [|no_write]. svc_simpl.
    rewrite inc_positions_shift_behind. no_write.
  - unfold approveRequest. svc_simpl.
    destruct (requests s !! requestId) as [r|]; [|no_write].
    destruct (negb _); [no_write|]. svc_simpl.
    destruct (request_validate _); [|no_write]. svc_simpl.
    destruct (books s !! book r); no_write.
  - unfold rejectRequest. svc_simpl.
    destruct (requests s !! requestId) as [r|]; [|no_write].
    destruct (negb _); [no_write|]. svc_simpl.
    destruct (request_validate _); [|no_write]. svc_simpl.
    destruct (books s !! book r); no_write.
  - unfold issueBook. svc_simpl.
    destruct (requests s !! requestId) as [r|]; [|no_write].
    destruct (negb _); [no_write|]. destruct (negb _); [no_write|].
    destruct (books s !! book r) as [bk|] eqn:Hbk; [|no_write].
    svc_simpl. rewrite Hbk.
    destruct (physical_availableCopies bk <? 1); [no_write|].
    destruct (book_validate _); [|no_write]. svc_simpl.
    destruct (valid_time _); [|no_write]. svc_simpl.
    destruct (request_validate _); no_write.
  - unfold returnBook, after, outcome, bind, BookRequest_findById,
      Book_findById, gets, throw. simpl.
    destruct (requests s !! requestId) as [r|]; [|no_write].
    destruct (negb _); [no_write|]. simpl.
    destruct (books s !! book r) as [bk|] eqn:Hbk; [|no_write].
    simpl. rewrite Hbk. unfold Book_save, BookRequest_save, modify, throw.
    destruct (book_validate _); [|no_write]. simpl.
    destruct (request_validate _); [|no_write]. simpl.
    match goal with |- context [promoteWaitlist ?b ?t ?s0] =>
      pose proof (promoteWaitlist_error b t s0) as Hp; unfold outcome in Hp;
      destruct (promoteWaitlist b t s0) as [s1 [[]|e']]; simpl in *
    end; [done|].
    intros [= <-] [c Hc]. rewrite Hp in Hc; done.
  - unfold updateBook. svc_simpl.
    destruct (books s !! bookId); [|no_write].
    destruct (book_validate _); no_write.
Qed.

Lemma coded_errors_write_nothing_witness :
  let s := run queue_up library in
  exec (IssueBook 9 1 400) s = s ∧ exec (CancelRequest 3 1) s = s.
Proof.
  intros s. split.
  - apply (coded_errors_write_nothing (IssueBook 9 1 400) s IssueNotApproved).
    + reflexivity.
    + simpl. eauto.
  - apply (coded_errors_write_nothing (CancelRequest 3 1) s NotAuthorized).
    + reflexivity.
    + simpl. eauto.
Defined.

(** ** [approveRequest] and [rejectRequest] *)

(** X7: approving succeeds exactly on a pending request.  It then
    stores the approver and the time on that request, leaves every other
    request and every book (so every copy count) as it was, and notifies
    the requester once; on any other status it throws "Cannot approve a
    request with status: ..." and writes nothing. *)
Theorem approveRequest_succeeds_iff s librarianId requestId now r :
  requests s !! requestId = Some r → request_validate r = true →
  is_Some (books s !! book r) →
  let call := approveRequest librarianId requestId now in
  (is_Ok (outcome call s) ↔ status r = pending)
  ∧ (status r = pending →
     outcome call s = Ok (approved_doc librarianId now r)
     ∧ requests (after call s)
       = <[requestId := approved_doc librarianId now r]> (requests s)
     ∧ books (after call s) = books s
     ∧ outbox (after call s)
       = outbox s ++ [mkNotification (user r) "library:request_approved" requestId])
  ∧ (status r ≠ pending →
     outcome call s = Err (CannotApprove (status r)) ∧ after call s = s).
Proof.
  intros Hr Hv [bk Hbk] call.
  assert (Hok : status r = pending →
    call s = (set_outbox (λ o, o ++ [mkNotification (user r)
                                       "library:request_approved" requestId])
                (set_requests (<[requestId := approved_doc librarianId now r]>) s),
              Ok (approved_doc librarianId now r))).
  { intros Hst. subst call. unfold approveRequest. svc_simpl.
    rewrite Hr, Hst. simpl. rewrite Hbk. svc_simpl.
    unfold request_validate in *. simpl. rewrite Hv. svc_simpl.
    by rewrite ?Hbk. }
  assert (Hfail : status r ≠ pending →
                  call s = (s, Err (CannotApprove (status r)))).
  { intros Hst. subst call. unfold approveRequest. svc_simpl.
    rewrite Hr. simpl. rewrite Hbk. simpl.
    by rewrite bool_decide_eq_false_2 by done. }
  unfold outcome, after. split_and!.
  - split.
    + intros H. destruct (decide (status r = pending)); [done|].
      by rewrite Hfail in H.
    + intros Hst. by rewrite Hok.
  - intros Hst. by rewrite Hok.
  - intros Hst. by rewrite Hfail.
Qed.

Lemma approveRequest_succeeds_iff_witness :
  let s := run (take 1 lend_out) library in
  is_Ok (outcome (approveRequest 9 0 100) s)
  ∧ ¬ is_Ok (outcome (approveRequest 9 0 150) (after (approveRequest 9 0 100) s)).
Proof.
  intros s. split.
  - apply (approveRequest_succeeds_iff s 9 0 100
             (new_request 0 1 borrow "" pending None));
      [reflexivity|reflexivity|vm_compute; eauto|reflexivity].
  - intros H.
    apply (approveRequest_succeeds_iff (after (approveRequest 9 0 100) s) 9 0 150
             (approved_doc 9 100 (new_request 0 1 borrow "" pending None)))
      in H; [discriminate H|reflexivity|reflexivity|vm_compute; eauto].
Defined.

(** X8: rejecting succeeds exactly on a pending or approved request; an
    issued request cannot be rejected.  On success the request stores
    the rejecter, the time and the trimmed reason, "No reason provided"
    when the reason is empty; no other request and no book changes. *)
Theorem rejectRequest_succeeds_iff s librarianId requestId why now r :
  requests s !! requestId = Some r → request_validate r = true →
  is_Some (books s !! book r) →
  let call := rejectRequest librarianId requestId why now in
  (is_Ok (outcome call s) ↔ status r = pending ∨ status r = approved)
  ∧ (status r = pending ∨ status r = approved →
     ∃ r', outcome call s = Ok r'
       ∧ requests (after call s) = <[requestId := r']> (requests s)
       ∧ books (after call s) = books s
       ∧ status r' = rejected
       ∧ rejectedBy r' = Some librarianId ∧ rejectedAt r' = Some now
       ∧ rejectionReason r'
         = (if String.eqb why "" then "No reason provided" else trim why))
  ∧ (¬ (status r = pending ∨ status r = approved) →
     outcome call s = Err (CannotReject (status r)) ∧ after call s = s).
Proof.
  intros Hr Hv [bk Hbk] call.
  assert (Hin : status r ∈ [pending; approved]
                ↔ status r = pending ∨ status r = approved).
  { rewrite !elem_of_cons, elem_of_nil. tauto. }
  assert (Hok : status r = pending ∨ status r = approved →
    call s = (set_outbox (λ o, o ++ [mkNotification (user r)
                                       "library:request_rejected" requestId])
                (set_requests
                   (<[requestId := rejected_doc librarianId now why r]>) s),
              Ok (rejected_doc librarianId now why r))).
  { intros Hst%Hin. subst call. unfold rejectRequest. svc_simpl.
    rewrite Hr. simpl. rewrite Hbk. simpl.
    rewrite bool_decide_eq_true_2 by done. svc_simpl.
    unfold request_validate in *. simpl. rewrite Hv. svc_simpl.
    by rewrite ?Hbk. }
  assert (Hfail : ¬ (status r = pending ∨ status r = approved) →
                  call s = (s, Err (CannotReject (status r)))).
  { intros Hst. rewrite <-Hin in Hst. subst call. unfold rejectRequest.
    svc_simpl. rewrite Hr. simpl. rewrite Hbk. simpl.
    by rewrite bool_decide_eq_false_2 by done. }
  unfold outcome, after. split_and!.
  - split.
    + intros H.
      destruct (decide (status r = pending ∨ status r = approved)); [done|].
      by rewrite Hfail in H.
    + intros Hst. by rewrite Hok.
  - intros Hst. rewrite Hok by done. simpl.
    eexists. split_and!; try done. simpl. by destruct (String.eqb why "").
  - intros Hst. by rewrite Hfail.
Qed.

Lemma rejectRequest_succeeds_iff_witness :
  let s := run lend_out library in
  outcome (rejectRequest 9 0 "late" 400) s = Err (CannotReject issued)
  ∧ is_Ok (outcome (rejectRequest 9 0 "" 400) (run (take 2 lend_out) library)).
Proof.
  intros s. split.
  - apply (rejectRequest_succeeds_iff s 9 0 "late" 400
             (issued_doc 9 200 (200 + 14 * ms_per_day)
                (approved_doc 9 100 (new_request 0 1 borrow "" pending None))));
      [reflexivity|reflexivity|vm_compute; eauto|].
    simpl. intros [H|H]; discriminate H.
  - apply (rejectRequest_succeeds_iff (run (take 2 lend_out) library) 9 0 "" 400
             (approved_doc 9 100 (new_request 0 1 borrow "" pending None)));
      [reflexivity|reflexivity|vm_compute; eauto|].
    right. reflexivity.
Defined.

(** ** The guards of [cancelRequest] *)

(** X9: cancelling a request of another user throws "Not authorized to
    cancel this request" whatever the status of the request; cancelling
    one's own request that is neither pending nor waitlisted throws
    "Cannot cancel a request with status: ..."; neither writes anything.
    Cancelling one's own pending request succeeds and changes that
    request alone: no position, no other request and no book changes. *)
Theorem cancelRequest_guards s userId requestId r :
  requests s !! requestId = Some r → request_validate r = true →
  let call := cancelRequest userId requestId in
  (user r ≠ userId →
   outcome call s = Err NotAuthorized ∧ after call s = s)
  ∧ (user r = userId → status r ≠ pending → status r ≠ waitlisted →
     outcome call s = Err (CannotCancel (status r)) ∧ after call s = s)
  ∧ (user r = userId → status r = pending →
     outcome call s = Ok tt
     ∧ requests (after call s) = <[requestId := cancelled_doc r]> (requests s)
     ∧ books (after call s) = books s
     ∧ outbox (after call s) = outbox s).
Proof.
  intros Hr Hv call. subst call. unfold outcome, after, cancelRequest.
  svc_simpl. rewrite Hr. simpl. split_and!.
  - intros Hu. by rewrite bool_decide_eq_false_2 by done.
  - intros Hu Hp Hw. rewrite bool_decide_eq_true_2 by done. simpl.
    rewrite bool_decide_eq_false_2; [done|].
    rewrite !elem_of_cons, elem_of_nil. tauto.
  - intros Hu Hp. rewrite bool_decide_eq_true_2 by done. simpl.
    rewrite Hp. simpl.
    unfold request_validate in *. simpl. by rewrite Hv.
Qed.

Lemma cancelRequest_guards_witness :
  let s := run lend_out library in
  outcome (cancelRequest 2 0) s = Err NotAuthorized
  ∧ outcome (cancelRequest 1 0) s = Err (CannotCancel issued)
  ∧ outcome (cancelRequest 1 0) (run (take 1 lend_out) library) = Ok tt.
Proof.
  intros s.
  destruct (cancelRequest_guards s 2 0
              (issued_doc 9 200 (200 + 14 * ms_per_day)
                 (approved_doc 9 100 (new_request 0 1 borrow "" pending None))))
    as (H1 & _); [reflexivity..|].
  destruct (cancelRequest_guards s 1 0
              (issued_doc 9 200 (200 + 14 * ms_per_day)
                 (approved_doc 9 100 (new_request 0 1 borrow "" pending None))))
    as (_ & H2 & _); [reflexivity..|].
  destruct (cancelRequest_guards (run (take 1 lend_out) library) 1 0
              (new_request 0 1 borrow "" pending None))
    as (_ & _ & H3); [reflexivity..|].
  split_and!.
  - apply H1. simpl. lia.
  - apply H2; [reflexivity|discriminate|discriminate].
  - apply H3; reflexivity.
Defined.

(** ** Download requests *)

(** X10: a download request on an active book by a user without an
    active request on it: on a physical-only book it throws "This is a
    physical-only book. Use borrow request."; otherwise, with no file
    uploaded, "Digital file is not yet available for this book."; and
    otherwise it is stored as pending whatever the number of available
    copies: a download is never waitlisted and changes no book. *)
Theorem createRequest_download s userId bookId note bk :
  books s !! bookId = Some bk → isActive bk = true →
  no_active (requests s) bookId userId →
  (String.length (trim note) ≤ 300)%nat →
  let call := createRequest userId bookId "download" note in
  (bookType bk = physical →
   outcome call s = Err PhysicalOnly ∧ after call s = s)
  ∧ (bookType bk ≠ physical → digital_fileUrl bk = "" →
     outcome call s = Err FileNotAvailable ∧ after call s = s)
  ∧ (bookType bk ≠ physical → digital_fileUrl bk ≠ "" →
     let r := new_request bookId userId download note pending None in
     outcome call s = Ok (length (requests s), r)
     ∧ requests (after call s) = requests s ++ [r]
     ∧ books (after call s) = books s).
Proof.
  intros Hbk Hact Hno Hnote call. subst call.
  unfold outcome, after, createRequest. svc_simpl. rewrite Hbk, Hact. simpl.
  split_and!.
  - intros ->. done.
  - intros Hty ->. by rewrite bool_decide_eq_false_2 by done.
  - intros Hty Hurl. rewrite bool_decide_eq_false_2 by done.
    rewrite (proj2 (String.eqb_neq _ _)) by done. svc_simpl.
    rewrite (proj1 (list_find_no_active _ _ _) Hno). simpl.
    unfold BookRequest_create, request_validate. simpl.
    by rewrite (proj2 (Nat.leb_le _ _) Hnote).
Qed.

Lemma createRequest_download_witness :
  let s := run digitise (run lend_out library) in
  physical_availableCopies <$> books s !! 0%nat = Some 0
  ∧ ∃ r, outcome (createRequest 2 0 "download" "") s = Ok (1%nat, r)
         ∧ status r = pending.
Proof.
  intros s. split; [reflexivity|].
  destruct (createRequest_download s 2 0 ""
              {| bookType := digital; physical_totalCopies := 1;
                 physical_availableCopies := 0; digital_fileUrl := "file.pdf";
                 borrowDurationDays := Some 14; isActive := true |})
    as (_ & _ & H).
  - reflexivity.
  - reflexivity.
  - apply list_find_no_active. reflexivity.
  - simpl. lia.
  - destruct H as (Hout & _); [discriminate|discriminate|].
    eexists. split; [exact Hout|reflexivity].
Defined.

(** ** [updateBook] *)

(** X11: a catalogue update on an existing book either stores the
    merged book, with the available count cut down to the total when it
    exceeds it, or, when a merged count is negative or the loan duration
    is below one day, throws a validation error and writes nothing.  In
    neither case does it touch a request, whatever the counts say about
    copies that are out. *)
Theorem updateBook_stores_counts_in_bounds s bookId upd bk :
  books s !! bookId = Some bk →
  let call := updateBook bookId upd in
  let bk' := apply_update upd bk in
  requests (after call s) = requests s
  ∧ (book_validate bk' = true →
     ∃ stored, outcome call s = Ok stored
       ∧ books (after call s) = <[bookId := stored]> (books s)
       ∧ physical_totalCopies stored = physical_totalCopies bk'
       ∧ physical_availableCopies stored
         = Z.min (physical_availableCopies bk') (physical_totalCopies bk')
       ∧ 0 ≤ physical_availableCopies stored ≤ physical_totalCopies stored)
  ∧ (book_validate bk' = false →
     outcome call s = Err ValidationError ∧ after call s = s).
Proof.
  intros Hbk call bk'. split; [apply updateBook_requests|].
  subst call. unfold outcome, after, updateBook. svc_simpl. rewrite Hbk.
  fold bk'. split.
  - intros Hv. rewrite Hv. simpl. exists (book_pre_save bk').
    split; [done|]. split; [done|].
    split; [apply book_pre_save_total|].
    split; [apply book_pre_save_available|].
    by apply book_pre_save_bounds.
  - intros Hv. by rewrite Hv.
Qed.

Lemma updateBook_stores_counts_in_bounds_witness :
  let upd := {| u_bookType := None; u_borrowDurationDays := None;
                u_isActive := None;
                u_physical := Some {| u_totalCopies := Some 3;
                                      u_availableCopies := Some 7 |};
                u_fileUrl := None |} in
  physical_availableCopies
    <$> books (after (updateBook 0 upd) library) !! 0%nat = Some 3.
Proof.
  intros upd.
  destruct (updateBook_stores_counts_in_bounds library 0 upd one_copy)
    as (_ & H & _); [reflexivity|].
  destruct H as (stored & _ & Hb & _ & Hav & _); [reflexivity|].
  rewrite Hb, lookup_insert_eq. simpl. rewrite Hav. reflexivity.
Defined.

(** ** Round trips *)

(** X12: issuing an approved borrow and then taking the book back puts
    every book back exactly as it was, whoever is on the waitlist: the
    copy count lost at issue is the one regained at return.  The counts
    are within the exact range of Numbers, and the due date is a date,
    so that the issue succeeds. *)
Theorem issue_then_return_restores_books
    s librarianId requestId now librarianId' t t' r bk :
  requests s !! requestId = Some r →
  status r = approved → requestType r = borrow →
  books s !! book r = Some bk → book_validate bk = true →
  1 ≤ physical_availableCopies bk ≤ physical_totalCopies bk →
  physical_totalCopies bk ≤ max_exact →
  valid_time now = true →
  valid_time (now + default 0 (borrowDurationDays bk) * ms_per_day) = true →
  requests_valid (requests s) → contiguous (requests s) (book r) →
  let s1 := after (issueBook librarianId requestId now) s in
  let s2 := after (returnBook librarianId' requestId t t') s1 in
  is_Ok (outcome (issueBook librarianId requestId now) s)
  ∧ is_Ok (outcome (returnBook librarianId' requestId t t') s1)
  ∧ books s2 = books s.
Proof.
  intros Hr Hst Hty Hbk Hbv [Hav Hle] Hmax _ Hdue Hval Hc s1 s2.
  pose proof (Hval _ _ Hr) as Hrv.
  pose proof (issueBook_run s librarianId requestId now r bk
                Hr Hrv Hbk Hbv Hle Hst Hty Hav Hdue) as Hrun.
  simpl in Hrun.
  set (r1 := issued_doc librarianId now
               (now + default 0 (borrowDurationDays bk) * ms_per_day) r) in *.
  set (bk1 := set_availableCopies
                (js_sub1 (physical_availableCopies bk)) bk) in *.
  pose proof (js_sub1_le (physical_availableCopies bk)) as Hsub.
  assert (Hlt : (requestId < length (requests s))%nat)
    by by eapply lookup_lt_Some.
  assert (Hs1 : s1 = (issueBook librarianId requestId now s).1) by done.
  rewrite Hrun in Hs1. simpl in Hs1.
  destruct (returnBook_effect s1 librarianId' requestId t t' r1 bk1)
    as (Hout & Hbooks & _).
  - rewrite Hs1. simpl. by apply list_lookup_insert_eq.
  - done.
  - rewrite Hs1. simpl. apply lookup_insert_eq.
  - by apply issueBook_decrement_valid.
  - rewrite Hs1. simpl. by apply requests_valid_insert.
  - rewrite Hs1. simpl. unfold contiguous, positions in *.
    rewrite (waitlist_insert_neutral _ _ r); [done..|by rewrite Hst|done].
  - split_and!.
    + unfold outcome. by rewrite Hrun.
    + by rewrite Hout.
    + subst s2. rewrite Hbooks, Hs1. simpl.
      rewrite insert_insert_eq.
      subst bk1. simpl.
      rewrite js_add1_sub1 by lia.
      rewrite book_pre_save_id by (simpl; lia).
      assert (Heta : ∀ n m, set_availableCopies n (set_availableCopies m bk)
                            = set_availableCopies n bk) by done.
      rewrite Heta.
      replace (set_availableCopies (physical_availableCopies bk) bk) with bk
        by by destruct bk.
      by apply insert_id.
Qed.

Lemma issue_then_return_restores_books_witness :
  let s := run (take 2 lend_out) library in
  books (after (returnBook 9 0 300 301) (after (issueBook 9 0 200) s))
  = books s.
Proof.
  intros s.
  destruct (issue_then_return_restores_books s 9 0 200 9 300 301
              (approved_doc 9 100 (new_request 0 1 borrow "" pending None))
              one_copy) as (_ & _ & H).
  - reflexivity.
  - reflexivity.
  - reflexivity.
  - reflexivity.
  - reflexivity.
  - simpl. lia.
  - vm_compute. discriminate.
  - reflexivity.
  - reflexivity.
  - apply requests_valid_check. reflexivity.
  - apply contiguous_check. reflexivity.
  - exact H.
Defined.

(** X13: joining a waitlist and then cancelling leaves the queue as it
    was: the requests that were stored before are unchanged, positions
    included, the new request stays on record as cancelled, and no book
    changes. *)
Theorem enqueue_then_cancel_restores_queue s userId bookId note bk :
  books s !! bookId = Some bk → isActive bk = true →
  physical_availableCopies bk = 0 →
  bookType bk ≠ digital → no_active (requests s) bookId userId →
  (String.length (trim note) ≤ 300)%nat →
  contiguous (requests s) bookId →
  let n := length (waitlist (requests s) bookId) in
  let s1 := after (createRequest userId bookId "borrow" note) s in
  let s2 := after (cancelRequest userId (length (requests s))) s1 in
  outcome (cancelRequest userId (length (requests s))) s1 = Ok tt
  ∧ requests s2
    = requests s
      ++ [cancelled_doc
            (new_request bookId userId borrow note waitlisted
               (Some (Z.of_nat n + 1)))]
  ∧ waitlist (requests s2) bookId = waitlist (requests s) bookId
  ∧ books s2 = books s.
Proof.
  intros Hbk Hact Hzero Hty Hno Hnote Hc n s1 s2.
  set (r := new_request bookId userId borrow note waitlisted
              (Some (Z.of_nat n + 1))).
  assert (Hs1 : createRequest userId bookId "borrow" note s
                = (set_requests (λ l, l ++ [r]) s, Ok (length (requests s), r))).
  { rewrite (createRequest_guarded _ _ _ _ _ bk)
      by auto using type_guard_borrow.
    rewrite (proj1 (list_find_no_active _ _ _) Hno). simpl.
    rewrite Hzero. simpl. by rewrite BookRequest_create_borrow. }
  assert (Hrun : cancelRequest userId (length (requests s)) s1
                 = (set_requests
                      (λ _, shift (q_behind bookId (Some (Z.of_nat n + 1))) (-1)
                              <$> <[length (requests s) := cancelled_doc r]>
                                    (requests s1)) s1,
                    Ok tt)).
  { apply (cancelRequest_run s1 userId _ r); try done.
    - subst s1. unfold after. rewrite Hs1. simpl.
      by apply list_lookup_middle.
    - unfold request_validate. simpl. by apply Nat.leb_le. }
  assert (Hreq : requests s2 = requests s ++ [cancelled_doc r]).
  { subst s2. unfold after at 1. rewrite Hrun. simpl.
    subst s1. unfold after. rewrite Hs1. simpl.
    replace (length (requests s)) with (length (requests s) + 0)%nat at 1 by lia.
    rewrite insert_app_r. simpl. rewrite fmap_app. simpl.
    rewrite (shift_not_waitlisted _ _ _ (cancelled_doc r)) by done. f_equal.
    rewrite <-(list_fmap_id (requests s)) at 2.
    apply Forall_fmap_ext, Forall_forall. intros x Hx. simpl.
    unfold shift. destruct (q_behind _ _ x) eqn:Hq; [|done].
    exfalso. unfold q_behind in Hq.
    apply andb_true_iff in Hq as [Hw Hp].
    destruct (waitlistPosition x) as [p|] eqn:Hpx; [|done].
    apply bool_decide_eq_true in Hp.
    apply contiguous_contig in Hc as [_ Hrange].
    destruct (Hrange (Some p)) as (z & [= <-] & Hz).
    { rewrite <-Hpx. apply list_elem_of_fmap_2. by apply waitlist_elem. }
    unfold positions in Hz. rewrite length_fmap in Hz. subst n. lia. }
  split_and!.
  - unfold outcome. by rewrite Hrun.
  - done.
  - rewrite Hreq, waitlist_app, waitlist_cons.
    rewrite q_waitlisted_status by done. simpl. by rewrite !app_nil_r.
  - subst s2. rewrite cancelRequest_books. subst s1.
    by rewrite createRequest_books.
Qed.

Lemma enqueue_then_cancel_restores_queue_witness :
  let s := run queue_up library in
  let s1 := after (createRequest 4 0 "borrow" "") s in
  waitlist (requests (after (cancelRequest 4 3) s1)) 0 = waitlist (requests s) 0.
Proof.
  intros s s1.
  destruct (enqueue_then_cancel_restores_queue s 4 0 ""
              (set_availableCopies 0 one_copy)) as (_ & _ & H & _).
  - reflexivity.
  - reflexivity.
  - reflexivity.
  - simpl. discriminate.
  - apply list_find_no_active. reflexivity.
  - simpl. lia.
  - apply contiguous_check. reflexivity.
  - exact H.
Defined.

(** ** First come, first served *)

Lemma lookup_ordered (ps : list (option Z)) i :
  ps = Some <$> seqZ 1 (Z.of_nat (length ps)) →
  ps !! i = if decide (i < length ps)%nat
            then Some (Some (1 + Z.of_nat i)) else None.
Proof.
  intros H. case_decide as Hi.
  - rewrite H, list_lookup_fmap, lookup_seqZ_lt by lia. done.
  - apply lookup_ge_None. lia.
Qed.

Lemma ordered_contig ps :
  ps = Some <$> seqZ 1 (Z.of_nat (length ps)) → contig ps.
Proof. intros H. apply contig_perm. by rewrite <-H. Qed.

Lemma ordered_snoc ps :
  ps = Some <$> seqZ 1 (Z.of_nat (length ps)) →
  ps ++ [Some (Z.of_nat (length ps) + 1)]
  = Some <$> seqZ 1 (Z.of_nat (length (ps ++ [Some (Z.of_nat (length ps) + 1)]))).
Proof.
  intros H. rewrite length_app. simpl.
  replace (length ps + 1)%nat with (S (length ps)) by lia.
  rewrite seqZ_S, fmap_app, <-H. simpl. do 3 f_equal. lia.
Qed.

Lemma ordered_remove A B k :
  A ++ Some k :: B
  = Some <$> seqZ 1 (Z.of_nat (length (A ++ Some k :: B))) →
  move_up k <$> (A ++ B) = Some <$> seqZ 1 (Z.of_nat (length (A ++ B))).
Proof.
  intros H. pose proof (λ i, lookup_ordered _ i H) as Hl.
  assert (Hlen : length (A ++ Some k :: B) = S (length A + length B)).
  { rewrite length_app. simpl. lia. }
  rewrite Hlen in Hl.
  assert (Hk : k = 1 + Z.of_nat (length A)).
  { specialize (Hl (length A)). rewrite list_lookup_middle in Hl by done.
    case_decide; [|lia]. by injection Hl. }
  apply list_eq. intros j. rewrite !list_lookup_fmap, length_app.
  destruct (decide (j < length A)%nat) as [Hj|Hj].
  - rewrite lookup_app_l by done.
    specialize (Hl j). rewrite lookup_app_l in Hl by done.
    rewrite Hl. case_decide; [|lia]. simpl.
    rewrite lookup_seqZ_lt by lia. simpl.
    rewrite bool_decide_eq_false_2 by lia. done.
  - rewrite lookup_app_r by lia.
    specialize (Hl (S j)). rewrite lookup_app_r in Hl by lia.
    replace (S j - length A)%nat with (S (j - length A)) in Hl by lia.
    simpl in Hl. rewrite Hl.
    case_decide.
    + simpl. rewrite lookup_seqZ_lt by lia. simpl.
      rewrite bool_decide_eq_true_2 by lia. do 2 f_equal. lia.
    + simpl. rewrite lookup_seqZ_ge by lia. done.
Qed.

(** The positions after a request leaves the waitlist and a filter
    moves up those behind it. *)
Lemma requeue_positions l i r c q k b :
  l !! i = Some r →
  q_waitlisted (book r) r = true → waitlistPosition r = Some k →
  status c ≠ waitlisted →
  contig (positions l b) →
  (∀ x, q x = true → q_waitlisted (book r) x = true) →
  (∀ x z, q_waitlisted (book r) x = true → waitlistPosition x = Some z →
          z ≠ k → 1 ≤ z → q x = bool_decide (k < z)) →
  positions (shift q (-1) <$> <[i := c]> l) b
  = if decide (book r = b)
    then move_up k <$> (positions (take i l) b ++ positions (drop (S i) l) b)
    else positions l b.
Proof.
  intros Hi Hr Hk Hc Hall Hq1 Hq2. unfold positions in *.
  rewrite waitlist_shift, (waitlist_insert l i r c) by done.
  rewrite (waitlist_split l i r) in Hall |- * by done.
  rewrite (q_waitlisted_status _ c) by done. simpl.
  set (WA := waitlist (take i l) b) in *.
  set (WB := waitlist (drop (S i) l) b) in *.
  assert (HW : ∀ x, x ∈ WA ++ WB → q_waitlisted b x = true).
  { intros x [H|H]%elem_of_app; by apply waitlist_elem in H as [? _]. }
  case_decide as Hb.
  - subst b. rewrite Hr in Hall. simpl in Hall.
    rewrite fmap_app, fmap_cons, Hk in Hall.
    rewrite <-fmap_app, <-!list_fmap_compose.
    apply Forall_fmap_ext, Forall_forall. intros x Hx. simpl.
    destruct (contig_others _ _ _ (waitlistPosition x) Hall)
      as (z & Hz & ? & ? & _).
    { rewrite <-fmap_app. by apply list_elem_of_fmap_2. }
    unfold shift. rewrite Hz. simpl.
    rewrite (Hq2 x z) by auto. by case_bool_decide.
  - assert (q_waitlisted b r = false) as Hrb.
    { destruct (q_waitlisted b r) eqn:E; [|done].
      apply q_waitlisted_true in E as [? _]. done. }
    rewrite Hrb. simpl. f_equal.
    rewrite <-(list_fmap_id (WA ++ WB)) at 2.
    apply Forall_fmap_ext, Forall_forall. intros x Hx. simpl.
    unfold shift. destruct (q x) eqn:Hqx; [|done].
    apply Hq1, q_waitlisted_true in Hqx as [Hbx _].
    apply HW, q_waitlisted_true in Hx as [Hbx' _]. congruence.
Qed.

Lemma requeue_in_order l i r c q k :
  l !! i = Some r →
  q_waitlisted (book r) r = true → waitlistPosition r = Some k →
  status c ≠ waitlisted →
  (∀ b, in_order l b) →
  (∀ x, q x = true → q_waitlisted (book r) x = true) →
  (∀ x z, q_waitlisted (book r) x = true → waitlistPosition x = Some z →
          z ≠ k → 1 ≤ z → q x = bool_decide (k < z)) →
  ∀ b, in_order (shift q (-1) <$> <[i := c]> l) b.
Proof.
  intros Hi Hr Hk Hc Hall Hq1 Hq2 b. unfold in_order.
  rewrite (requeue_positions l i r c q k b)
    by (try done; apply ordered_contig, Hall).
  case_decide as Hb; [|apply Hall].
  subst b. specialize (Hall (book r)). unfold in_order in Hall.
  unfold positions in Hall at 1 2.
  rewrite (waitlist_split l i r) in Hall by done.
  rewrite Hr in Hall. simpl in Hall.
  rewrite fmap_app, fmap_cons, Hk in Hall.
  rewrite length_fmap. by apply ordered_remove.
Qed.

Lemma req_prim_in_order f c l l' :
  req_prim f c l l' → (∀ b, in_order l b) → ∀ b, in_order l' b.
Proof.
  destruct 1 as [l i r r' Hi _ _ Hr Hr' _ _ | l i r Hi Hst | l bookId now
                 | l r _ _ Hst _ _ | l r _ _ Hst Hpos _]; intros Hall b.
  - unfold in_order, positions.
    rewrite (waitlist_insert_neutral l i r) by done. apply Hall.
  - assert (Hq : q_waitlisted (book r) r = true) by by apply q_waitlisted_true.
    destruct (contig_positions_Some l (book r) r) as [k Hk].
    { apply ordered_contig, Hall. }
    { apply waitlist_elem. split; [done|]. apply list_elem_of_lookup. eauto. }
    rewrite dequeue_list_shift.
    apply (requeue_in_order l i r _ _ k); try done.
    + unfold q_behind. by intros x [? _]%andb_true_iff.
    + intros x z Hx Hz _ _. unfold q_behind. by rewrite Hx, Hk, Hz.
  - destruct (list_find (λ r, q_head bookId r = true) l) as [[i r]|] eqn:Hfind;
      [|unfold promote_list; rewrite Hfind; apply Hall].
    destruct (request_validate (promoted_doc now r)) eqn:Hval;
      [|unfold promote_list; rewrite Hfind, Hval; apply Hall].
    rewrite (promote_list_shift _ _ _ i r);
      [|apply ordered_contig, Hall|done..].
    apply list_find_Some in Hfind as (Hi & Hhead & _).
    unfold q_head in Hhead.
    apply andb_true_iff in Hhead as [Hq Hone%bool_decide_eq_true].
    pose proof Hq as [<- _]%q_waitlisted_true.
    apply (requeue_in_order l i r _ _ 1); try done.
    intros x z Hx _ ? ?. rewrite Hx. symmetry. apply bool_decide_eq_true. lia.
  - unfold in_order, positions. rewrite waitlist_app, waitlist_cons.
    rewrite q_waitlisted_status by (by rewrite Hst). simpl.
    rewrite !app_nil_r. apply Hall.
  - unfold in_order, positions. rewrite waitlist_app, waitlist_cons.
    destruct (q_waitlisted b r) eqn:Hq; simpl.
    + apply q_waitlisted_true in Hq as [<- _].
      rewrite fmap_app. simpl. rewrite Hpos.
      replace (length (waitlist l (book r)))
        with (length (waitlistPosition <$> waitlist l (book r)))
        by apply length_fmap.
      apply ordered_snoc, Hall.
    + rewrite !app_nil_r. apply Hall.
Qed.

Lemma exec_in_order a s : waitlist_in_order s → waitlist_in_order (exec a s).
Proof.
  unfold waitlist_in_order.
  pose proof (exec_requests a s) as Hrtc.
  induction Hrtc as [|l1 l2 l3 Hstep _ IH]; [done|].
  intros H1. apply IH. by eapply req_prim_in_order.
Qed.

(** X14: first come, first numbered: in every reachable store the
    waitlisted requests of a book, read in the order they were created,
    hold the positions 1, 2, ..., N in that order. *)
Theorem waitlist_is_numbered_in_creation_order s0 s :
  waitlist_in_order s0 → Reachable s0 s → waitlist_in_order s.
Proof.
  intros H0 Hreach.
  exact (Reachable_invariant waitlist_in_order s0 s exec_in_order H0 Hreach).
Qed.

Lemma waitlist_is_numbered_in_creation_order_witness :
  waitlist_in_order (run (queue_up ++ [CreateRequest 4 0 "borrow" "";
                                       CancelRequest 3 2]) library).
Proof.
  apply (waitlist_is_numbered_in_creation_order library).
  - intros b. reflexivity.
  - apply Reachable_run.
Defined.

Lemma waitlist_nil_iff l b :
  waitlist l b = [] ↔ ∀ x, x ∈ l → q_waitlisted b x = false.
Proof.
  split.
  - intros H x Hx. destruct (q_waitlisted b x) eqn:Hq; [|done].
    assert (x ∈ waitlist l b) as Hin by by apply waitlist_elem.
    rewrite H in Hin. by apply elem_of_nil in Hin.
  - intros H. destruct (waitlist l b) as [|x t] eqn:Hw; [done|].
    assert (x ∈ waitlist l b) as [Hq Hx]%waitlist_elem
      by (rewrite Hw; by left).
    by rewrite (H x Hx) in Hq.
Qed.

Lemma waitlist_first l b j h :
  l !! j = Some h → q_waitlisted b h = true →
  (∀ j' x, (j' < j)%nat → l !! j' = Some x → q_waitlisted b x = false) →
  waitlist l b = h :: waitlist (drop (S j) l) b.
Proof.
  intros Hj Hq Hmin. rewrite (waitlist_split l j h) by done. rewrite Hq.
  replace (waitlist (take j l) b) with (@nil BookRequest); [done|].
  symmetry. apply waitlist_nil_iff.
  intros x (j' & Hx & Hlt)%elem_of_take. by eapply Hmin.
Qed.

(** X15: first come, first served: when a book comes back, the request
    that is promoted to pending is the one that was created first among
    the book's waitlisted requests; the others stay waitlisted. *)
Theorem returnBook_promotes_the_earliest
    s librarianId requestId now now' r bk j h :
  requests s !! requestId = Some r → status r = issued →
  books s !! book r = Some bk → book_validate bk = true →
  requests_valid (requests s) → in_order (requests s) (book r) →
  requests s !! j = Some h → q_waitlisted (book r) h = true →
  (∀ j' x, (j' < j)%nat → requests s !! j' = Some x →
           q_waitlisted (book r) x = false) →
  let s' := after (returnBook librarianId requestId now now') s in
  requests s' !! j = Some (promoted_doc now' h)
  ∧ ∀ j' x, j' ≠ j → requests s !! j' = Some x → status x = waitlisted →
      ∃ x', requests s' !! j' = Some x' ∧ status x' = waitlisted.
Proof.
  intros Hr Hst Hbk Hbv Hval Hord Hj Hq Hmin s'.
  assert (Hc : contiguous (requests s) (book r)).
  { by apply contiguous_contig, ordered_contig. }
  destruct (returnBook_effect s librarianId requestId now now' r bk)
    as (_ & _ & Hreqs); [done..|].
  fold s' in Hreqs.
  set (r' := returned_doc librarianId now r) in *.
  set (l1 := <[requestId := r']> (requests s)) in *.
  assert (Hji : j ≠ requestId).
  { intros ->. rewrite Hr in Hj. injection Hj as <-.
    apply q_waitlisted_true in Hq as [_ Hq]. congruence. }
  assert (Hone : waitlistPosition h = Some 1).
  { pose proof (lookup_ordered _ 0 Hord) as H0.
    unfold positions in H0.
    rewrite (waitlist_first (requests s) (book r) j h Hj Hq Hmin) in H0.
    simpl in H0. by injection H0. }
  assert (Hfind : list_find (λ x, q_head (book r) x = true) l1 = Some (j, h)).
  { apply list_find_Some. split_and!.
    - unfold l1. by rewrite list_lookup_insert_ne.
    - unfold q_head. by rewrite Hq, Hone.
    - intros j' y Hy Hlt. unfold l1 in Hy.
      apply list_lookup_insert_Some in Hy as [(_ & <- & _) | [_ Hy]].
      + unfold q_head. by rewrite q_waitlisted_status.
      + unfold q_head. by rewrite (Hmin j' y). }
  assert (Hv : request_validate (promoted_doc now' h) = true)
    by apply (Hval _ _ Hj).
  assert (Hc1 : contig (positions l1 (book r))).
  { apply contiguous_contig in Hc. unfold positions in *. unfold l1.
    rewrite (waitlist_insert_neutral _ _ r); [done..|by rewrite Hst|done]. }
  rewrite Hreqs, (promote_list_shift _ _ _ j h) by done.
  assert (Hjlt : (j < length l1)%nat).
  { unfold l1. rewrite length_insert. by eapply lookup_lt_Some. }
  split.
  - rewrite list_lookup_fmap, list_lookup_insert_eq by done. simpl.
    unfold shift. by rewrite q_waitlisted_status.
  - intros j' x Hj' Hx Hstx.
    assert (j' ≠ requestId) as Hne.
    { intros ->. rewrite Hr in Hx. injection Hx as <-. congruence. }
    rewrite list_lookup_fmap, list_lookup_insert_ne by done.
    unfold l1. rewrite list_lookup_insert_ne, Hx by done. simpl.
    eexists. split; [done|]. by rewrite shift_status.
Qed.

Lemma returnBook_promotes_the_earliest_witness :
  let s := run queue_up library in
  status <$> requests (after (returnBook 9 0 300 301) s) !! 1%nat
  = Some pending.
Proof.
  intros s.
  destruct (returnBook_promotes_the_earliest s 9 0 300 301
              (issued_doc 9 200 (200 + 14 * ms_per_day)
                 (approved_doc 9 100 (new_request 0 1 borrow "" pending None)))
              (set_availableCopies 0 one_copy) 1
              (new_request 0 2 borrow "" waitlisted (Some 1))) as [H _].
  - reflexivity.
  - reflexivity.
  - reflexivity.
  - reflexivity.
  - apply requests_valid_check. reflexivity.
  - reflexivity.
  - reflexivity.
  - reflexivity.
  - intros j' x Hlt Hx. destruct j' as [|j']; [|lia].
    vm_compute in Hx. injection Hx as <-. reflexivity.
  - rewrite H. reflexivity.
Defined.

(** ** [getWaitlist] *)

Lemma position_le_trans p q r :
  position_le p q → position_le q r → position_le p r.
Proof. destruct p, q, r; simpl; try done. lia. Qed.

Lemma position_le_antisym p q : position_le p q → position_le q p → p = q.
Proof. destruct p, q; simpl; try done. intros. f_equal. lia. Qed.

Lemma position_le_total p q : position_le p q ∨ position_le q p.
Proof. destruct p, q; simpl; auto. lia. Qed.

Lemma by_position_total : Total by_position.
Proof. intros x y. apply position_le_total. Qed.

Lemma position_le_trans_inst : Transitive position_le.
Proof. intros p q r. apply position_le_trans. Qed.

Lemma position_le_antisym_inst : AntiSymm (=) position_le.
Proof. intros p q. apply position_le_antisym. Qed.

Lemma by_position_trans_inst : Transitive by_position.
Proof. intros x y z. apply position_le_trans. Qed.

Lemma Sorted_seqZ_positions m n : Sorted position_le (Some <$> seqZ m n).
Proof.
  apply (Sorted_fmap Some Z.le position_le); [done|].
  destruct (decide (0 < n)) as [Hn|Hn]; [|rewrite seqZ_nil; [constructor|lia]].
  rewrite <- (Z2Nat.id n) by lia.
  generalize (Z.to_nat n) as k. clear. intros k. revert m.
  induction k as [|k IH]; intros m; [constructor|].
  rewrite Nat2Z.inj_succ, seqZ_cons, Z.pred_succ by lia.
  constructor; [apply IH|].
  destruct k as [|k]; [constructor|].
  rewrite Nat2Z.inj_succ, seqZ_cons by lia. constructor. lia.
Qed.

Lemma Sorted_by_position l :
  Sorted position_le (waitlistPosition <$> l) → Sorted by_position l.
Proof.
  induction l as [|x l IH]; [constructor|].
  rewrite fmap_cons. intros H. apply Sorted_inv in H as [H1 H2].
  constructor; [by apply IH|].
  destruct l; [constructor|]. apply HdRel_inv in H2. by constructor.
Qed.

Lemma contiguous_positions l bookId :
  contiguous l bookId →
  positions l bookId ≡ₚ Some <$> seqZ 1 (Z.of_nat (length (positions l bookId))).
Proof.
  intros Hc. pose proof (proj1 (contiguous_contig _ _) Hc) as [Hnd _].
  apply NoDup_Permutation; [done| |].
  { apply (NoDup_fmap_2 _), NoDup_seqZ. }
  intros p. rewrite (Hc p), list_elem_of_fmap.
  unfold positions. rewrite length_fmap. split.
  - intros (n & -> & Hn). exists (Z.of_nat n). split; [done|].
    apply elem_of_seqZ. lia.
  - intros (z & -> & Hz). apply elem_of_seqZ in Hz.
    exists (Z.to_nat z). split; [f_equal|]; lia.
Qed.

(** X16: [getWaitlist] writes nothing and throws "Book not found"
    for an unknown book.  For a known book whose waitlist is
    contiguous it returns the waitlisted requests of that book, each
    once, at positions 1, 2, ..., N in this order; when the waitlist
    is numbered in creation order, this is the order of creation. *)
Theorem getWaitlist_lists_by_position s bookId :
  after (getWaitlist bookId) s = s
  ∧ (books s !! bookId = None →
     outcome (getWaitlist bookId) s = Err BookNotFound)
  ∧ ∀ bk, books s !! bookId = Some bk → contiguous (requests s) bookId →
    ∃ wl, outcome (getWaitlist bookId) s = Ok (select_physical bk, wl)
      ∧ wl ≡ₚ waitlist (requests s) bookId
      ∧ waitlistPosition <$> wl = Some <$> seqZ 1 (Z.of_nat (length wl))
      ∧ (in_order (requests s) bookId → wl = waitlist (requests s) bookId).
Proof.
  unfold after, outcome, getWaitlist, Book_findById. svc_simpl.
  split; [by destruct (books s !! bookId)|].
  split; [by intros ->|].
  intros bk -> Hc. simpl.
  set (w := waitlist (requests s) bookId).
  exists (merge_sort by_position w).
  assert (Hp : merge_sort by_position w ≡ₚ w) by apply merge_sort_Permutation.
  assert (Hs : Sorted by_position (merge_sort by_position w)).
  { apply (@Sorted_merge_sort _ by_position _ by_position_total). }
  split; [done|]. split; [done|].
  pose proof (contiguous_positions _ _ Hc) as Hq.
  unfold positions in Hq. fold w in Hq. rewrite length_fmap in Hq.
  split.
  - rewrite (Permutation_length Hp).
    apply (@Sorted_unique _ position_le
             position_le_trans_inst position_le_antisym_inst).
    + by apply (Sorted_fmap waitlistPosition by_position position_le).
    + apply Sorted_seqZ_positions.
    + by rewrite Hp.
  - intros Ho. unfold in_order, positions in Ho. fold w in Ho.
    apply (@Sorted_unique_strong _ by_position by_position_trans_inst);
      [|done| |done].
    + intros x1 x2 H1 H2 H12 H21. rewrite Hp in H1.
      pose proof (position_le_antisym _ _ H12 H21) as He.
      apply list_elem_of_lookup in H1 as [i Hi], H2 as [j Hj].
      assert (i = j) as ->; [|congruence].
      pose proof (proj1 (contiguous_contig _ _) Hc) as [Hnd _].
      apply (NoDup_lookup _ i j (waitlistPosition x1) Hnd);
        unfold positions; fold w; rewrite list_lookup_fmap.
      * by rewrite Hi.
      * by rewrite Hj, He.
    + apply Sorted_by_position. rewrite Ho. apply Sorted_seqZ_positions.
Qed.

Lemma getWaitlist_lists_by_position_witness :
  let s := run queue_up library in
  ∃ wl, outcome (getWaitlist 0) s
        = Ok (select_physical (set_availableCopies 0 one_copy), wl)
      ∧ user <$> wl = [2; 3]%nat.
Proof.
  intros s.
  destruct (getWaitlist_lists_by_position s 0) as (_ & _ & H).
  destruct (H (set_availableCopies 0 one_copy)) as (wl & Hout & _ & _ & Hwl).
  - reflexivity.
  - apply contiguous_check. reflexivity.
  - exists wl. split; [exact Hout|].
    rewrite Hwl; [reflexivity|]. reflexivity.
Defined.

(** ** Notifications *)

Lemma promoteWaitlist_outbox bookId now s :
  let s' := after (promoteWaitlist bookId now) s in
  (outbox s' = outbox s
   ∨ ∃ n r, outcome (promoteWaitlist bookId now) s = Ok tt
       ∧ outbox s' = outbox s ++ [n]
       ∧ event n = "library:waitlist_available"
       ∧ requests s' !! about n = Some r
       ∧ recipient n = user r ∧ status r = pending ∧ book r = bookId)
  ∧ (thrown (outcome (promoteWaitlist bookId now) s) ≠ None →
     outbox s' = outbox s).
Proof.
  unfold promoteWaitlist. svc_simpl.
  destruct (list_find _ (requests s)) as [[i h]|] eqn:Hfind; [|by split; [left|]].
  simpl.
  destruct (request_validate _); [|by split; [left|]]. simpl.
  destruct (inc_positions _ _ _) as [l' [e|]] eqn:Hinc; [by split; [left|]|].
  simpl.
  destruct (books s !! book h); simpl; [|by split; [left|]].
  split; [right|done].
  apply list_find_Some in Hfind as (Hi & Hhead & _).
  apply andb_true_iff in Hhead as [[Hb Hst]%q_waitlisted_true _].
  assert (Hl : l' = (inc_positions (q_waitlisted bookId) (-1)
                       (<[i := promoted_doc now h]> (requests s))).1)
    by by rewrite Hinc.
  destruct (l' !! i) as [r|] eqn:Hr.
  - exists (mkNotification (user h) "library:waitlist_available" i), r.
    split_and!; try done.
    all: rewrite Hl in Hr;
      apply inc_positions_lookup in Hr as (r0 & Hr0 & Hc);
      apply list_lookup_insert_Some in Hr0 as [(_ & <- & _) | [? _]];
      [|done];
      by destruct Hc as [-> | (p & _ & _ & ->)].
  - apply lookup_ge_None in Hr. apply lookup_lt_Some in Hi.
    rewrite Hl, inc_positions_length, length_insert in Hr. lia.
Qed.

Lemma createRequest_outbox userId bookId ty note s :
  outbox (after (createRequest userId bookId ty note) s) = outbox s.
Proof.
  unfold createRequest, after, bind, Book_findById, BookRequest_findOne,
    BookRequest_countDocuments, gets, throw. simpl.
  destruct (books s !! bookId) as [bk|]; [|done].
  destruct (negb (isActive bk)); [done|].
  destruct (_ && _); [done|]. destruct (_ && _); [done|].
  destruct (_ && _); [done|].
  destruct (list_find _ (requests s)) as [[j ex]|]; [done|].
  assert (Hcreate : ∀ st pos,
    outbox (BookRequest_create bookId userId ty note st pos s).1 = outbox s).
  { intros st pos. unfold BookRequest_create.
    destruct (parse_requestType ty); [|done].
    by destruct (request_validate _). }
  destruct (String.eqb ty "download"); [apply Hcreate|].
  destruct (0 <? physical_availableCopies bk); apply Hcreate.
Qed.

Lemma cancelRequest_outbox userId requestId s :
  outbox (after (cancelRequest userId requestId) s) = outbox s.
Proof.
  unfold cancelRequest. svc_simpl.
  destruct (requests s !! requestId) as [r|]; [|done].
  destruct (negb _); [done|]. destruct (negb _); [done|]. svc_simpl.
  destruct (request_validate _); [|done]. svc_simpl.
  by case_bool_decide.
Qed.

Lemma updateBook_outbox bookId upd s :
  outbox (after (updateBook bookId upd) s) = outbox s.
Proof.
  unfold updateBook. svc_simpl.
  destruct (books s !! bookId); [|done].
  by destruct (book_validate _).
Qed.

(** What one call adds to the outbox. *)
Lemma exec_outbox a s :
  (outbox (exec a s) = outbox s
   ∨ ∃ n r, exec_error a s = None
       ∧ outbox (exec a s) = outbox s ++ [n]
       ∧ announced a = Some (event n, status r)
       ∧ requests (exec a s) !! about n = Some r
       ∧ recipient n = user r
       ∧ touched_book a s = Some (book r))
  ∧ (exec_error a s ≠ None → outbox (exec a s) = outbox s).
Proof.
  destruct a; simpl.
  - split; [left|intros _]; apply createRequest_outbox.
  - split; [left|intros _]; apply cancelRequest_outbox.
  - unfold approveRequest. svc_simpl.
    destruct (requests s !! requestId) as [r|] eqn:Hr; [|by split; [left|]].
    simpl. case_bool_decide as Hst; simpl; [|by split; [left|]].
    destruct (request_validate _); [|by split; [left|]]. svc_simpl.
    destruct (books s !! book r); simpl; [|by split; [left|]].
    split; [right|done].
    exists (mkNotification (user r) "library:request_approved" requestId),
      (approved_doc librarianId now r).
    split_and!; try done. simpl.
    apply list_lookup_insert_eq. by apply lookup_lt_Some in Hr.
  - unfold rejectRequest. svc_simpl.
    destruct (requests s !! requestId) as [r|] eqn:Hr; [|by split; [left|]].
    simpl. case_bool_decide as Hst; simpl; [|by split; [left|]].
    destruct (request_validate _); [|by split; [left|]]. svc_simpl.
    destruct (books s !! book r); simpl; [|by split; [left|]].
    split; [right|done].
    eexists (mkNotification (user r) "library:request_rejected" requestId), _.
    do 2 (split; [done|]).
    split; [|split; [apply list_lookup_insert_eq; by apply lookup_lt_Some in Hr|]];
      done.
  - unfold issueBook. svc_simpl.
    destruct (requests s !! requestId) as [r|] eqn:Hr; [|by split; [left|]].
    simpl. case_bool_decide as Hst; simpl; [|by split; [left|]].
    case_bool_decide as Hty; simpl; [|by split; [left|]].
    destruct (books s !! book r) as [bk|] eqn:Hbk; [|by split; [left|]].
    svc_simpl. rewrite ?Hbk.
    destruct (physical_availableCopies bk <? 1); [by split; [left|]|].
    destruct (book_validate _); [|by split; [left|]]. svc_simpl.
    destruct (valid_time _); [|by split; [left|]]. svc_simpl.
    destruct (request_validate _); [|by split; [left|]]. svc_simpl.
    split; [right|done].
    eexists (mkNotification (user r) "library:book_issued" requestId), _.
    do 2 (split; [done|]).
    split; [|split; [apply list_lookup_insert_eq; by apply lookup_lt_Some in Hr|]];
      done.
  - unfold returnBook, after, outcome, bind, BookRequest_findById,
      Book_findById, gets, throw. simpl.
    destruct (requests s !! requestId) as [r|] eqn:Hr; [|by split; [left|]].
    simpl. case_bool_decide as Hst; simpl; [|by split; [left|]].
    destruct (books s !! book r) as [bk|] eqn:Hbk; [|by split; [left|]].
    simpl. rewrite Hbk. unfold Book_save, BookRequest_save, modify, throw.
    destruct (book_validate _); [|by split; [left|]]. simpl.
    destruct (request_validate _); [|by split; [left|]]. simpl.
    match goal with |- context [promoteWaitlist ?b ?t ?s0] =>
      pose proof (promoteWaitlist_outbox b t s0) as [Hp Hq];
      unfold after, outcome in Hp, Hq;
      destruct (promoteWaitlist b t s0) as [s1 [[]|e']]; simpl in *
    end.
    + split; [|done].
      destruct Hp as [Hp | (n & x & _ & Ho & Hev & Hx & Hu & Hs & Hb)];
        [by left|right].
      exists n, x. rewrite Hev, Hs, Hb. by split_and!.
    + split; [left|intros _]; by apply Hq.
  - split; [left|intros _]; apply updateBook_outbox.
Qed.

(** X17: a call emits at most one notification, and only when it
    returns: a call that throws emits none, and [createRequest],
    [cancelRequest] and [updateBook] never emit.  The notification
    names a stored request, goes to the user of that request, and the
    request then has the status the event announces: approved,
    rejected, issued, or, for the request [returnBook] takes off the
    waitlist, pending. *)
Theorem calls_notify_at_most_once a s :
  (exec_error a s ≠ None → outbox (exec a s) = outbox s)
  ∧ (announced a = None → outbox (exec a s) = outbox s)
  ∧ (outbox (exec a s) = outbox s
     ∨ ∃ n r, outbox (exec a s) = outbox s ++ [n]
         ∧ announced a = Some (event n, status r)
         ∧ requests (exec a s) !! about n = Some r
         ∧ recipient n = user r).
Proof.
  destruct (exec_outbox a s) as [H1 H2].
  split; [done|]. split.
  - intros Ha.
    destruct H1 as [H1 | (n & r & _ & _ & Hev & _)]; [done|congruence].
  - destruct H1 as [H1 | (n & r & _ & Ho & Hev & Hr & Hu & _)]; [by left|].
    right. by exists n, r.
Qed.

Lemma calls_notify_at_most_once_witness :
  outbox (exec (IssueBook 9 1 400) (run queue_up library))
  = outbox (run queue_up library)
  ∧ outbox (exec (CancelRequest 2 1) (run queue_up library))
    = outbox (run queue_up library).
Proof.
  split.
  - refine (proj1 (calls_notify_at_most_once (IssueBook 9 1 400)
                     (run queue_up library)) _).
    vm_compute. discriminate.
  - refine (proj1 (proj2 (calls_notify_at_most_once (CancelRequest 2 1)
                            (run queue_up library))) _).
    reflexivity.
Defined.

Lemma event_fits_announced a ev st :
  announced a = Some (ev, st) → event_fits ev st = true.
Proof. destruct a; simpl; intros [= <- <-]; reflexivity. Qed.

Lemma event_fits_transition ev st st' :
  event_fits ev st = true → transition st st' = true →
  event_fits ev st' = true.
Proof.
  unfold event_fits. repeat case_match; try done.
  all: destruct st, st'; simpl; try done.
Qed.

Lemma exec_outbox_ok a s : outbox_ok s → outbox_ok (exec a s).
Proof.
  intros Hok n Hn.
  assert (Hold : n ∈ outbox s → addressed (exec a s) n).
  { intros (r & Hr & Hu & Hev)%Hok.
    destruct (exec_kept a s _ r Hr) as (r' & Hr' & Hc & _).
    exists r'. split; [done|].
    pose proof (doc_change_same_ref _ _ Hc) as (_ & Hu' & _).
    split; [congruence|].
    destruct (doc_change_transition _ _ Hc) as [-> | Ht]; [done|].
    by eapply event_fits_transition. }
  destruct (exec_outbox a s) as [[Ho | (m & r & _ & Ho & Hev & Hr & Hu & _)] _];
    rewrite Ho in Hn; [by apply Hold|].
  apply elem_of_app in Hn as [Hn | ->%list_elem_of_singleton];
    [by apply Hold|].
  exists r. split_and!; [done..|]. by eapply event_fits_announced.
Qed.

(** X18: notifications are never retracted, and each one stays true
    of the request it names: along any sequence of calls the outbox
    only grows at its end, every notification names a stored request
    and went to the user of that request, and the request is in a
    status its event allows: approved, rejected, issued or returned
    after [library:request_approved]; rejected after
    [library:request_rejected]; issued or returned after
    [library:book_issued]; not waitlisted after
    [library:waitlist_available]. *)
Theorem notifications_stay_addressed s0 s :
  Reachable s0 s → outbox_ok s0 →
  outbox_ok s ∧ outbox s0 `prefix_of` outbox s.
Proof.
  intros Hreach H0. induction Hreach as [|s a _ [IH1 IH2]]; [done|].
  split; [by apply exec_outbox_ok|].
  etrans; [exact IH2|].
  destruct (exec_outbox a s) as [[-> | (m & _ & _ & -> & _)] _];
    [done|by apply prefix_app_r].
Qed.

Lemma notifications_stay_addressed_witness :
  addressed (run scenario library)
    (mkNotification 1 "library:book_issued" 0).
Proof.
  refine (proj1 (notifications_stay_addressed library (run scenario library)
                   _ _) _ _).
  - apply Reachable_run.
  - intros n Hn. vm_compute in Hn. by apply elem_of_nil in Hn.
  - apply (list_elem_of_lookup_2 _ 1%nat). reflexivity.
Defined.

(** ** Deleting books *)

Lemma deleteBook_requests bookId cleanup s :
  requests (deleteBook bookId cleanup s).1 = requests s.
Proof.
  unfold deleteBook. destruct (books s !! bookId); [|done].
  destruct (0 <? _); [done|]. by destruct cleanup.
Qed.

Lemma deleteBook_outbox bookId cleanup s :
  outbox (deleteBook bookId cleanup s).1 = outbox s.
Proof.
  unfold deleteBook. destruct (books s !! bookId); [|done].
  destruct (0 <? _); [done|]. by destruct cleanup.
Qed.

Lemma no_active_of l bookId :
  (0 <? Z.of_nat (length (filter (λ r, q_active_of bookId r = true) l))) = false →
  ∀ i r, l !! i = Some r → book r = bookId → is_active (status r) = false.
Proof.
  intros H i r Hi Hb. apply Z.ltb_ge in H.
  destruct (is_active (status r)) eqn:Hact; [|done].
  assert (Hin : r ∈ filter (λ r, q_active_of bookId r = true) l).
  { apply list_elem_of_filter. split; [|by eapply list_elem_of_lookup_2].
    unfold q_active_of. by rewrite bool_decide_eq_true_2, Hact. }
  destruct (filter _ l); [by apply elem_of_nil in Hin|]. simpl in H. lia.
Qed.

Lemma deleteBook_books bookId cleanup s :
  books (deleteBook bookId cleanup s).1 = books s
  ∨ (books (deleteBook bookId cleanup s).1 = delete bookId (books s)
     ∧ ∀ i r, requests s !! i = Some r → book r = bookId →
              is_active (status r) = false).
Proof.
  unfold deleteBook. destruct (books s !! bookId); [|by left].
  destruct (0 <? _) eqn:Hcount; [by left|].
  destruct cleanup; [right|by left].
  split; [done|]. by apply no_active_of.
Qed.

Lemma exec_active_have_books a s :
  active_have_books s → active_have_books (exec a s).
Proof.
  intros H i r' Hr' Hact.
  destruct (exec_pointwise a s i r' Hr')
    as [(r & Hr & Hc & _)
       | (-> & Hcr & b & u & t & note & st & pos & -> & Htb & _)].
  - assert (Hr_act : is_active (status r) = true).
    { destruct (is_active (status r)) eqn:E; [done|].
      apply doc_change_terminal in Hc; [|done]. congruence. }
    pose proof (doc_change_same_ref _ _ Hc) as (Hb & _).
    replace (book r') with (book r) by congruence.
    eapply book_prim_is_Some; [apply exec_books|]. by eapply H.
  - destruct a; try done. simpl in *. injection Htb as <-.
    rewrite createRequest_books.
    destruct (createRequest_appends userId bookId requestType0 userNote0 s)
      as [Heq | (r & _ & _ & Hsome)]; [|done].
    rewrite Heq in Hr'. apply lookup_lt_Some in Hr'. lia.
Qed.

Lemma exec_call_active_have_books c s :
  active_have_books s → active_have_books (exec_call c s).
Proof.
  destruct c as [a|bookId cleanup]; [apply exec_active_have_books|].
  intros H i r. simpl. rewrite deleteBook_requests. intros Hr Hact.
  destruct (deleteBook_books bookId cleanup s) as [-> | [-> Hnone]];
    [by eapply H|].
  rewrite lookup_delete_ne; [by eapply H|].
  intros Heq. by rewrite (Hnone _ _ Hr (eq_sym Heq)) in Hact.
Qed.

Lemma BookRequest_create_no_type_error bookId userId ty note st pos s :
  thrown (BookRequest_create bookId userId ty note st pos s).2 ≠ Some TypeError.
Proof.
  unfold BookRequest_create.
  destruct (parse_requestType ty); [|done].
  by destruct (request_validate _).
Qed.

Lemma promoteWaitlist_no_type_error bookId now s :
  (∀ i r, requests s !! i = Some r → status r = waitlisted →
          is_Some (books s !! book r)) →
  thrown (outcome (promoteWaitlist bookId now) s) ≠ Some TypeError.
Proof.
  intros H. unfold promoteWaitlist. svc_simpl.
  destruct (list_find _ (requests s)) as [[i h]|] eqn:Hfind; [|done]. simpl.
  apply list_find_Some in Hfind as (Hi & Hhead & _).
  apply andb_true_iff in Hhead as [[Hb Hst]%q_waitlisted_true _].
  destruct (H _ _ Hi Hst) as [bk Hbk].
  destruct (request_validate _); [|done]. simpl.
  destruct (inc_positions _ _ _) as [l' [e|]] eqn:Hinc; simpl.
  - apply (f_equal snd) in Hinc. simpl in Hinc.
    by apply inc_positions_error in Hinc as ->.
  - by rewrite Hbk.
Qed.

Lemma exec_no_type_error a s :
  active_have_books s → exec_error a s ≠ Some TypeError.
Proof.
  intros H. destruct a; simpl.
  - unfold createRequest, after, outcome, bind, Book_findById,
      BookRequest_findOne, BookRequest_countDocuments, gets, throw. simpl.
    destruct (books s !! bookId) as [bk|]; [|done].
    destruct (negb (isActive bk)); [done|].
    destruct (_ && _); [done|]. destruct (_ && _); [done|].
    destruct (_ && _); [done|].
    destruct (list_find _ (requests s)) as [[j ex]|]; [done|].
    destruct (String.eqb requestType0 "download");
      [apply BookRequest_create_no_type_error|].
    destruct (0 <? physical_availableCopies bk);
      apply BookRequest_create_no_type_error.
  - unfold cancelRequest. svc_simpl.
    destruct (requests s !! requestId) as [r|]; [|done].
    destruct (negb _); [done|]. destruct (negb _); [done|]. svc_simpl.
    destruct (request_validate _); [|done]. svc_simpl.
    case_bool_decide; [|done]. svc_simpl.
    destruct (inc_positions _ _ _) as [l' [e|]] eqn:Hinc; simpl; [|done].
    apply (f_equal snd) in Hinc. simpl in Hinc.
    by apply inc_positions_error in Hinc as ->.
  - unfold approveRequest. svc_simpl.
    destruct (requests s !! requestId) as [r|] eqn:Hr; [|done]. simpl.
    case_bool_decide as Hst; simpl; [|done].
    destruct (H _ _ Hr) as [bk Hbk]; [by rewrite Hst|].
    destruct (request_validate _); [|done]. svc_simpl. by rewrite Hbk.
  - unfold rejectRequest. svc_simpl.
    destruct (requests s !! requestId) as [r|] eqn:Hr; [|done]. simpl.
    case_bool_decide as Hst; simpl; [|done].
    destruct (H _ _ Hr) as [bk Hbk].
    { rewrite !elem_of_cons in Hst.
      by destruct Hst as [-> | [-> | ?%elem_of_nil]]. }
    destruct (request_validate _); [|done]. svc_simpl. by rewrite Hbk.
  - unfold issueBook. svc_simpl.
    destruct (requests s !! requestId) as [r|] eqn:Hr; [|done]. simpl.
    case_bool_decide as Hst; simpl; [|done].
    case_bool_decide as Hty; simpl; [|done].
    destruct (H _ _ Hr) as [bk Hbk]; [by rewrite Hst|].
    rewrite Hbk. svc_simpl. rewrite ?Hbk.
    destruct (physical_availableCopies bk <? 1); [done|].
    destruct (book_validate _); [|done]. svc_simpl.
    destruct (valid_time _); [|done]. svc_simpl.
    by destruct (request_validate _).
  - unfold returnBook, after, outcome, bind, BookRequest_findById,
      Book_findById, gets, throw. simpl.
    destruct (requests s !! requestId) as [r|] eqn:Hr; [|done]. simpl.
    case_bool_decide as Hst; simpl; [|done].
    destruct (H _ _ Hr) as [bk Hbk]; [by rewrite Hst|].
    rewrite Hbk. simpl. rewrite Hbk.
    unfold Book_save, BookRequest_save, modify, throw.
    destruct (book_validate _); [|done]. simpl.
    destruct (request_validate _); [|done]. simpl.
    match goal with |- context [promoteWaitlist ?b ?t ?s0] =>
      pose proof (promoteWaitlist_no_type_error b t s0) as Hp;
      unfold outcome in Hp;
      destruct (promoteWaitlist b t s0) as [s1 [[]|e']]; simpl in *
    end; [done|].
    apply Hp. intros i x Hx Hw.
    apply list_lookup_insert_Some in Hx as [(_ & <- & _) | [_ Hx]]; [done|].
    destruct (H _ _ Hx) as [b Hb]; [by rewrite Hw|].
    rewrite lookup_insert. case_decide; [done|]. by rewrite Hb.
  - unfold updateBook. svc_simpl.
    destruct (books s !! bookId); [|done].
    by destruct (book_validate _).
Qed.

Lemma Reachable_calls_service s0 s : Reachable s0 s → Reachable_calls s0 s.
Proof.
  induction 1 as [|s a _ IH]; [constructor|].
  exact (reach_calls_step s0 s (Service a) IH).
Qed.

Lemma Reachable_calls_invariant (I : Store → Prop) s0 s :
  (∀ c s, I s → I (exec_call c s)) → I s0 → Reachable_calls s0 s → I s.
Proof. intros Hstep H0. induction 1; auto. Qed.

(** X19: a book with a pending, approved, issued or waitlisted request
    cannot be deleted, so such requests always name a book of the
    catalogue, whatever calls of the request service, catalogue
    updates and deletions are made; and then no call of the service
    fails with a [TypeError] on a missing book. *)
Theorem active_requests_keep_their_book s0 s :
  Reachable_calls s0 s → active_have_books s0 →
  active_have_books s ∧ ∀ a, exec_error a s ≠ Some TypeError.
Proof.
  intros Hreach H0.
  assert (Hs : active_have_books s).
  { exact (Reachable_calls_invariant active_have_books s0 s
             exec_call_active_have_books H0 Hreach). }
  split; [done|]. intros a. by apply exec_no_type_error.
Qed.

Lemma active_requests_keep_their_book_witness :
  let s := exec_call (DeleteBook 0 true)
             (run (scenario ++ [CancelRequest 3 2]) library) in
  books s !! 0%nat = None
  ∧ exec_error (ApproveRequest 9 2 500) s ≠ Some TypeError.
Proof.
  intros s. split; [reflexivity|].
  refine (proj2 (active_requests_keep_their_book library s _ _)
            (ApproveRequest 9 2 500)).
  - apply (reach_calls_step library _ (DeleteBook 0 true)).
    apply Reachable_calls_service, Reachable_run.
  - intros i r Hr. destruct i; discriminate Hr.
Defined.

Lemma deleteBook_copies_in_bounds bookId cleanup s :
  copies_in_bounds s → copies_in_bounds (deleteBook bookId cleanup s).1.
Proof.
  intros H id b.
  destruct (deleteBook_books bookId cleanup s) as [-> | [-> _]]; [apply H|].
  intros [_ Hb]%lookup_delete_Some. by eapply H.
Qed.

Lemma deleteBook_outbox_ok bookId cleanup s :
  outbox_ok s → outbox_ok (deleteBook bookId cleanup s).1.
Proof.
  intros H n. unfold addressed.
  rewrite deleteBook_outbox, deleteBook_requests. apply H.
Qed.

(** X20: deleting books disturbs none of the invariants of the request
    service: along any sequence of service calls, catalogue updates
    and deletions, waitlists stay contiguous and numbered in creation
    order, copy counts stay within bounds, no user holds two active
    requests for a book, issued requests are borrows, and the
    notifications sent stay true of their requests. *)
Theorem invariants_survive_deletion s0 s :
  Reachable_calls s0 s →
  waitlist_in_order s0 → copies_in_bounds s0 →
  one_active_per_pair (requests s0) → issued_are_borrows (requests s0) →
  outbox_ok s0 →
  waitlist_contiguous s ∧ waitlist_in_order s ∧ copies_in_bounds s
  ∧ one_active_per_pair (requests s) ∧ issued_are_borrows (requests s)
  ∧ outbox_ok s.
Proof.
  intros Hreach Ho Hb Hp Hi Hn.
  cut (waitlist_in_order s ∧ copies_in_bounds s
       ∧ one_active_per_pair (requests s) ∧ issued_are_borrows (requests s)
       ∧ outbox_ok s).
  { intros (Ho' & ?). split; [|done].
    intros bookId. apply contiguous_check, Ho'. }
  revert Hreach.
  apply (Reachable_calls_invariant
           (λ s, waitlist_in_order s ∧ copies_in_bounds s
                 ∧ one_active_per_pair (requests s)
                 ∧ issued_are_borrows (requests s) ∧ outbox_ok s));
    [|done].
  clear. intros [a|bookId cleanup] s (Ho & Hb & Hp & Hi & Hn); simpl.
  - split_and!.
    + by apply exec_in_order.
    + by apply exec_copies_in_bounds.
    + by apply exec_one_active.
    + by apply exec_issued_borrows.
    + by apply exec_outbox_ok.
  - unfold waitlist_in_order. rewrite deleteBook_requests.
    split_and!; [done| |done..|].
    + by apply deleteBook_copies_in_bounds.
    + by apply deleteBook_outbox_ok.
Qed.

Lemma invariants_survive_deletion_witness :
  let s := exec_call (DeleteBook 0 true)
             (run (scenario ++ [CancelRequest 3 2]) library) in
  waitlist_contiguous s ∧ copies_in_bounds s.
Proof.
  intros s.
  destruct (invariants_survive_deletion library s) as (H1 & _ & H2 & _).
  - apply (reach_calls_step library _ (DeleteBook 0 true)).
    apply Reachable_calls_service, Reachable_run.
  - intros bookId. reflexivity.
  - apply copies_in_bounds_check, map_Forall_singleton. simpl. lia.
  - apply one_active_nil.
  - apply issued_are_borrows_nil.
  - intros n Hn. by apply elem_of_nil in Hn.
  - split; [exact H1|exact H2].
Defined.

Lemma count_active_of l bookId :
  (∀ i r, l !! i = Some r → book r = bookId → is_active (status r) = false) →
  filter (λ r, q_active_of bookId r = true) l = [].
Proof.
  intros H. induction l as [|x l IH]; [done|].
  rewrite filter_cons. case_decide as Hq.
  - apply andb_true_iff in Hq as [Hb%bool_decide_eq_true Hact].
    by rewrite (H 0%nat x eq_refl Hb) in Hact.
  - apply IH. intros i r Hi. by apply (H (S i)).
Qed.

(** X21: [deleteBook] removes a book exactly when the book exists, no
    request for it is pending, approved, issued or waitlisted, and the
    cleanup at the image host went through; it then removes that book
    only.  Otherwise nothing is written: an unknown book gives "Book
    not found", and a book with an active request gives "Cannot delete
    book with active borrow requests", before any cleanup.  Requests
    are never deleted with their book, and nobody is notified. *)
Theorem deleteBook_removes_only_idle_books s bookId cleanup :
  let s' := (deleteBook bookId cleanup s).1 in
  let err := (deleteBook bookId cleanup s).2 in
  requests s' = requests s
  ∧ outbox s' = outbox s
  ∧ (err = None ↔
     is_Some (books s !! bookId)
     ∧ (∀ i r, requests s !! i = Some r → book r = bookId →
               is_active (status r) = false)
     ∧ cleanup = true)
  ∧ (err = None → books s' = delete bookId (books s))
  ∧ (err ≠ None → s' = s)
  ∧ (books s !! bookId = None → err = Some DeleteBookNotFound)
  ∧ (∀ i r, is_Some (books s !! bookId) →
            requests s !! i = Some r → book r = bookId →
            is_active (status r) = true → err = Some ActiveRequestsExist).
Proof.
  intros s' err. subst s' err.
  split; [apply deleteBook_requests|]. split; [apply deleteBook_outbox|].
  unfold deleteBook.
  destruct (books s !! bookId) as [bk|] eqn:Hbk.
  2: { split_and!; try done. split; [done|]. by intros ([? ?] & _). }
  destruct (0 <? _) eqn:Hcount.
  { split_and!; try done. split; [done|].
    intros (_ & Hnone & _). by rewrite (count_active_of _ _ Hnone) in Hcount. }
  pose proof (no_active_of _ _ Hcount) as Hnone.
  assert (Hlast : ∀ e : option DeleteError, ∀ i r,
            is_Some (Some bk) → requests s !! i = Some r → book r = bookId →
            is_active (status r) = true → e = Some ActiveRequestsExist).
  { intros e i r _ Hr Hb Hact. by rewrite (Hnone _ _ Hr Hb) in Hact. }
  destruct cleanup; simpl; (split_and!; [..|apply Hlast]); try done.
  split; [done|]. by intros (_ & _ & ?).
Qed.

Lemma deleteBook_removes_only_idle_books_witness :
  (deleteBook 0 true (run scenario library)).2 = Some ActiveRequestsExist
  ∧ (deleteBook 0 true (run (scenario ++ [CancelRequest 3 2]) library)).2
    = None.
Proof.
  split.
  - refine (proj2 (proj2 (proj2 (proj2 (proj2 (proj2
      (deleteBook_removes_only_idle_books (run scenario library) 0 true))))))
      2%nat (promoted_doc 301 (new_request 0 3 borrow "" waitlisted (Some 1)))
      _ _ _ _).
    + vm_compute. by eexists.
    + vm_compute. reflexivity.
    + reflexivity.
    + reflexivity.
  - refine (proj2 (proj1 (proj2 (proj2
      (deleteBook_removes_only_idle_books
         (run (scenario ++ [CancelRequest 3 2]) library) 0 true)))) _).
    split; [vm_compute; by eexists|]. split; [|reflexivity].
    intros i r Hr _. vm_compute in Hr.
    destruct i as [|[|[|i]]]; [injection Hr as <-; reflexivity..|discriminate Hr].
Defined.

Lemma insert_existing_is_Some (m : gmap nat Book) k v v' b :
  m !! k = Some v → is_Some (<[k := v']> m !! b) ↔ is_Some (m !! b).
Proof.
  intros Hk. rewrite lookup_insert_is_Some. split.
  - intros [<- | [_ H]]; [by eexists|done].
  - intros H. destruct (decide (k = b)); auto.
Qed.

(** The service saves only books it has found: no call adds a book to
    the catalogue or removes one. *)
Lemma exec_books_dom a s b :
  is_Some (books (exec a s) !! b) ↔ is_Some (books s !! b).
Proof.
  destruct a; simpl.
  - by rewrite createRequest_books.
  - by rewrite cancelRequest_books.
  - by rewrite approveRequest_books.
  - by rewrite rejectRequest_books.
  - unfold issueBook. svc_simpl.
    destruct (requests s !! requestId) as [r|]; [|done]. simpl.
    destruct (negb _); [done|]. destruct (negb _); [done|].
    destruct (books s !! book r) as [bk|] eqn:Hbk; [|done].
    svc_simpl. rewrite Hbk.
    destruct (physical_availableCopies bk <? 1); [done|].
    destruct (book_validate _); [|done]. svc_simpl.
    destruct (valid_time _); simpl; [|by eapply insert_existing_is_Some].
    destruct (request_validate _); simpl; by eapply insert_existing_is_Some.
  - unfold returnBook, after, bind, BookRequest_findById, Book_findById, gets,
      throw. simpl.
    destruct (requests s !! requestId) as [r|]; [|done]. simpl.
    destruct (negb _); [done|]. simpl.
    destruct (books s !! book r) as [bk|] eqn:Hbk; [|done].
    simpl. rewrite Hbk. unfold Book_save, BookRequest_save, modify, throw.
    destruct (book_validate _); [|done]. simpl.
    destruct (request_validate _); simpl;
      [|by eapply insert_existing_is_Some].
    match goal with |- context [promoteWaitlist ?b ?t ?s0] =>
      pose proof (promoteWaitlist_books b t s0) as Hp; unfold after in Hp;
      destruct (promoteWaitlist b t s0) as [s1 [[]|e]]; simpl in *; rewrite Hp
    end; by eapply insert_existing_is_Some.
  - unfold updateBook. svc_simpl.
    destruct (books s !! bookId) eqn:Hbk; [|done].
    destruct (book_validate _); simpl; [|done].
    by eapply insert_existing_is_Some.
Qed.

(** What holds of a book once it is deleted: it is not in the
    catalogue, and its requests are the ones it had, none of them
    active. *)
Lemma exec_call_deleted (l : list BookRequest) b c s :
  (books s !! b = None
   ∧ (∀ i r, requests s !! i = Some r → book r = b →
             l !! i = Some r ∧ is_active (status r) = false)
   ∧ (∀ i r, l !! i = Some r → book r = b → requests s !! i = Some r)) →
  books (exec_call c s) !! b = None
  ∧ (∀ i r, requests (exec_call c s) !! i = Some r → book r = b →
            l !! i = Some r ∧ is_active (status r) = false)
  ∧ (∀ i r, l !! i = Some r → book r = b →
            requests (exec_call c s) !! i = Some r).
Proof.
  intros (Hnone & Hback & Hforth).
  destruct c as [a|bookId cleanup]; simpl.
  - split_and!.
    + apply eq_None_not_Some. rewrite exec_books_dom. by rewrite Hnone.
    + intros i r' Hr' Hb.
      destruct (exec_pointwise a s i r' Hr')
        as [(r & Hr & Hc & _)
           | (-> & Hcr & b' & u & t & note & st & pos & -> & Htb & _)].
      * pose proof (doc_change_same_ref _ _ Hc) as (Hbr & _).
        destruct (Hback i r Hr) as [Hl Hact]; [congruence|].
        by rewrite (doc_change_terminal _ _ Hact Hc).
      * destruct a; try done. simpl in *.
        assert (bookId = b) as -> by congruence.
        destruct (createRequest_appends userId b requestType0 userNote0 s)
          as [Heq | (r & _ & _ & Hsome)].
        -- rewrite Heq in Hr'. apply lookup_lt_Some in Hr'. lia.
        -- rewrite Hnone in Hsome. by destruct Hsome.
    + intros i r Hl Hb. pose proof (Hforth i r Hl Hb) as Hr.
      destruct (exec_kept a s i r Hr) as (r' & Hr' & Hc & _).
      destruct (Hback i r Hr Hb) as [_ Hact].
      by rewrite (doc_change_terminal _ _ Hact Hc) in Hr'.
  - rewrite deleteBook_requests. split_and!; [|done..].
    destruct (deleteBook_books bookId cleanup s) as [-> | [-> _]]; [done|].
    apply lookup_delete_None. by right.
Qed.

(** X22: deletion is final.  Once [deleteBook] has removed a book,
    no sequence of service calls, catalogue updates and deletions
    brings it back, adds a request for it, or changes one of the
    requests it had. *)
Theorem deleted_books_stay_deleted s bookId cleanup s' :
  (deleteBook bookId cleanup s).2 = None →
  Reachable_calls (deleteBook bookId cleanup s).1 s' →
  books s' !! bookId = None
  ∧ (∀ i r, requests s' !! i = Some r → book r = bookId →
            requests s !! i = Some r)
  ∧ (∀ i r, requests s !! i = Some r → book r = bookId →
            requests s' !! i = Some r).
Proof.
  intros Hok Hreach.
  destruct (deleteBook_books bookId cleanup s) as [Hsame | [Hdel Hidle]].
  { exfalso. revert Hok Hsame. unfold deleteBook.
    destruct (books s !! bookId) eqn:Hbk; [|done].
    destruct (0 <? _); [done|]. destruct cleanup; [|done]. simpl.
    intros _ Hd. apply (f_equal (λ m, m !! bookId)) in Hd.
    rewrite lookup_delete_eq in Hd. congruence. }
  cut (books s' !! bookId = None
       ∧ (∀ i r, requests s' !! i = Some r → book r = bookId →
                 requests s !! i = Some r ∧ is_active (status r) = false)
       ∧ (∀ i r, requests s !! i = Some r → book r = bookId →
                 requests s' !! i = Some r)).
  { intros (H1 & H2 & H3). split_and!; [done| |done].
    intros i r Hr Hb. by apply H2. }
  revert Hreach.
  apply (Reachable_calls_invariant
           (λ s', books s' !! bookId = None
                  ∧ (∀ i r, requests s' !! i = Some r → book r = bookId →
                       requests s !! i = Some r ∧ is_active (status r) = false)
                  ∧ (∀ i r, requests s !! i = Some r → book r = bookId →
                       requests s' !! i = Some r))).
  - intros c s1. apply exec_call_deleted.
  - rewrite deleteBook_requests, Hdel. split_and!.
    + apply lookup_delete_eq.
    + intros i r Hr Hb. split; [done|]. by eapply Hidle.
    + done.
Qed.

Lemma deleted_books_stay_deleted_witness :
  let s := run (scenario ++ [CancelRequest 3 2]) library in
  let s' := exec (CreateRequest 4 0 "borrow" "") (deleteBook 0 true s).1 in
  books s' !! 0%nat = None ∧ length (requests s') = 3%nat.
Proof.
  intros s s'. split; [|reflexivity].
  refine (proj1 (deleted_books_stay_deleted s 0 true s' _ _)).
  - reflexivity.
  - exact (reach_calls_step _ _ (Service (CreateRequest 4 0 "borrow" ""))
             (reach_calls_init _)).
Defined.

(** ** Overdue loans *)

Lemma issueBook_due librarianId requestId t s r' :
  outcome (issueBook librarianId requestId t) s = Ok r' →
  ∃ bk, books s !! book r' = Some bk
        ∧ book_validate bk = true
        ∧ status r' = issued
        ∧ dueDate r'
          = Some (t + default 0 (borrowDurationDays bk) * ms_per_day).
Proof.
  unfold issueBook. svc_simpl.
  destruct (requests s !! requestId) as [r|]; [|done]. simpl.
  destruct (negb _); [done|]. destruct (negb _); [done|].
  destruct (books s !! book r) as [bk|] eqn:Hbk; [|done].
  svc_simpl. rewrite Hbk.
  destruct (physical_availableCopies bk <? 1) eqn:Hav; [done|].
  destruct (book_validate _) eqn:Hbv; [|done]. svc_simpl.
  destruct (valid_time _); [|done]. svc_simpl.
  destruct (request_validate _); [|done]. svc_simpl.
  intros [= <-]. exists bk. split_and!; [done| |done..].
  apply Z.ltb_ge in Hav. unfold book_validate in *. simpl in Hbv.
  apply andb_true_iff in Hbv as [[Ht _]%andb_true_iff Hd].
  rewrite Ht, Hd. simpl. rewrite andb_true_r. apply Z.leb_le. lia.
Qed.

(** X23: in every reachable store a request reads as overdue only
    while it is issued and the clock is past its due date, which is
    not before the time of issue: no request is overdue at the moment
    it is issued.  For a request that [issueBook] has just issued at
    time [t], [isOverdue] is true exactly when the clock is past [t]
    plus the loan period of the book, which is [t] itself for a book
    without a loan period; when the book has one, the request is not
    overdue during the first day. *)
Theorem overdue_only_after_the_loan_period s0 s :
  (∀ k r, requests s0 !! k = Some r → audit_ok r) → Reachable s0 s →
  (∀ k r now, requests s !! k = Some r → isOverdue now r = true →
     status r = issued
     ∧ ∃ t d, issuedAt r = Some t ∧ dueDate r = Some d
              ∧ t ≤ d ∧ d < now)
  ∧ (∀ librarianId requestId t r',
       outcome (issueBook librarianId requestId t) s = Ok r' →
       ∃ bk, books s !! book r' = Some bk
             ∧ (∀ now, isOverdue now r' = true
                       ↔ t + default 0 (borrowDurationDays bk) * ms_per_day
                         < now)
             ∧ (is_Some (borrowDurationDays bk) →
                ∀ now, now ≤ t + ms_per_day → isOverdue now r' = false)).
Proof.
  intros H0 Hreach. split.
  - intros k r now Hr. unfold isOverdue.
    case_bool_decide as Hst; simpl; [|done].
    destruct (dueDate r) as [due|] eqn:Hdue; [|done].
    intros Hlate%Z.gtb_gt. split; [done|].
    assert (Haudit : audit_ok r).
    { exact (Reachable_invariant
               (λ s, ∀ k r, requests s !! k = Some r → audit_ok r)
               s0 s exec_audit H0 Hreach k r Hr). }
    destruct Haudit as (_ & _ & Hiss & _).
    destruct Hiss as (_ & t & d & Ht & Hd & Hle & _); [by left|].
    exists t, d. rewrite Hdue in Hd. injection Hd as <-.
    split_and!; [done..|lia].
  - intros librarianId requestId t r'
      (bk & Hbk & Hbv & Hst & Hdue)%issueBook_due.
    exists bk. split; [done|].
    assert (Hover : ∀ now, isOverdue now r' = true
              ↔ t + default 0 (borrowDurationDays bk) * ms_per_day < now).
    { intros now. unfold isOverdue.
      rewrite Hst, Hdue. simpl. rewrite Z.gtb_gt. lia. }
    split; [done|]. intros [days Hdays] now Hnow.
    apply not_true_is_false. rewrite Hover, Hdays. simpl.
    unfold book_validate in Hbv. rewrite Hdays in Hbv.
    apply andb_true_iff in Hbv as [_ Hd%Z.leb_le].
    unfold ms_per_day in *. nia.
Qed.

Lemma overdue_only_after_the_loan_period_witness :
  let r := issued_doc 9 200 (200 + 14 * ms_per_day)
             (approved_doc 9 100 (new_request 0 1 borrow "" pending None)) in
  requests (run lend_out library) !! 0%nat = Some r
  ∧ isOverdue (201 + 14 * ms_per_day) r = true
  ∧ ∃ t d, issuedAt r = Some t ∧ dueDate r = Some d
           ∧ t ≤ d ∧ d < 201 + 14 * ms_per_day.
Proof.
  intros r. split; [reflexivity|]. split; [reflexivity|].
  refine (proj2 (proj1 (overdue_only_after_the_loan_period library
                          (run lend_out library) _ _)
                   0%nat r (201 + 14 * ms_per_day) _ _)).
  - intros k x Hx. destruct k; discriminate Hx.
  - apply Reachable_run.
  - reflexivity.
  - reflexivity.
Defined.

(** ** Availability *)

(** X24: the request service agrees with the [isAvailable] virtual of
    the book.  A borrow request that [createRequest] accepts is for a
    book that is not digital-only, and it is pending when the book
    reads available and waitlisted when it does not; an accepted
    download is pending whatever the book reads, and is never for a
    physical-only book; and [issueBook] succeeds only on a book that
    reads available. *)
Theorem createRequest_follows_isAvailable s userId bookId ty note bk i r :
  books s !! bookId = Some bk →
  outcome (createRequest userId bookId ty note) s = Ok (i, r) →
  (requestType r = borrow →
     bookType bk ≠ digital
     ∧ status r = if isAvailable bk then pending else waitlisted)
  ∧ (requestType r = download → bookType bk ≠ physical ∧ status r = pending)
  ∧ (∀ librarianId requestId now r',
       outcome (issueBook librarianId requestId now) s = Ok r' →
       ∃ bk', books s !! book r' = Some bk' ∧ isAvailable bk' = true).
Proof.
  intros Hbk Hout. split_and!.
  3: { intros librarianId requestId now r'. clear.
       unfold issueBook. svc_simpl.
       destruct (requests s !! requestId) as [r|]; [|done]. simpl.
       destruct (negb _); [done|]. destruct (negb _); [done|].
       destruct (books s !! book r) as [bk|] eqn:Hbk; [|done].
       svc_simpl. rewrite Hbk.
       destruct (physical_availableCopies bk <? 1) eqn:Hav; [done|].
       destruct (book_validate _); [|done]. svc_simpl.
       destruct (valid_time _); [|done]. svc_simpl.
       destruct (request_validate _); [|done]. svc_simpl.
       intros [= <-]. exists bk. split; [done|].
       unfold isAvailable. case_bool_decide; [done|].
       apply Z.ltb_ge in Hav. apply Z.ltb_lt. lia. }
  all: revert Hout;
    unfold createRequest, outcome, bind, Book_findById, BookRequest_findOne,
      BookRequest_countDocuments, gets, throw; simpl; rewrite Hbk;
    destruct (negb (isActive bk)); [done|];
    unfold BookRequest_create, parse_requestType, isAvailable;
    (destruct (String.eqb ty "borrow") eqn:E1;
       [apply String.eqb_eq in E1; subst ty
       |destruct (String.eqb ty "download") eqn:E2]); simpl;
    repeat case_bool_decide; simpl; try done;
    try (destruct (String.eqb (digital_fileUrl bk) ""); simpl; try done);
    destruct (list_find _ (requests s)) as [[j ex]|]; simpl; try done;
    try (destruct (0 <? physical_availableCopies bk); simpl);
    try (destruct (request_validate _); simpl); try done;
    intros [= <- <-]; simpl; try done.
Qed.

Lemma createRequest_follows_isAvailable_witness :
  let s := run lend_out library in
  let r := new_request 0 2 borrow "" waitlisted (Some 1) in
  outcome (createRequest 2 0 "borrow" "") s = Ok (1%nat, r)
  ∧ isAvailable (set_availableCopies 0 one_copy) = false
  ∧ bookType (set_availableCopies 0 one_copy) ≠ digital.
Proof.
  intros s r. split; [reflexivity|]. split; [reflexivity|].
  refine (proj1 (proj1 (createRequest_follows_isAvailable s 2 0 "borrow" ""
                          (set_availableCopies 0 one_copy) 1%nat r _ _) _)).
  - reflexivity.
  - reflexivity.
  - reflexivity.
Defined.
